(** * Voice-activity-gated audio capture: the [useAudioRecorder] hook

    A shallow embedding of [src/hooks/use-audio.ts] (the capture hook), of
    its consumer [processAudio] and the page's use of the hook
    ([src/unnamed/part_001]), and of the voice settings and the translation
    route ([src/unnamed/part_000]).

    React state and refs become the fields of one record, [Hook]; the browser
    objects the hook talks to (recorders, audio context, stream, timer) are
    kept in the same record, and every call that leaves the hook is written
    to a trace. Each handler of the source is one function in a
    state-and-exception monad; the browser delivers events one at a time
    ([handle], [step]).

    What the model fixes:
    - a handler reads the state of the latest render: between two events
      React has committed the pending updates;
    - in [handle], [await getUserMedia(...)] and [await resume()] are not
      interleaved with other events; [await onRecordingComplete(blob)] is:
      the handler is suspended and resumed by the event [ConsumerSettled].
      [async_step] refines [handle] at [await getUserMedia]: a start call
      stops there and other events, other start calls among them, come in
      before its request is answered;
    - a JS number is an exact real, one of the two infinities, or NaN:
      floating-point rounding is not modelled;
    - the recorder's stop and data events may also come from a recorder the
      browser stopped by itself; a recorder delivers one stop event. *)

From Stdlib Require Import ZArith NArith QArith Reals Lra Lia List Bool String.
From stdpp Require Import base option list sets.

Set Default Proof Using "Type".

(* ------------------------------------------------------------------ *)
(** ** JavaScript numbers, as far as the loudness computation needs them *)

Module Num.

Local Open Scope R_scope.

(** A JS [number]: a finite value (rounding is not modelled, the finite
    part is an exact real), the two infinities, or NaN. *)
Inductive number : Type :=
| NaN
| NegInf
| PosInf
| Fin (x : R).

(** [a < b] of JavaScript: false as soon as one side is NaN. *)
Definition ltb (a b : number) : bool :=
  match a, b with
  | NaN, _ | _, NaN => false
  | NegInf, NegInf => false
  | NegInf, _ => true
  | _, NegInf => false
  | PosInf, _ => false
  | Fin _, PosInf => true
  | Fin x, Fin y => if Rlt_dec x y then true else false
  end.

(** [Math.log10] on a finite argument: [-Infinity] at zero, NaN below. *)
Definition log10 (x : R) : number :=
  if Rlt_dec 0 x then Fin (ln x / ln 10)
  else if Req_dec_T x 0 then NegInf
  else NaN.

(** [k * v] for a finite positive [k]. *)
Definition scale (k : R) (v : number) : number :=
  match v with
  | Fin x => Fin (k * x)
  | other => other
  end.

Definition of_Z (z : Z) : number := Fin (IZR z).

(** [a >= b] of JavaScript. *)
Definition geb (a b : number) : bool :=
  match a, b with
  | NaN, _ | _, NaN => false
  | _, NegInf => true
  | NegInf, _ => false
  | PosInf, _ => true
  | Fin _, PosInf => false
  | Fin x, Fin y => if Rge_dec x y then true else false
  end.

End Num.

Abbreviation number := Num.number.

(* ------------------------------------------------------------------ *)
(** ** Data model *)

Local Open Scope string_scope.

(** A [Blob]: only its byte size and its type tag are observed. *)
Record Blob := mkBlob { size : N; type : string }.

(** [new Blob(parts, { type })]. *)
Definition Blob_new (parts : list Blob) (ty : string) : Blob :=
  mkBlob (fold_right N.add 0%N (map size parts)) ty.

(** The recorder as the browser runs it. [state] of the DOM object reads
    ['recording'] in [Capturing] and ['inactive'] in the two other phases;
    in [Finalizing] the stop event has not been delivered yet. *)
Inductive RecorderPhase := Capturing | Finalizing | Finished.

Record MediaRecorder := mkRecorder {
  rec_phase : RecorderPhase;
  rec_stream : nat;                  (* the MediaStream it records *)
  rec_mimeType : string;             (* [mimeType] of the handlers' closure *)
  rec_audioBitsPerSecond : Z;
  rec_timeslice : Z;                 (* argument of [start] *)
  rec_cleanup : option nat           (* [mediaRecorder] as the [cleanup] the
                                        handlers call has captured it *)
}.

Definition rec_inactive (r : MediaRecorder) : bool :=
  match rec_phase r with Capturing => false | _ => true end.

Definition set_phase (p : RecorderPhase) (r : MediaRecorder) : MediaRecorder :=
  mkRecorder p (rec_stream r) (rec_mimeType r) (rec_audioBitsPerSecond r)
             (rec_timeslice r) (rec_cleanup r).

(** [AudioContext.state]; [SuspendRequested] still reads ['running']: the
    promise of [suspend()] has not settled. *)
Inductive ContextState := Running | SuspendRequested | Suspended.

Record AnalyserNode := mkAnalyser {
  fftSize : Z;
  minDecibels : Z;
  maxDecibels : Z;
  smoothingTimeConstant : Q
}.

Definition frequencyBinCount (a : AnalyserNode) : Z := fftSize a / 2.

(** The handle kept in [silenceTimeoutRef]. The callback closes over the
    [isRecording] of the render that scheduled it. *)
Record Timeout := mkTimeout {
  tm_delay : Z;
  tm_pending : bool;                 (* not fired yet *)
  tm_isRecording : bool
}.

(** Calls that leave the hook, most recent first. *)
Inductive Effect :=
| EGetUserMedia
| EStopTracks (sid : nat)
| ECloseContext
| ESuspendContext
| EResumeContext
| EConnectSource (sid : nat)
| EDisconnectSource (sid : nat)
| ERecorderStart (rid : nat)
| ERecorderStop (rid : nat)
| ESetTimeout (ms : Z)
| EClearTimeout
| EConsumer (b : Blob).              (* [onRecordingComplete(blob)] *)

Inductive Error :=
| NotAllowedError                    (* [getUserMedia] rejected *)
| NoSupportedMimeType                (* 'No supported audio MIME type found' *)
| InvalidStateError                  (* [stop()] on an inactive recorder *)
| TypeError.

Record Hook := mkHook {
  (* useState *)
  mediaRecorder : option nat;
  isRecording : bool;
  isListening : bool;
  (* useRef *)
  audioChunksRef : list Blob;
  isProcessingRef : bool;
  streamRef : option nat;
  analyserRef : option AnalyserNode;
  silenceTimeoutRef : option Timeout;
  audioContextRef : option ContextState;
  (* the browser's side *)
  recorders : list MediaRecorder;    (* every recorder built so far *)
  requests : nat;                    (* [getUserMedia] calls so far *)
  awaiting : list nat;               (* [onstop] handlers suspended at
                                        [await onRecordingComplete] *)
  trace : list Effect
}.

Definition initial : Hook :=
  mkHook None false false [] false None None None None [] 0 [] [].

(** What the platform answers. *)
Record Platform := mkPlatform {
  isTypeSupported : string -> bool;
  permission : nat -> bool           (* the n-th [getUserMedia] resolves *)
}.

(** The props the hook destructures: [UseAudioRecorderProps]. *)
Record Props := mkProps {
  silenceThreshold : number;
  silenceTimeout : Z
}.

Definition default_props : Props := mkProps (Num.of_Z (-50)) 1500.

(* ------------------------------------------------------------------ *)
(** ** Field updates *)

Definition set_mediaRecorder (v : option nat) (h : Hook) : Hook :=
  mkHook v (isRecording h) (isListening h) (audioChunksRef h)
    (isProcessingRef h) (streamRef h) (analyserRef h) (silenceTimeoutRef h)
    (audioContextRef h) (recorders h) (requests h) (awaiting h) (trace h).

Definition set_isRecording (v : bool) (h : Hook) : Hook :=
  mkHook (mediaRecorder h) v (isListening h) (audioChunksRef h)
    (isProcessingRef h) (streamRef h) (analyserRef h) (silenceTimeoutRef h)
    (audioContextRef h) (recorders h) (requests h) (awaiting h) (trace h).

Definition set_isListening (v : bool) (h : Hook) : Hook :=
  mkHook (mediaRecorder h) (isRecording h) v (audioChunksRef h)
    (isProcessingRef h) (streamRef h) (analyserRef h) (silenceTimeoutRef h)
    (audioContextRef h) (recorders h) (requests h) (awaiting h) (trace h).

Definition set_audioChunksRef (v : list Blob) (h : Hook) : Hook :=
  mkHook (mediaRecorder h) (isRecording h) (isListening h) v
    (isProcessingRef h) (streamRef h) (analyserRef h) (silenceTimeoutRef h)
    (audioContextRef h) (recorders h) (requests h) (awaiting h) (trace h).

Definition set_isProcessingRef (v : bool) (h : Hook) : Hook :=
  mkHook (mediaRecorder h) (isRecording h) (isListening h) (audioChunksRef
    h) v (streamRef h) (analyserRef h) (silenceTimeoutRef h)
    (audioContextRef h) (recorders h) (requests h) (awaiting h) (trace h).

Definition set_streamRef (v : option nat) (h : Hook) : Hook :=
  mkHook (mediaRecorder h) (isRecording h) (isListening h) (audioChunksRef
    h) (isProcessingRef h) v (analyserRef h) (silenceTimeoutRef h)
    (audioContextRef h) (recorders h) (requests h) (awaiting h) (trace h).

Definition set_analyserRef (v : option AnalyserNode) (h : Hook) : Hook :=
  mkHook (mediaRecorder h) (isRecording h) (isListening h) (audioChunksRef
    h) (isProcessingRef h) (streamRef h) v (silenceTimeoutRef h)
    (audioContextRef h) (recorders h) (requests h) (awaiting h) (trace h).

Definition set_silenceTimeoutRef (v : option Timeout) (h : Hook) : Hook :=
  mkHook (mediaRecorder h) (isRecording h) (isListening h) (audioChunksRef
    h) (isProcessingRef h) (streamRef h) (analyserRef h) v (audioContextRef
    h) (recorders h) (requests h) (awaiting h) (trace h).

Definition set_audioContextRef (v : option ContextState) (h : Hook) : Hook :=
  mkHook (mediaRecorder h) (isRecording h) (isListening h) (audioChunksRef
    h) (isProcessingRef h) (streamRef h) (analyserRef h) (silenceTimeoutRef
    h) v (recorders h) (requests h) (awaiting h) (trace h).

Definition set_recorders (v : list MediaRecorder) (h : Hook) : Hook :=
  mkHook (mediaRecorder h) (isRecording h) (isListening h) (audioChunksRef
    h) (isProcessingRef h) (streamRef h) (analyserRef h) (silenceTimeoutRef
    h) (audioContextRef h) v (requests h) (awaiting h) (trace h).

Definition set_requests (v : nat) (h : Hook) : Hook :=
  mkHook (mediaRecorder h) (isRecording h) (isListening h) (audioChunksRef
    h) (isProcessingRef h) (streamRef h) (analyserRef h) (silenceTimeoutRef
    h) (audioContextRef h) (recorders h) v (awaiting h) (trace h).

Definition set_awaiting (v : list nat) (h : Hook) : Hook :=
  mkHook (mediaRecorder h) (isRecording h) (isListening h) (audioChunksRef
    h) (isProcessingRef h) (streamRef h) (analyserRef h) (silenceTimeoutRef
    h) (audioContextRef h) (recorders h) (requests h) v (trace h).

Definition set_trace (v : list Effect) (h : Hook) : Hook :=
  mkHook (mediaRecorder h) (isRecording h) (isListening h) (audioChunksRef
    h) (isProcessingRef h) (streamRef h) (analyserRef h) (silenceTimeoutRef
    h) (audioContextRef h) (recorders h) (requests h) (awaiting h) v.


(* ------------------------------------------------------------------ *)
(** ** The handler monad: state of the hook, and a thrown error *)

Inductive Result (A : Type) :=
| Ok (a : A)
| Throw (e : Error).
Arguments Ok {A} a.
Arguments Throw {A} e.

Definition M (A : Type) : Type := Hook -> Result A * Hook.

#[global] Instance M_ret : MRet M := fun A a h => (Ok a, h).

#[global] Instance M_bind : MBind M := fun A B f m h =>
  match m h with
  | (Ok a, h') => f a h'
  | (Throw e, h') => (Throw e, h')
  end.

Definition gets {A} (f : Hook -> A) : M A := fun h => (Ok (f h), h).
Definition modify (f : Hook -> Hook) : M unit := fun h => (Ok tt, f h).
Definition throw {A} (e : Error) : M A := fun h => (Throw e, h).

(** [try { m } catch (e) { handler e }]. *)
Definition try_catch {A} (m : M A) (handler : Error -> M A) : M A := fun h =>
  match m h with
  | (Ok a, h') => (Ok a, h')
  | (Throw e, h') => handler e h'
  end.

(** A call whose promise nobody awaits: a rejection is lost. *)
Definition detached (m : M unit) : M unit := fun h => (Ok tt, snd (m h)).

Definition when (b : bool) (m : M unit) : M unit := if b then m else mret tt.

Definition emit (e : Effect) : M unit :=
  modify (fun h => set_trace (e :: trace h) h).

(** The state a handler leaves, and whether it threw. *)
Definition exec {A} (m : M A) (h : Hook) : Hook := snd (m h).
Definition thrown {A} (m : M A) (h : Hook) : option Error :=
  match fst (m h) with Ok _ => None | Throw e => Some e end.

(* ------------------------------------------------------------------ *)
(** ** Loudness estimate (detectSilence, lines 199-204) *)

(** [dataArray.reduce((a, b) => a + b)]: no initial value, so an empty
    array has no result (the call throws). *)
Definition reduce_add (dataArray : list Z) : option Z :=
  match dataArray with
  | [] => None
  | a :: rest => Some (fold_left Z.add rest a)
  end.

(** [average = sum / length] and [dB = 20 * Math.log10(average / 255)]. *)
Definition average (sum : Z) (len : nat) : R := (IZR sum / INR len)%R.

Definition decibels (avg : R) : number :=
  Num.scale 20 (Num.log10 (avg / 255)%R).

Definition loudness (dataArray : list Z) : option number :=
  match reduce_add dataArray with
  | None => None
  | Some sum => Some (decibels (average sum (length dataArray)))
  end.

(** What [getByteFrequencyData] can write: one unsigned byte per bin. *)
Definition byte_frame (a : AnalyserNode) (dataArray : list Z) : Prop :=
  Z.of_nat (length dataArray) = frequencyBinCount a /\
  Forall (fun b => (0 <= b <= 255)%Z) dataArray.

(* ------------------------------------------------------------------ *)
(** ** The handlers of the hook *)

Definition types : list string :=
  [ "audio/webm;codecs=opus"; "audio/webm"; "audio/mp4"; "audio/aac";
    "audio/ogg;codecs=opus"; "audio/wav" ].

Local Close Scope string_scope.

Definition lookup_recorder (rid : nat) : M (option MediaRecorder) :=
  gets (fun h => recorders h !! rid).

(** [clearTimeout(silenceTimeoutRef.current); silenceTimeoutRef.current = null]
    under [if (silenceTimeoutRef.current)]. *)
Definition clearSilenceTimeout : M unit :=
  t ← gets silenceTimeoutRef;
  match t with
  | Some _ => emit EClearTimeout;; modify (set_silenceTimeoutRef None)
  | None => mret tt
  end.

(** [cleanup(fullCleanup)]; [captured] is the [mediaRecorder] of the render
    in which this [cleanup] was created. *)
Definition cleanup (captured : option nat) (fullCleanup : bool) : M unit :=
  clearSilenceTimeout;;
  when fullCleanup (
    ctx ← gets audioContextRef;
    when (bool_decide (is_Some ctx))
      (emit ECloseContext;; modify (set_audioContextRef None));;
    s ← gets streamRef;
    match s with
    | Some sid => emit (EStopTracks sid);; modify (set_streamRef None)
    | None => mret tt
    end;;
    r ← match captured with
        | Some rid => lookup_recorder rid
        | None => mret None
        end;
    match r with
    | Some rec => emit (EStopTracks (rec_stream rec))
    | None => mret tt
    end;;
    modify (set_analyserRef None));;
  modify (set_isRecording false);;
  modify (set_mediaRecorder None);;
  modify (set_audioChunksRef []);;
  modify (set_isProcessingRef false).

Section Handlers.

Context (plat : Platform) (props : Props).

Definition getSupportedMimeType : M string :=
  match List.find (isTypeSupported plat) types with
  | Some ty => mret ty
  | None => throw NoSupportedMimeType
  end.

(** [await navigator.mediaDevices.getUserMedia(...)]: the platform's answer
    to this request; the wait itself is not interleaved with other events. *)
Definition getUserMedia : M nat :=
  n ← gets requests;
  modify (set_requests (S n));;
  emit EGetUserMedia;;
  if permission plat n then mret n else throw NotAllowedError.

(** [createAnalyser()] followed by the four assignments to the node. *)
Definition createAnalyser : AnalyserNode := mkAnalyser 2048 (-90) (-10) 0.85.

(** Lines 92-109 and 268-286: the stream, the context and the analyser. *)
Definition acquire : M unit :=
  sid ← getUserMedia;
  modify (set_streamRef (Some sid));;
  modify (set_audioContextRef (Some Running));;
  modify (set_analyserRef (Some createAnalyser));;
  emit (EConnectSource sid).

Definition session_missing (h : Hook) : bool :=
  negb (bool_decide (is_Some (streamRef h)))
  || negb (bool_decide (is_Some (audioContextRef h)))
  || negb (bool_decide (is_Some (analyserRef h))).

(** [new MediaRecorder(stream, { mimeType, audioBitsPerSecond: 128000 })]
    with its three handlers, then [recorder.start(500)]. *)
Definition newRecorder (sid : nat) (mimeType : string)
    (captured : option nat) : M nat :=
  rid ← gets (fun h => length (recorders h));
  modify (fun h => set_recorders
    (recorders h ++ [mkRecorder Capturing sid mimeType 128000 500 captured]) h);;
  emit (ERecorderStart rid);;
  mret rid.

Definition startRecording : M unit :=
  busy ← gets (fun h => isProcessingRef h || isRecording h);
  if busy : bool then mret tt else
  captured ← gets mediaRecorder;
  try_catch (
    modify (set_isProcessingRef true);;
    missing ← gets session_missing;
    when missing acquire;;
    mimeType ← getSupportedMimeType;
    s ← gets streamRef;
    match s with
    | None => throw TypeError
    | Some sid =>
        rid ← newRecorder sid mimeType captured;
        modify (set_mediaRecorder (Some rid));;
        modify (set_isRecording true);;
        modify (set_isProcessingRef false)
    end)
  (fun error => cleanup captured true;; throw error).

(** [mediaRecorder.stop()]. *)
Definition recorder_stop (rid : nat) : M unit :=
  r ← lookup_recorder rid;
  match r with
  | Some rec =>
      if rec_inactive rec then throw InvalidStateError
      else
        modify (fun h => set_recorders
          (<[rid := set_phase Finalizing rec]> (recorders h)) h);;
        emit (ERecorderStop rid)
  | None => throw TypeError
  end.

(** [mediaRecorder && mediaRecorder.state !== 'inactive']. *)
Definition recorder_active (h : Hook) : option nat :=
  match mediaRecorder h with
  | Some rid =>
      match recorders h !! rid with
      | Some rec => if rec_inactive rec then None else Some rid
      | None => None
      end
  | None => None
  end.

Definition stopRecording : M unit :=
  busy ← gets isProcessingRef;
  if busy : bool then mret tt else
  captured ← gets mediaRecorder;
  active ← gets recorder_active;
  match active with
  | Some rid =>
      modify (set_isProcessingRef true);;
      try_catch (recorder_stop rid) (fun _ => cleanup captured true)
  | None => cleanup captured false
  end.

(** [recorder.ondataavailable]. *)
Definition ondataavailable (data : Blob) : M unit :=
  when (0 <? size data)%N
    (modify (fun h => set_audioChunksRef (audioChunksRef h ++ [data]) h)).

(** [recorder.onstop] up to [await onRecordingComplete(audioBlob)]; with no
    chunk there is no await and the handler runs to its end. *)
Definition onstop (rid : nat) (rec : MediaRecorder) : M unit :=
  modify (set_isRecording false);;
  chunks ← gets audioChunksRef;
  if (0 <? length chunks)%nat then
    emit (EConsumer (Blob_new chunks (rec_mimeType rec)));;
    modify (fun h => set_awaiting (rid :: awaiting h) h)
  else
    cleanup (rec_cleanup rec) false.

(** [recorder.onstop] after the await: the consumer's promise has settled
    (a rejection is caught and logged). *)
Definition onstop_resume (rec : MediaRecorder) : M unit :=
  modify (set_audioChunksRef []);;
  cleanup (rec_cleanup rec) false.

(** [recorder.onerror]. *)
Definition onerror (rec : MediaRecorder) : M unit :=
  cleanup (rec_cleanup rec) true.

(** The callback given to [setTimeout] in [detectSilence]. *)
Definition silenceCallback (t : Timeout) : M unit :=
  when (tm_isRecording t) stopRecording.

(** Lines 210-219: the reading is below the threshold. *)
Definition silence_detected : M unit :=
  arm ← gets (fun h =>
    negb (bool_decide (is_Some (silenceTimeoutRef h))) && isRecording h);
  when arm (
    rec ← gets isRecording;
    modify (set_silenceTimeoutRef
              (Some (mkTimeout (silenceTimeout props) true rec)));;
    emit (ESetTimeout (silenceTimeout props))).

(** Lines 221-230: it is not. *)
Definition voice_detected : M unit :=
  clearSilenceTimeout;;
  start ← gets (fun h => negb (isRecording h) && isListening h);
  when start (detached startRecording).

(** Lines 209-231: the decision on one reading. *)
Definition gate (dB : number) : M unit :=
  if Num.ltb dB (silenceThreshold props) then silence_detected
  else voice_detected.

(** [detectSilence]; [dataArray] is what [getByteFrequencyData] wrote. *)
Definition detectSilence (dataArray : list Z) : M unit :=
  idle ← gets (fun h =>
    negb (bool_decide (is_Some (analyserRef h))) || negb (isListening h));
  if idle : bool then mret tt else
  match loudness dataArray with
  | None => throw TypeError
  | Some dB => gate dB
  end.

Definition startListening : M unit :=
  captured ← gets mediaRecorder;
  try_catch (
    missing ← gets session_missing;
    (if missing : bool then acquire
     else
       ctx ← gets audioContextRef;
       s ← gets streamRef;
       match ctx, s with
       | Some Suspended, Some sid =>
           emit EResumeContext;;
           modify (set_audioContextRef (Some Running));;
           emit (EConnectSource sid)
       | _, _ => mret tt
       end);;
    modify (set_isListening true))
  (fun error => cleanup captured true;; throw error).

(** [audioContextRef.current.suspend()]: settles later. *)
Definition suspend (ctx : ContextState) : ContextState :=
  match ctx with
  | Running => SuspendRequested
  | other => other
  end.

Definition stopListening : M unit :=
  rec ← gets isRecording;
  active ← gets recorder_active;
  match active with
  | Some rid => when rec (recorder_stop rid)
  | None => mret tt
  end;;
  modify (set_isListening false);;
  ctx ← gets audioContextRef;
  match ctx with
  | Some c =>
      s ← gets streamRef;
      match s with
      | None => throw TypeError
      | Some sid =>
          emit (EDisconnectSource sid);;
          emit ESuspendContext;;
          modify (set_audioContextRef (Some (suspend c)))
      end
  | None => mret tt
  end;;
  clearSilenceTimeout.

End Handlers.

(* ------------------------------------------------------------------ *)
(** ** Events *)

Inductive Event :=
(* the four operations the hook returns *)
| StartListening
| StopListening
| StartRecording
| StopRecording
(* the browser *)
| Tick (dataArray : list Z)          (* one [monitorAudio] frame *)
| TimerFired                         (* the silence timeout elapsed *)
| DataAvailable (rid : nat) (data : Blob)
| RecorderStopped (rid : nat)
| ConsumerSettled (rid : nat)
| RecorderError (rid : nat)
| SuspendSettled.

Definition set_recorder_phase (rid : nat) (p : RecorderPhase) : M unit :=
  modify (fun h =>
    set_recorders (alter (set_phase p) rid (recorders h)) h).

(** One event, run to completion. An event the browser cannot deliver in
    this state (a cleared timer, a finished recorder) changes nothing. *)
Definition handle (plat : Platform) (props : Props) (ev : Event) : M unit :=
  match ev with
  | StartListening => startListening plat
  | StopListening => stopListening
  | StartRecording => startRecording plat
  | StopRecording => stopRecording
  | Tick dataArray => detectSilence plat props dataArray
  | TimerFired =>
      t ← gets silenceTimeoutRef;
      match t with
      | Some tm =>
          when (tm_pending tm) (
            modify (set_silenceTimeoutRef
                      (Some (mkTimeout (tm_delay tm) false (tm_isRecording tm))));;
            silenceCallback tm)
      | None => mret tt
      end
  | DataAvailable rid data =>
      r ← lookup_recorder rid;
      match r with
      | Some rec =>
          match rec_phase rec with
          | Finished => mret tt
          | _ => ondataavailable data
          end
      | None => mret tt
      end
  | RecorderStopped rid =>
      r ← lookup_recorder rid;
      match r with
      | Some rec =>
          match rec_phase rec with
          | Finished => mret tt
          | _ => set_recorder_phase rid Finished;; onstop rid rec
          end
      | None => mret tt
      end
  | ConsumerSettled rid =>
      r ← lookup_recorder rid;
      waiting ← gets (fun h => bool_decide (rid ∈ awaiting h));
      match r with
      | Some rec =>
          when waiting (
            modify (fun h => set_awaiting (list_difference (awaiting h) [rid]) h);;
            onstop_resume rec)
      | None => mret tt
      end
  | RecorderError rid =>
      r ← lookup_recorder rid;
      match r with
      | Some rec =>
          match rec_phase rec with
          | Capturing => set_recorder_phase rid Finalizing;; onerror rec
          | _ => mret tt
          end
      | None => mret tt
      end
  | SuspendSettled =>
      ctx ← gets audioContextRef;
      match ctx with
      | Some SuspendRequested => modify (set_audioContextRef (Some Suspended))
      | _ => mret tt
      end
  end.

Definition step (plat : Platform) (props : Props) (ev : Event) (h : Hook) : Hook :=
  exec (handle plat props ev) h.

(** Consecutive monitoring frames under fixed props. *)
Definition ticks (plat : Platform) (props : Props) (frames : list (list Z))
    (h : Hook) : Hook :=
  fold_left (fun h dataArray => step plat props (Tick dataArray) h) frames h.

(** A run: the props may differ from one event to the next. *)
Definition run (plat : Platform) (evs : list (Props * Event)) (h : Hook) : Hook :=
  fold_left (fun h pe => step plat (fst pe) (snd pe) h) evs h.

Inductive reachable (plat : Platform) : Hook -> Prop :=
| reach_initial : reachable plat initial
| reach_step props ev h :
    reachable plat h -> reachable plat (step plat props ev h).

(* ------------------------------------------------------------------ *)
(** ** The page that owns the hook ([src/unnamed/part_001], [part_000]) *)

Module Page.

(** [VoiceSettings] of the settings sheet. *)
Record VoiceSettings := mkSettings {
  vs_silenceThreshold : Z;
  vs_silenceTimeout : Z;
  vs_smoothingTimeConstant : Q
}.

(** [environmentPresets]. *)
Definition quiet : VoiceSettings := mkSettings (-40) 800 0.85.
Definition moderate : VoiceSettings := mkSettings (-30) 1000 0.92.
Definition noisy : VoiceSettings := mkSettings (-25) 1200 0.98.

(** The object handed to [useAudioRecorder] carries three settings; the
    hook's parameter list destructures [silenceThreshold] and
    [silenceTimeout] only. *)
Definition useAudioRecorder_props (voiceSettings : VoiceSettings) : Props :=
  mkProps (Num.of_Z (vs_silenceThreshold voiceSettings))
          (vs_silenceTimeout voiceSettings).

(** The part of the page's state [processAudio] touches before its first
    request. *)
Record State := mkState {
  processingRef : bool;
  isProcessing : bool;
  error : option string
}.

Inductive Request :=
| PostSpeech (audio : Blob).         (* [fetch('/api/speech', ...)] *)

(** [processAudio] up to its first [await]: the two guards, then the
    flags and the upload. What follows the response is not modelled. *)
Definition processAudio (audioBlob : Blob) (s : State) : State * list Request :=
  if processingRef s then (s, [])
  else if (size audioBlob <? 15000)%N then (s, [])
  else (mkState true true None, [PostSpeech audioBlob]).

End Page.

(* ------------------------------------------------------------------ *)
(** ** Observations on a trace *)

Definition consumer_calls (h : Hook) : list Blob :=
  omap (fun e => match e with EConsumer b => Some b | _ => None end) (trace h).

Definition count_effect (p : Effect -> bool) (h : Hook) : nat :=
  length (filter (fun e => p e = true) (trace h)).

Definition is_getUserMedia (e : Effect) : bool :=
  match e with EGetUserMedia => true | _ => false end.

Definition is_setTimeout (e : Effect) : bool :=
  match e with ESetTimeout _ => true | _ => false end.

Definition is_recorderStop (e : Effect) : bool :=
  match e with ERecorderStop _ => true | _ => false end.

Definition is_recorderStart (e : Effect) : bool :=
  match e with ERecorderStart _ => true | _ => false end.

Definition is_release (e : Effect) : bool :=
  match e with EStopTracks _ | ECloseContext => true | _ => false end.

(** [stopListening], first statement: the recorder is asked to stop when a
    recording is in progress. *)
Definition finalize_recording (h : Hook) : Hook :=
  match recorder_active h with
  | Some rid => if isRecording h then exec (recorder_stop rid) h else h
  | None => h
  end.

(** [stopListening], what follows on a session that has its resources. *)
Definition suspend_session (sid : nat) (c : ContextState) (h : Hook) : Hook :=
  exec clearSilenceTimeout
    (set_audioContextRef (Some (suspend c))
       (set_trace (ESuspendContext :: EDisconnectSource sid :: trace h)
          (set_isListening false h))).


(** Between two states: the device and analysis handles are the same,
    nothing was released and no permission was requested. *)
Definition same_session (h h' : Hook) : Prop :=
  streamRef h' = streamRef h /\
  analyserRef h' = analyserRef h /\
  requests h' = requests h /\
  count_effect is_getUserMedia h' = count_effect is_getUserMedia h /\
  count_effect is_release h' = count_effect is_release h.

(** The stream, the context and the analyser are held together or not at
    all. *)
Definition session_whole (h : Hook) : Prop :=
  session_missing h = false \/
  (streamRef h = None /\ audioContextRef h = None /\ analyserRef h = None).

(** The gate's state as the specification names it. *)
Inductive RecordingState := Idle | Armed | Recording.

Definition recordingState (h : Hook) : RecordingState :=
  if isRecording h then Recording
  else if isListening h then Armed
  else Idle.

(** The analyser is only ever built with the constant 0.85. *)
Definition smoothing_is_default (h : Hook) : Prop :=
  forall a, analyserRef h = Some a -> smoothingTimeConstant a = 0.85%Q.

(** A property of the state that a handler keeps, however it ends. *)
Definition stable {A} (I : Hook -> Prop) (m : M A) : Prop :=
  forall h, I h -> I (snd (m h)).

(* ------------------------------------------------------------------ *)
(** ** Concrete platforms and runs used as test inputs *)

(** A browser that records every candidate type and grants the microphone. *)
Definition chrome : Platform := mkPlatform (fun _ => true) (fun _ => true).

(** The same browser with the microphone refused. *)
Definition refused : Platform := mkPlatform (fun _ => true) (fun _ => false).

(** A browser whose encoder knows none of the candidate types. *)
Definition no_codec : Platform := mkPlatform (fun _ => false) (fun _ => true).

Definition webm (n : N) : Blob := mkBlob n "audio/webm;codecs=opus".

Definition with_defaults (evs : list Event) : list (Props * Event) :=
  map (fun ev => (default_props, ev)) evs.

(** Frames of 1024 bins: every bin at 0, every bin at 255, and half of the
    bins at 51 (mean 25.5, a tenth of full scale). *)
Definition silent_frame : list Z := replicate 1024 0%Z.
Definition loud_frame : list Z := replicate 1024 255%Z.
Definition tenth_frame : list Z := replicate 512 51%Z ++ replicate 512 0%Z.

(** One recording started by hand, then [stopRecording]: the recorder is
    finalizing and nothing has been delivered. *)
Definition stopped_empty : Hook :=
  run chrome (with_defaults [StartRecording; StopRecording]) initial.

(** The same with one chunk of 100 bytes delivered before the stop. *)
Definition stopped_short : Hook :=
  run chrome
    (with_defaults [StartRecording; DataAvailable 0 (webm 100); StopRecording])
    initial.

(** A recording in progress, started by hand, with two chunks buffered. *)
Definition recording_two_chunks : Hook :=
  run chrome
    (with_defaults [StartRecording; DataAvailable 0 (webm 8000);
                    DataAvailable 0 (webm 8000)])
    initial.

(** Listening, nothing heard yet. *)
Definition listening : Hook := step chrome default_props StartListening initial.

(** One utterance, up to the moment its segment is with the consumer:
    a loud frame opens the gate, a chunk arrives, a silent frame starts the
    countdown, the countdown elapses, the recorder reports its stop. *)
Definition utterance : list Event :=
  [ StartListening; Tick loud_frame; DataAvailable 0 (webm 20000);
    Tick silent_frame; TimerFired; RecorderStopped 0 ].

(** The states along [utterance], each written with the branch of the gate
    its frame takes. *)
Definition speaking : Hook := exec (voice_detected chrome) listening.

Definition speaking_chunk : Hook :=
  step chrome default_props (DataAvailable 0 (webm 20000)) speaking.

Definition pausing : Hook :=
  exec (silence_detected default_props) speaking_chunk.

Definition finalizing : Hook := step chrome default_props TimerFired pausing.

Definition consumer_busy : Hook :=
  step chrome default_props (RecorderStopped 0) finalizing.

(** A recording in progress, started by hand, with one chunk buffered. *)
Definition recording_one_chunk : Hook :=
  run chrome (with_defaults [StartRecording; DataAvailable 0 (webm 8000)])
    initial.

(** After a full cleanup: no session, no recorder, nothing pending. *)
Definition torn_down (h : Hook) : Prop :=
  streamRef h = None /\ audioContextRef h = None /\ analyserRef h = None /\
  mediaRecorder h = None /\ isRecording h = false /\
  isProcessingRef h = false /\ silenceTimeoutRef h = None /\
  audioChunksRef h = [].

(** No empty chunk is buffered, and no empty segment reached the consumer. *)
Definition chunks_nonempty (h : Hook) : Prop :=
  Forall (fun b => (0 < size b)%N) (audioChunksRef h) /\
  Forall (fun b => (0 < size b)%N) (consumer_calls h).

(** The analyser, when there is one, is the node [acquire] configures. *)
Definition analyser_is_built (h : Hook) : Prop :=
  forall a, analyserRef h = Some a -> a = createAnalyser.

(** Every stream the platform handed out is the one held in [streamRef] or
    has had its tracks stopped. The stream of the n-th request is n. *)
Definition no_stream_leaked (plat : Platform) (h : Hook) : Prop :=
  (forall sid, streamRef h = Some sid -> (sid < requests h)%nat) /\
  forall sid, (sid < requests h)%nat -> permission plat sid = true ->
    streamRef h = Some sid \/ EStopTracks sid ∈ trace h.

(** The total number of bytes of a list of chunks. *)
Definition total_size (chunks : list Blob) : N :=
  fold_right N.add 0%N (map size chunks).

(** The data events of one recorder, in order. *)
Definition deliver_chunks (plat : Platform) (props : Props) (rid : nat)
    (chunks : list Blob) (h : Hook) : Hook :=
  fold_left (fun h b => step plat props (DataAvailable rid b) h) chunks h.

(** The frame reads below the threshold of [props]. *)
Definition silent_under (props : Props) (d : list Z) : Prop :=
  exists dB, loudness d = Some dB /\
             Num.ltb dB (silenceThreshold props) = true.

(** [no_stream_leaked], with what makes it inductive: a session that has to
    be acquired holds no stream. *)
Definition leak_inv (plat : Platform) (h : Hook) : Prop :=
  (session_missing h = true -> streamRef h = None) /\
  no_stream_leaked plat h.

(** Listening again right after a [stopListening] that cut an utterance:
    the segment of recorder 0 is with the consumer. *)
Definition restarted : Hook :=
  step chrome default_props StartListening
    (step chrome default_props (RecorderStopped 0)
       (step chrome default_props StopListening speaking_chunk)).

(** A loud frame then starts recorder 1, and the consumer's promise for
    the first segment settles. *)
Definition orphaned : Hook :=
  step chrome default_props (ConsumerSettled 0)
    (exec (voice_detected chrome) restarted).

(* ------------------------------------------------------------------ *)
(** ** Start calls suspended at [await getUserMedia]

    [handle] runs a start call through its [await getUserMedia(...)] in one
    step. Here the call stops at the await and is resumed by a later event,
    so that other events, and other start calls, come in between. *)

Inductive Caller := ByStartListening | ByStartRecording.

(** A start call suspended at the await: the request it made, who made it,
    and the [mediaRecorder] its [cleanup] has captured. *)
Record Acquisition := mkAcquisition {
  acq_request : nat;
  acq_caller : Caller;
  acq_cleanup : option nat
}.

(** Whether the event is a start call that reaches the await: the test of
    lines 91 and 266, behind the guard of line 82 in [startRecording]. *)
Definition begins (ev : Event) (h : Hook) : option Caller :=
  match ev with
  | StartListening =>
      if session_missing h then Some ByStartListening else None
  | StartRecording =>
      if isProcessingRef h || isRecording h then None
      else if session_missing h then Some ByStartRecording else None
  | _ => None
  end.

(** The call up to the await: [isProcessingRef] is set by [startRecording]
    (line 88), and the request is made. *)
Definition begin (caller : Caller) : M Acquisition :=
  captured ← gets mediaRecorder;
  match caller with
  | ByStartRecording => modify (set_isProcessingRef true)
  | ByStartListening => mret tt
  end;;
  n ← gets requests;
  modify (set_requests (S n));;
  emit EGetUserMedia;;
  mret (mkAcquisition n caller captured).

(** Lines 99-109 and 276-286: the statements that follow the await. *)
Definition session_setup (sid : nat) : M unit :=
  modify (set_streamRef (Some sid));;
  modify (set_audioContextRef (Some Running));;
  modify (set_analyserRef (Some createAnalyser));;
  emit (EConnectSource sid).

(** Lines 113-163: [startRecording] from the MIME type on. *)
Definition startRecording_tail (plat : Platform) (captured : option nat)
  : M unit :=
  mimeType ← getSupportedMimeType plat;
  s ← gets streamRef;
  match s with
  | None => throw TypeError
  | Some sid =>
      rid ← newRecorder sid mimeType captured;
      modify (set_mediaRecorder (Some rid));;
      modify (set_isRecording true);;
      modify (set_isProcessingRef false)
  end.

(** The call from the settlement of its request on, inside its [try]. *)
Definition settle (plat : Platform) (a : Acquisition) : M unit :=
  try_catch (
    (if permission plat (acq_request a)
     then session_setup (acq_request a)
     else throw NotAllowedError);;
    match acq_caller a with
    | ByStartListening => modify (set_isListening true)
    | ByStartRecording => startRecording_tail plat (acq_cleanup a)
    end)
  (fun error => cleanup (acq_cleanup a) true;; throw error).

(** The hook with the start calls that wait for their stream. *)
Record Async := mkAsync {
  hook : Hook;
  pending : list Acquisition
}.

Inductive AsyncEvent :=
| Deliver (props : Props) (ev : Event)  (* an event; a start call that
                                           reaches the await stops there *)
| Settles (k : nat).                    (* the request of the k-th waiting
                                           call is answered *)

Definition async_step (plat : Platform) (e : AsyncEvent) (s : Async) : Async :=
  match e with
  | Deliver props ev =>
      match begins ev (hook s) with
      | Some caller =>
          match begin caller (hook s) with
          | (Ok a, h) => mkAsync h (pending s ++ [a])
          | (Throw _, h) => mkAsync h (pending s)
          end
      | None => mkAsync (step plat props ev (hook s)) (pending s)
      end
  | Settles k =>
      match pending s !! k with
      | Some a => mkAsync (exec (settle plat a) (hook s)) (delete k (pending s))
      | None => s
      end
  end.

Definition async_initial : Async := mkAsync initial [].

Definition async_run (plat : Platform) (es : list AsyncEvent) (s : Async)
  : Async :=
  fold_left (fun s e => async_step plat e s) es s.

Inductive async_reachable (plat : Platform) : Async -> Prop :=
| async_reach_initial : async_reachable plat async_initial
| async_reach_step e s :
    async_reachable plat s -> async_reachable plat (async_step plat e s).

(** The runs in which no start call reaches its await while another one is
    waiting there. *)
Inductive serial (plat : Platform) : Async -> Prop :=
| serial_initial : serial plat async_initial
| serial_deliver props ev s :
    serial plat s ->
    (is_Some (begins ev (hook s)) -> pending s = []) ->
    serial plat (async_step plat (Deliver props ev) s)
| serial_settles k s :
    serial plat s -> serial plat (async_step plat (Settles k) s).

(** Every stream whose request has been answered is the one held in
    [streamRef] or has had its tracks stopped. *)
Definition streams_accounted (plat : Platform) (s : Async) : Prop :=
  (forall sid, streamRef (hook s) = Some sid ->
     (sid < requests (hook s))%nat /\ sid ∉ map acq_request (pending s)) /\
  forall sid, (sid < requests (hook s))%nat -> permission plat sid = true ->
    sid ∉ map acq_request (pending s) ->
    streamRef (hook s) = Some sid \/ EStopTracks sid ∈ trace (hook s).

(** While one start call waits: no session, and every earlier stream has
    been stopped. *)
Definition waiting_for (plat : Platform) (n : nat) (h : Hook) : Prop :=
  streamRef h = None /\ audioContextRef h = None /\ analyserRef h = None /\
  requests h = S n /\
  forall sid, (sid < n)%nat -> permission plat sid = true ->
    EStopTracks sid ∈ trace h.

Definition serial_inv (plat : Platform) (s : Async) : Prop :=
  match pending s with
  | [] => session_whole (hook s) /\ leak_inv plat (hook s)
  | [a] => waiting_for plat (acq_request a) (hook s)
  | _ => False
  end.

(** Two [startListening] calls before the first request is answered, then
    the two answers. *)
Definition overlapping_starts : list AsyncEvent :=
  [ Deliver default_props StartListening;
    Deliver default_props StartListening; Settles 0; Settles 0 ].

(** One start call at a time: listening, a recording, an encoder error. *)
Definition serial_session : list AsyncEvent :=
  [ Deliver default_props StartListening; Settles 0;
    Deliver default_props StartRecording;
    Deliver default_props (RecorderError 0) ].

(* ------------------------------------------------------------------ *)
(** ** String primitives of the language *)

Module Js.

Local Open Scope string_scope.

(** [haystack.includes(needle)]. *)
Fixpoint includes (needle haystack : string) : bool :=
  String.prefix needle haystack ||
  match haystack with
  | EmptyString => false
  | String _ rest => includes needle rest
  end.

(** A string in a boolean position: the empty string is falsy. *)
Definition truthy (s : string) : bool :=
  match s with EmptyString => false | _ => true end.

(** [value || fallback] for a string that may be missing. *)
Definition or_else (value : option string) (fallback : string) : string :=
  match value with
  | Some v => if truthy v then v else fallback
  | None => fallback
  end.

End Js.

(* ------------------------------------------------------------------ *)
(** ** The translation route ([src/unnamed/part_000], lines 159-388) *)

Module Route.

Local Open Scope string_scope.

Definition MAX_RETRIES : nat := 3.
Definition INITIAL_RETRY_DELAY : Z := 1000.

(** A thrown value: an [Error] (the SDK's errors are, and carry the HTTP
    status when there is one), or any other object. *)
Inductive JsError :=
| ErrorObject (message : string) (status : option Z)
| OtherObject (message : option string) (status : option Z).

Definition message (error : JsError) : option string :=
  match error with
  | ErrorObject m _ => Some m
  | OtherObject m _ => m
  end.

Definition status (error : JsError) : option Z :=
  match error with
  | ErrorObject _ c => c
  | OtherObject _ c => c
  end.

Inductive Settled (T : Type) :=
| Resolved (value : T)
| Rejected (error : JsError).
Arguments Resolved {T} value.
Arguments Rejected {T} error.

(** [error.message?.includes(needle)]. *)
Definition message_includes (needle : string) (error : JsError) : bool :=
  match message error with
  | Some m => Js.includes needle m
  | None => false
  end.

(** [error.status === code]. *)
Definition status_is (code : Z) (error : JsError) : bool :=
  match status error with
  | Some c => (c =? code)%Z
  | None => false
  end.

(** The condition under which [withRetry] waits and tries again. *)
Definition retryable (error : JsError) : bool :=
  message_includes "blocked" error || message_includes "network" error ||
  status_is 403 error || status_is 503 error.

(** [INITIAL_RETRY_DELAY * Math.pow(2, retryCount)]. *)
Definition retry_delay (retryCount : nat) : Z :=
  (INITIAL_RETRY_DELAY * 2 ^ Z.of_nat retryCount)%Z.

(** What a call of [withRetry] does: it waits ([Sleep]) between attempts and
    ends by returning or throwing. *)
Inductive Run (T : Type) :=
| Returned (value : T)
| Thrown (error : JsError)
| Sleep (ms : Z) (next : Run T)
| OutOfFuel.
Arguments Returned {T} value.
Arguments Thrown {T} error.
Arguments Sleep {T} ms next.
Arguments OutOfFuel {T}.

(** [withRetry(operation, retryCount)]. [operation n] is how the call of
    [operation] settles when it has been called [n] times before; the
    recursion of the source is bounded by [fuel]. *)
Fixpoint withRetry_fuel {T} (fuel : nat) (operation : nat -> Settled T)
    (called : nat) (retryCount : nat) : Run T :=
  match operation called with
  | Resolved value => Returned value
  | Rejected error =>
      if (MAX_RETRIES <=? retryCount)%nat then Thrown error
      else if retryable error then
        match fuel with
        | O => OutOfFuel
        | S fuel' =>
            Sleep (retry_delay retryCount)
              (withRetry_fuel fuel' operation (S called) (S retryCount))
        end
      else Thrown error
  end.

Definition withRetry {T} (operation : nat -> Settled T) (retryCount : nat)
  : Run T :=
  withRetry_fuel (MAX_RETRIES - retryCount) operation 0 retryCount.

(** How a run ends, the waits it made, and the number of attempts. *)
Fixpoint outcome {T} (r : Run T) : option (Settled T) :=
  match r with
  | Returned value => Some (Resolved value)
  | Thrown error => Some (Rejected error)
  | Sleep _ next => outcome next
  | OutOfFuel => None
  end.

Fixpoint delays {T} (r : Run T) : list Z :=
  match r with
  | Sleep ms next => ms :: delays next
  | _ => []
  end.

Definition retries {T} (r : Run T) : nat := length (delays r).

(** The response of the handler when the model call failed for good
    (lines 360-386): status, [error] and [details]. *)
Definition failure_response (error : JsError) : Z * string * string :=
  match error with
  | ErrorObject m _ =>
      if Js.includes "blocked" m then
        (403%Z,
         "Network connection is unstable. Please wait a moment and try again.",
         m)
      else if Js.includes "Failed to fetch" m then
        (503%Z, "Connection failed. Please check your internet connection.", m)
      else
        (500%Z, "Please check your network connection and try again.", m)
  | OtherObject _ _ =>
      (500%Z, "Please check your network connection and try again.",
       "Unknown error")
  end.

(** The model call of the handler: [withRetry] from 0, then the [catch]. *)
Definition model_call {T} (operation : nat -> Settled T)
  : option (T + Z * string * string) :=
  match outcome (withRetry operation 0) with
  | Some (Resolved stream) => Some (inl stream)
  | Some (Rejected error) => Some (inr (failure_response error))
  | None => None
  end.

(** *** The stream of the response (lines 267-338) *)

(** One step of [for await (const chunk of stream)]: a chunk with its
    [choices[0]?.delta?.content] and the reading of [performance.now()] at
    that moment, or the iteration throwing. *)
Inductive Item :=
| Chunk (content : option string) (now : Z)
| Failure (message : option string).

(** What is enqueued, by its payload. *)
Inductive SseEvent :=
| FirstTokenLatency (ms : Z)
| Content (content : string)
| TotalLatency (ms : Z)
| ErrorEvent (message : string)
| Done.

(** The local variables of [start(controller)] and what was enqueued,
    oldest first. *)
Record Pump := mkPump {
  firstChunkTime : option Z;
  accumulatedContent : string;
  isThinkingPhase : bool;
  thinkingContent : string;
  enqueued : list SseEvent
}.

Definition pump_initial : Pump := mkPump None "" false "" [].

(** [!firstChunkTime]: null, or a reading of 0. *)
Definition no_first_chunk (p : Pump) : bool :=
  match firstChunkTime p with
  | None => true
  | Some t => (t =? 0)%Z
  end.

(** The body of the loop for a chunk whose content is truthy. *)
Definition pump_content (startTime : Z) (content : string) (now : Z)
    (p : Pump) : Pump :=
  let p :=
    if no_first_chunk p then
      mkPump (Some now) (accumulatedContent p) (isThinkingPhase p)
             (thinkingContent p)
             (enqueued p ++ [FirstTokenLatency (now - startTime)])%list
    else p in
  if Js.includes "<think>" content then
    mkPump (firstChunkTime p) (accumulatedContent p) true
           (thinkingContent p) (enqueued p)
  else if isThinkingPhase p then
    if Js.includes "</think>" content then
      mkPump (firstChunkTime p) (accumulatedContent p) false "" (enqueued p)
    else
      mkPump (firstChunkTime p) (accumulatedContent p) true
             (thinkingContent p ++ content) (enqueued p)
  else
    mkPump (firstChunkTime p) (accumulatedContent p ++ content)
           (isThinkingPhase p) (thinkingContent p) (enqueued p).

(** After the loop: the content, the total latency, the end marker. *)
Definition pump_finish (startTime endTime : Z) (p : Pump) : list SseEvent :=
  (enqueued p
   ++ (if Js.truthy (accumulatedContent p)
       then [Content (accumulatedContent p)] else [])
   ++ [TotalLatency (endTime - startTime); Done])%list.

(** The [catch] of [start]: one error event, then the stream is closed. *)
Definition pump_fail (message : option string) (p : Pump) : list SseEvent :=
  (enqueued p
   ++ [ErrorEvent (match message with
                   | Some m => m
                   | None => "Stream error occurred"
                   end)])%list.

(** [start(controller)]: everything enqueued before [controller.close()]. *)
Fixpoint pump (startTime endTime : Z) (items : list Item) (p : Pump)
  : list SseEvent :=
  match items with
  | [] => pump_finish startTime endTime p
  | Failure message :: _ => pump_fail message p
  | Chunk content now :: rest =>
      pump startTime endTime rest
        match content with
        | Some c => if Js.truthy c then pump_content startTime c now p else p
        | None => p
        end
  end.

(** The loop alone, on a stream that does not throw. *)
Definition pump_loop (startTime : Z) (items : list (option string * Z))
    (p : Pump) : Pump :=
  fold_left (fun p item =>
               match fst item with
               | Some c => if Js.truthy c
                           then pump_content startTime c (snd item) p else p
               | None => p
               end) items p.

(** The contents of the chunks, concatenated. *)
Definition concat_contents (items : list (option string * Z)) : string :=
  fold_right (fun item acc =>
                match fst item with
                | Some c => (c ++ acc)%string
                | None => acc
                end) ""%string items.

(** No chunk of [items] contains the opening tag. *)
Definition tag_free (items : list (option string * Z)) : Prop :=
  Forall (fun item => match fst item with
                      | Some c => Js.includes "<think>" c = false
                      | None => True
                      end) items.

(** A chunk that closes the thinking phase: it contains the closing tag
    and not the opening one. *)
Definition closes (item : option string * Z) : bool :=
  match fst item with
  | Some c => negb (Js.includes "<think>" c) && Js.includes "</think>" c
  | None => false
  end.

Definition opens (item : option string * Z) : bool :=
  match fst item with
  | Some c => Js.includes "<think>" c
  | None => false
  end.

Definition chunks_of (items : list (option string * Z)) : list Item :=
  map (fun item => Chunk (fst item) (snd item)) items.

Definition is_content (e : SseEvent) : bool :=
  match e with Content _ => true | _ => false end.

Definition is_first_token (e : SseEvent) : bool :=
  match e with FirstTokenLatency _ => true | _ => false end.

(** A chunk that enters the body of the loop: its content is truthy. *)
Definition has_text (item : option string * Z) : bool :=
  match fst item with
  | Some c => Js.truthy c
  | None => false
  end.

(** The iteration over the model's stream throws at some point. *)
Definition throws (items : list Item) : bool :=
  existsb (fun item => match item with Failure _ => true | _ => false end)
          items.

(** What the stream ends with when the loop completes. *)
Definition completion (startTime endTime : Z) (text : string)
  : list SseEvent :=
  ((if Js.truthy text then [Content text] else [])
   ++ [TotalLatency (endTime - startTime); Done])%list.

(** The time a run of [withRetry] spent waiting. *)
Definition waited {T} (r : Run T) : Z := fold_right Z.add 0%Z (delays r).

(** *** The validation of the request (lines 204-227) *)

(** The text of the request as the language has it, a sequence of UTF-16
    code units. The code units [trim] strips: white space and line
    terminators. *)
Definition is_whitespace (unit : N) : bool :=
  ((9 <=? unit) && (unit <=? 13) || (unit =? 32) || (unit =? 160) ||
   (unit =? 5760) || (8192 <=? unit) && (unit <=? 8202) ||
   (unit =? 8232) || (unit =? 8233) || (unit =? 8239) || (unit =? 8287) ||
   (unit =? 12288) || (unit =? 65279))%N.

Fixpoint trimStart (text : list N) : list N :=
  match text with
  | unit :: rest => if is_whitespace unit then trimStart rest else text
  | [] => []
  end.

(** [text.trim()]. *)
Definition trim (text : list N) : list N :=
  rev (trimStart (rev (trimStart text))).

(** The class [[.,!?]]. *)
Definition is_punctuation (unit : N) : bool :=
  ((unit =? 46) || (unit =? 44) || (unit =? 33) || (unit =? 63))%N.

(** [/^[.,!?]+$/.test(cleanText)]. *)
Definition only_punctuation (cleanText : list N) : bool :=
  match cleanText with
  | [] => false
  | _ => forallb is_punctuation cleanText
  end.

Inductive Verdict :=
| MissingFields       (* 400, 'Missing required fields or invalid languages array' *)
| TooShort            (* 400, 'Text too short or meaningless' *)
| Valid.

(** The two checks of [POST] before the model is called; [None] is a field
    that is absent or null. *)
Definition validate {L} (text : option (list N))
    (languages : option (list L)) : Verdict :=
  match text, languages with
  | Some (unit :: rest), Some languages =>
      if negb (length languages =? 2)%nat then MissingFields
      else
        let cleanText := trim (unit :: rest) in
        if (length cleanText <? 2)%nat || only_punctuation cleanText
        then TooShort else Valid
  | _, _ => MissingFields
  end.

End Route.

(* ------------------------------------------------------------------ *)
(** ** [processAudio] of the page, whole ([src/unnamed/part_001], 35-155) *)

Module Home.

Local Open Scope string_scope.

Record Language := mkLanguage {
  code : string;
  name : string
}.

(** [Message]; [id] is the number whose digits the source stores. *)
Record Message := mkMessage {
  id : Z;
  originalText : string;
  msg_translatedText : string;
  timestamp : Z;
  sourceLang : string;
  targetLang : string
}.

(** The state of [Home] that [processAudio] reads or writes. *)
Record State := mkState {
  isProcessing : bool;
  supportedLanguages : list Language;
  error : option string;
  transcribedText : string;
  translatedText : string;
  messages : list Message;
  processingRef : bool;
  isInitialSetup : bool
}.

Definition set_isProcessing (v : bool) (s : State) : State :=
  mkState v (supportedLanguages s) (error s) (transcribedText s)
          (translatedText s) (messages s) (processingRef s) (isInitialSetup s).
Definition set_supportedLanguages (v : list Language) (s : State) : State :=
  mkState (isProcessing s) v (error s) (transcribedText s)
          (translatedText s) (messages s) (processingRef s) (isInitialSetup s).
Definition set_error (v : option string) (s : State) : State :=
  mkState (isProcessing s) (supportedLanguages s) v (transcribedText s)
          (translatedText s) (messages s) (processingRef s) (isInitialSetup s).
Definition set_transcribedText (v : string) (s : State) : State :=
  mkState (isProcessing s) (supportedLanguages s) (error s) v
          (translatedText s) (messages s) (processingRef s) (isInitialSetup s).
Definition set_translatedText (v : string) (s : State) : State :=
  mkState (isProcessing s) (supportedLanguages s) (error s)
          (transcribedText s) v (messages s) (processingRef s)
          (isInitialSetup s).
Definition set_messages (v : list Message) (s : State) : State :=
  mkState (isProcessing s) (supportedLanguages s) (error s)
          (transcribedText s) (translatedText s) v (processingRef s)
          (isInitialSetup s).
Definition set_processingRef (v : bool) (s : State) : State :=
  mkState (isProcessing s) (supportedLanguages s) (error s)
          (transcribedText s) (translatedText s) (messages s) v
          (isInitialSetup s).
Definition set_isInitialSetup (v : bool) (s : State) : State :=
  mkState (isProcessing s) (supportedLanguages s) (error s)
          (transcribedText s) (translatedText s) (messages s)
          (processingRef s) v.

(** A value thrown: an [Error] or anything else. *)
Inductive Thrown :=
| ErrorObject (message : string)
| OtherValue.

(** [await fetch(...)] followed by [await response.json()]: the response
    with its [ok] flag and its body, or one of the two throwing. *)
Inductive Fetched (A : Type) :=
| Response (ok : bool) (data : A)
| Unreachable (thrown : Thrown).
Arguments Response {A} ok data.
Arguments Unreachable {A} thrown.

(** The body of a reply of [/api/speech] and of [/api/language]. *)
Record SpeechData := mkSpeechData {
  sd_error : option string;
  sd_details : option string;
  sd_text : string;
  sd_language : string
}.

Record LanguageData := mkLanguageData {
  ld_error : option string;
  sourceLanguage : Language;
  targetLanguage : Language
}.

(** One call of [translateText]: the partial translations it reports through
    [onPartial], in order, and how its promise settles. *)
Record Translating := mkTranslating {
  partials : list string;
  result : string + Thrown
}.

(** What [processAudio] gets from outside: the two endpoints (by what is
    sent to them), [translateText], and the two readings of [Date.now()]
    taken for a message. *)
Record World := mkWorld {
  speech : Blob -> option (list Language) -> Fetched SpeechData;
  language : string -> Fetched LanguageData;
  translate : string -> list Language -> Translating;
  clock : Z * Z
}.

(** How the [try] block ends. *)
Inductive Completion :=
| Normal
| Threw (thrown : Thrown).

(** The three errors of [/api/speech] that are dropped silently. *)
Definition ignorable (error : option string) : bool :=
  match error with
  | Some e =>
      String.eqb e "Low quality speech detected" ||
      String.eqb e "No speech detected" ||
      String.eqb e "Transcription too short"
  | None => false
  end.

(** [userFriendlyError] of the setup phase. *)
Definition userFriendlyError (error : option string) : string :=
  match error with
  | Some e =>
      if Js.includes "blocked" e then
        "Network connection is unstable. Please wait a moment and try again."
      else if Js.includes "rate limit" e then
        "Too many requests. Please wait a moment before trying again."
      else "Something went wrong. Please try again."
  | None => "Something went wrong. Please try again."
  end.

(** The message of the [TypeError] of [supportedLanguages[1].code] when the
    list has no second element (wording of V8). *)
Definition undefined_code : string :=
  "Cannot read properties of undefined (reading 'code')".

(** The initial language detection phase (lines 53-102). *)
Definition setup_phase (world : World) (audioBlob : Blob) (s : State)
  : Completion * State :=
  match speech world audioBlob None with
  | Unreachable thrown => (Threw thrown, s)
  | Response ok transcriptionData =>
      if negb ok then
        if ignorable (sd_error transcriptionData) then (Normal, s)
        else
          (Threw (ErrorObject
                    (userFriendlyError (sd_error transcriptionData))), s)
      else
        let s := set_transcribedText (sd_text transcriptionData) s in
        match language world (sd_text transcriptionData) with
        | Unreachable thrown => (Threw thrown, s)
        | Response ok languageData =>
            if negb ok then
              (Threw (ErrorObject
                        (Js.or_else (ld_error languageData)
                                    "Failed to detect languages")), s)
            else
              (Normal,
               set_isInitialSetup false
                 (set_supportedLanguages
                    [sourceLanguage languageData;
                     targetLanguage languageData] s))
        end
  end.

(** The translation phase (lines 103-146). *)
Definition translation_phase (supportedLanguages : list Language)
    (world : World) (audioBlob : Blob) (s : State) : Completion * State :=
  match speech world audioBlob (Some supportedLanguages) with
  | Unreachable thrown => (Threw thrown, s)
  | Response ok transcriptionData =>
      if negb ok then
        if ignorable (sd_error transcriptionData) then (Normal, s)
        else
          (Threw (ErrorObject
                    (Js.or_else (sd_details transcriptionData)
                       (Js.or_else (sd_error transcriptionData)
                                   "Failed to transcribe audio"))), s)
      else
        let s := set_transcribedText (sd_text transcriptionData) s in
        let translating :=
          translate world (sd_text transcriptionData) supportedLanguages in
        let s :=
          fold_left (fun s partialTranslation =>
                       set_translatedText partialTranslation s)
                    (partials translating) s in
        match result translating with
        | inr thrown => (Threw thrown, s)
        | inl translation =>
            match nth_error supportedLanguages 1 with
            | None => (Threw (ErrorObject undefined_code), s)
            | Some target =>
                let newMessage :=
                  mkMessage (fst (clock world))
                            (sd_text transcriptionData) translation
                            (snd (clock world))
                            (sd_language transcriptionData) (code target) in
                (Normal, set_messages (messages s ++ [newMessage])%list s)
            end
        end
  end.

(** [processAudio(audioBlob)] to the settlement of its promise.
    [isInitialSetup] and [supportedLanguages] are the values of the render
    that created this [processAudio]; the state is the current one. *)
Definition processAudio (isInitialSetup : bool)
    (supportedLanguages : list Language) (world : World) (audioBlob : Blob)
    (s : State) : State :=
  if processingRef s then s
  else if (size audioBlob <? 15000)%N then s
  else
    let s := set_error None (set_isProcessing true (set_processingRef true s)) in
    let (completion, s) :=
      if isInitialSetup then setup_phase world audioBlob s
      else translation_phase supportedLanguages world audioBlob s in
    let s :=
      match completion with
      | Normal => s
      | Threw (ErrorObject message) => set_error (Some message) s
      | Threw OtherValue => set_error (Some "An unknown error occurred") s
      end in
    set_isProcessing false (set_processingRef false s).

(** Setup is over only with two languages chosen. *)
Definition languages_chosen (s : State) : Prop :=
  isInitialSetup s = false -> length (supportedLanguages s) = 2%nat.

(** The state of the first render. *)
Definition initial : State := mkState false [] None "" "" [] false true.

(** One call of a [processAudio] that has settled: the render it was
    created in, what the world answered, and the segment. *)
Record Call := mkCall {
  call_isInitialSetup : bool;
  call_supportedLanguages : list Language;
  call_world : World;
  call_audioBlob : Blob
}.

Definition run (calls : list Call) (s : State) : State :=
  fold_left (fun s call =>
               processAudio (call_isInitialSetup call)
                            (call_supportedLanguages call)
                            (call_world call) (call_audioBlob call) s)
            calls s.

(** The page is idle: no call in flight, no spinner. *)
Definition idle (s : State) : Prop :=
  processingRef s = false /\ isProcessing s = false.

(** A world where the speech service hears nothing. *)
Definition nothing_heard : World :=
  mkWorld (fun _ _ =>
             Response false
               (mkSpeechData (Some "No speech detected") None "" ""))
          (fun _ => Unreachable OtherValue)
          (fun _ _ => mkTranslating [] (inr OtherValue))
          (0%Z, 0%Z).

End Home.

(* ------------------------------------------------------------------ *)
(** ** Properties *)

Lemma reachable_run plat evs h :
  reachable plat h -> reachable plat (run plat evs h).
Proof.
  revert h. induction evs as [|[props ev] evs IH]; intros h Hh; cbn.
  - exact Hh.
  - apply IH. now constructor.
Qed.

(** *** Equations of the handlers under their enabling conditions *)

Lemma handle_RecorderStopped plat props rid rec h :
  recorders h !! rid = Some rec ->
  rec_phase rec <> Finished ->
  handle plat props (RecorderStopped rid) h
  = (set_recorder_phase rid Finished;; onstop rid rec) h.
Proof.
  intros Hr Hp. unfold handle, lookup_recorder, gets, mbind, M_bind.
  rewrite Hr. destruct (rec_phase rec); congruence.
Qed.

Lemma handle_RecorderError plat props rid rec h :
  recorders h !! rid = Some rec ->
  rec_phase rec = Capturing ->
  handle plat props (RecorderError rid) h
  = (set_recorder_phase rid Finalizing;; onerror rec) h.
Proof.
  intros Hr Hp. unfold handle, lookup_recorder, gets, mbind, M_bind.
  rewrite Hr, Hp. reflexivity.
Qed.

Lemma lookup_recorder_active h rid :
  recorder_active h = Some rid ->
  mediaRecorder h = Some rid /\
  exists r, recorders h !! rid = Some r /\ rec_phase r = Capturing.
Proof.
  unfold recorder_active. destruct (mediaRecorder h) as [i|]; [|discriminate].
  destruct (recorders h !! i) as [r|] eqn:Hr; [|discriminate].
  unfold rec_inactive. destruct (rec_phase r) eqn:Hp; try discriminate.
  intros [= <-]. eauto.
Qed.

Lemma recorder_stop_capturing rid r h :
  recorders h !! rid = Some r ->
  rec_phase r = Capturing ->
  recorder_stop rid h
  = (Ok tt, set_trace (ERecorderStop rid :: trace h)
              (set_recorders (<[rid := set_phase Finalizing r]> (recorders h)) h)).
Proof.
  intros Hr Hp.
  unfold recorder_stop, lookup_recorder, gets, mbind, M_bind, rec_inactive.
  rewrite Hr, Hp. reflexivity.
Qed.

Lemma stopRecording_busy h :
  isProcessingRef h = true -> stopRecording h = (Ok tt, h).
Proof.
  intros Hb. unfold stopRecording, gets, mbind, M_bind. now rewrite Hb.
Qed.

Lemma stopRecording_active h rid r :
  recorder_active h = Some rid ->
  recorders h !! rid = Some r ->
  rec_phase r = Capturing ->
  isProcessingRef h = false ->
  stopRecording h
  = (Ok tt, set_trace (ERecorderStop rid :: trace h)
              (set_recorders (<[rid := set_phase Finalizing r]> (recorders h))
                 (set_isProcessingRef true h))).
Proof.
  intros Ha Hr Hp Hb.
  unfold stopRecording, gets, modify, try_catch, mbind, M_bind.
  rewrite Hb, Ha.
  rewrite (recorder_stop_capturing rid r) by (destruct h; exact Hr || exact Hp).
  reflexivity.
Qed.

Lemma handle_RecorderStopped_finished plat props rid rec h :
  recorders h !! rid = Some rec ->
  rec_phase rec = Finished ->
  handle plat props (RecorderStopped rid) h = (Ok tt, h).
Proof.
  intros Hr Hp. unfold handle, lookup_recorder, gets, mbind, M_bind.
  rewrite Hr, Hp. reflexivity.
Qed.

(** What the stop event does to the recorders and to the consumer. *)
Lemma recorders_onstop rid rec p h :
  recorders (exec (set_recorder_phase rid p;; onstop rid rec) h)
  = alter (set_phase p) rid (recorders h).
Proof.
  destruct h as [mr isrec lis chunks busy s a t ctx recs n aw tr].
  destruct chunks, t; reflexivity.
Qed.

Lemma consumer_calls_onstop rid rec p h :
  consumer_calls (exec (set_recorder_phase rid p;; onstop rid rec) h)
  = (if (0 <? length (audioChunksRef h))%nat
     then [Blob_new (audioChunksRef h) (rec_mimeType rec)] else [])
    ++ consumer_calls h.
Proof.
  destruct h as [mr isrec lis chunks busy s a t ctx recs n aw tr].
  destruct chunks, t; reflexivity.
Qed.

(** *** Finalizing a cycle that buffered nothing *)

(** C10: when the recorder's stop event arrives and no chunk was ever
    buffered, [onRecordingComplete] is not called (no call is added, no
    handler is left waiting on it), and the partial cleanup still runs: the
    recording flag, the recorder, the chunk buffer, the processing flag and
    the silence timer are reset, while the stream, the context and the
    analyser are kept. *)
Theorem onstop_without_chunks plat props rid rec h :
  recorders h !! rid = Some rec ->
  rec_phase rec <> Finished ->
  audioChunksRef h = [] ->
  let h' := step plat props (RecorderStopped rid) h in
  consumer_calls h' = consumer_calls h /\
  awaiting h' = awaiting h /\
  isRecording h' = false /\
  audioChunksRef h' = [] /\
  mediaRecorder h' = None /\
  isProcessingRef h' = false /\
  silenceTimeoutRef h' = None /\
  streamRef h' = streamRef h /\
  audioContextRef h' = audioContextRef h /\
  analyserRef h' = analyserRef h /\
  isListening h' = isListening h.
Proof.
  intros Hr Hp Hc h'. subst h'. unfold step, exec.
  rewrite (handle_RecorderStopped _ _ _ _ _ Hr Hp). clear Hr Hp.
  destruct h as [mr isrec lis chunks busy s a t ctx recs n aw tr].
  cbn in Hc. subst chunks.
  destruct t; lazy; repeat split; reflexivity.
Qed.

Lemma onstop_without_chunks_witness :
  recorders stopped_empty !! 0%nat
    = Some (mkRecorder Finalizing 0 "audio/webm;codecs=opus" 128000 500 None) /\
  audioChunksRef stopped_empty = [] /\
  isRecording stopped_empty = true /\
  isRecording (step chrome default_props (RecorderStopped 0) stopped_empty) = false /\
  consumer_calls (step chrome default_props (RecorderStopped 0) stopped_empty) = [].
Proof.
  split; [reflexivity|]. split; [reflexivity|]. split; [reflexivity|].
  pose proof (onstop_without_chunks chrome default_props 0
                (mkRecorder Finalizing 0 "audio/webm;codecs=opus" 128000 500 None)
                stopped_empty eq_refl ltac:(discriminate) eq_refl) as H.
  cbv zeta in H. destruct H as (Hc & _ & Hrec & _). split.
  - exact Hrec.
  - rewrite Hc. reflexivity.
Defined.

(** *** Short segments *)

Lemma processAudio_short audioBlob s :
  (size audioBlob < 15000)%N -> Page.processAudio audioBlob s = (s, []).
Proof.
  intros Hlt. unfold Page.processAudio.
  destruct (Page.processingRef s); [reflexivity|].
  apply N.ltb_lt in Hlt. now rewrite Hlt.
Qed.

(** C1, as stated, fails: a stopped cycle that buffered a single chunk of
    100 bytes (below 15000) has [onRecordingComplete] called with it. *)
Lemma short_segment_reaches_callback :
  audioChunksRef stopped_short = [webm 100] /\
  (size (Blob_new (audioChunksRef stopped_short) "audio/webm;codecs=opus") < 15000)%N /\
  consumer_calls stopped_short = [] /\
  consumer_calls (step chrome default_props (RecorderStopped 0) stopped_short)
    = [webm 100].
Proof. repeat split; reflexivity. Qed.

(** C1, amended: for every cycle whose finalized segment is below 15000
    bytes, the hook does not filter by size (the segment is handed to
    [onRecordingComplete] exactly when at least one chunk was buffered), and
    it is the callback, [processAudio], that drops it silently: it returns
    at its size guard with the page state unchanged and no request made. *)
Theorem short_segment_dropped_by_processAudio plat props rid rec h :
  recorders h !! rid = Some rec ->
  rec_phase rec <> Finished ->
  let segment := Blob_new (audioChunksRef h) (rec_mimeType rec) in
  (size segment < 15000)%N ->
  let h' := step plat props (RecorderStopped rid) h in
  consumer_calls h'
    = (if (0 <? length (audioChunksRef h))%nat then [segment] else [])
      ++ consumer_calls h /\
  forall s, Page.processAudio segment s = (s, []).
Proof.
  intros Hr Hp segment Hlt h'. split.
  - subst h' segment. unfold step.
    unfold exec at 1. rewrite (handle_RecorderStopped _ _ _ _ _ Hr Hp).
    apply consumer_calls_onstop.
  - intros s. now apply processAudio_short.
Qed.

Lemma short_segment_dropped_by_processAudio_witness :
  (size (Blob_new (audioChunksRef stopped_short) "audio/webm;codecs=opus") < 15000)%N /\
  consumer_calls (step chrome default_props (RecorderStopped 0) stopped_short)
    = [webm 100] /\
  Page.processAudio (webm 100) (Page.mkState false false None)
    = (Page.mkState false false None, []).
Proof.
  split; [reflexivity|].
  pose proof (short_segment_dropped_by_processAudio chrome default_props 0
                (mkRecorder Finalizing 0 "audio/webm;codecs=opus" 128000 500 None)
                stopped_short eq_refl ltac:(discriminate) eq_refl) as H.
  cbv zeta in H. destruct H as [Hc Hp]. split.
  - rewrite Hc. reflexivity.
  - exact (Hp (Page.mkState false false None)).
Defined.

(** *** Stopping twice *)

Lemma stopRecording_inactive h :
  recorder_active h = None ->
  isProcessingRef h = false ->
  stopRecording h = cleanup (mediaRecorder h) false h.
Proof.
  intros Ha Hb. unfold stopRecording, gets, mbind, M_bind. cbv beta.
  now rewrite Hb, Ha.
Qed.

Lemma stopRecording_idempotent h :
  exec stopRecording (exec stopRecording h) = exec stopRecording h.
Proof.
  destruct (isProcessingRef h) eqn:Hb.
  { unfold exec. rewrite (stopRecording_busy h Hb). cbn [snd].
    now rewrite (stopRecording_busy h Hb). }
  destruct (recorder_active h) as [rid|] eqn:Ha.
  - destruct (lookup_recorder_active _ _ Ha) as (_ & r & Hr & Hp).
    unfold exec. rewrite (stopRecording_active h rid r) by assumption.
    cbn [snd]. now rewrite stopRecording_busy.
  - unfold exec. rewrite (stopRecording_inactive h Ha Hb).
    destruct h as [mr isrec lis chunks busy s a t ctx recs n aw tr].
    destruct t; reflexivity.
Qed.

(** C6: with a recorder capturing and no request in flight, the second
    [stopRecording] leaves the state (and the trace) exactly as the first
    one did: one [stop()] reaches the recorder, no consumer call is made by
    either, the stop event that follows makes at most one consumer call, and
    the finished recorder cannot deliver a second stop event. *)
Theorem stopRecording_twice plat props h rid :
  recorder_active h = Some rid ->
  isProcessingRef h = false ->
  let h1 := step plat props StopRecording h in
  let h2 := step plat props StopRecording h1 in
  let h3 := step plat props (RecorderStopped rid) h2 in
  h2 = h1 /\
  count_effect is_recorderStop h2 = S (count_effect is_recorderStop h) /\
  consumer_calls h2 = consumer_calls h /\
  length (consumer_calls h3) <= S (length (consumer_calls h)) /\
  step plat props (RecorderStopped rid) h3 = h3.
Proof.
  intros Ha Hb h1 h2 h3.
  assert (E21 : h2 = h1) by apply stopRecording_idempotent.
  destruct (lookup_recorder_active _ _ Ha) as (Hm & r & Hr & Hp).
  assert (Hlt : rid < length (recorders h)) by (eapply lookup_lt_Some; eauto).
  assert (E1 : h1 = set_trace (ERecorderStop rid :: trace h)
                 (set_recorders (<[rid := set_phase Finalizing r]> (recorders h))
                    (set_isProcessingRef true h))).
  { subst h1. unfold step, exec, handle.
    now rewrite (stopRecording_active h rid r). }
  assert (Hr1 : recorders h1 !! rid = Some (set_phase Finalizing r)).
  { rewrite E1. cbn. now apply list_lookup_insert_eq. }
  assert (Hc1 : consumer_calls h1 = consumer_calls h) by (now rewrite E1).
  assert (E3 : h3 = exec (set_recorder_phase rid Finished;;
                          onstop rid (set_phase Finalizing r)) h1).
  { subst h3. rewrite E21. unfold step, exec.
    now rewrite (handle_RecorderStopped _ _ _ _ _ Hr1). }
  split; [exact E21|]. rewrite E21. split; [now rewrite E1|].
  split; [exact Hc1|]. split.
  - rewrite E3, consumer_calls_onstop, Hc1.
    destruct (0 <? length (audioChunksRef h1))%nat; cbn; lia.
  - unfold step, exec.
    rewrite (handle_RecorderStopped_finished _ _ rid
               (set_phase Finished (set_phase Finalizing r))); try reflexivity.
    rewrite E3, recorders_onstop, list_lookup_alter_eq, Hr1. reflexivity.
Qed.

Lemma stopRecording_twice_witness :
  recorder_active recording_two_chunks = Some 0%nat /\
  isProcessingRef recording_two_chunks = false /\
  let h2 := step chrome default_props StopRecording
              (step chrome default_props StopRecording recording_two_chunks) in
  h2 = step chrome default_props StopRecording recording_two_chunks /\
  consumer_calls (step chrome default_props (RecorderStopped 0) h2)
    = [webm 16000].
Proof.
  split; [reflexivity|]. split; [reflexivity|].
  pose proof (stopRecording_twice chrome default_props recording_two_chunks 0
                eq_refl eq_refl) as H.
  cbv zeta in H. destruct H as (E & _).
  split; [exact E | reflexivity].
Defined.

(** *** An error of the encoder *)

(** C8, as stated, fails in its last part: a refused microphone makes
    [startListening] throw to its caller, whereas the recorder's error
    handler, run on a recording in progress, tears the session down and
    throws nothing: the hook has no other way to tell its caller. *)
Lemma encoder_error_is_not_raised :
  thrown (startListening refused) initial = Some NotAllowedError /\
  thrown (handle chrome default_props (RecorderError 0)) recording_one_chunk
    = None /\
  streamRef (step chrome default_props (RecorderError 0) recording_one_chunk)
    = None.
Proof. repeat split; reflexivity. Qed.

(** C8, amended: an encoder error during capture tears the whole session
    down (the tracks of the stream are stopped, the context is closed, and
    stream, context, analyser, recorder and silence timer are cleared), the
    buffered chunks are dropped without any call of the consumer, and the
    error is not raised to the caller: the handler returns normally. *)
Theorem encoder_error_teardown plat props rid rec h :
  recorders h !! rid = Some rec ->
  rec_phase rec = Capturing ->
  let h' := step plat props (RecorderError rid) h in
  streamRef h' = None /\
  audioContextRef h' = None /\
  analyserRef h' = None /\
  mediaRecorder h' = None /\
  silenceTimeoutRef h' = None /\
  isRecording h' = false /\
  isProcessingRef h' = false /\
  audioChunksRef h' = [] /\
  consumer_calls h' = consumer_calls h /\
  awaiting h' = awaiting h /\
  (forall sid, streamRef h = Some sid -> EStopTracks sid ∈ trace h') /\
  (is_Some (audioContextRef h) -> ECloseContext ∈ trace h') /\
  thrown (handle plat props (RecorderError rid)) h = None.
Proof.
  intros Hr Hp h'. subst h'. unfold step, exec, thrown.
  rewrite (handle_RecorderError plat props rid rec h Hr Hp).
  clear Hr Hp.
  destruct h as [mr isrec lis chunks busy s a t ctx recs n aw tr].
  unfold onerror.
  destruct (rec_cleanup rec) as [cap|];
    [destruct (alter (set_phase Finalizing) rid recs !! cap) eqn:E|];
    destruct t, ctx, s.
  all: try (lazy in E; lazy -[elem_of]; rewrite E).
  all: lazy -[elem_of]; repeat split; try reflexivity.
  all: try (intros sid [= <-]); try (intros [? [=]]); try intros _.
  all: set_solver.
Qed.

Lemma encoder_error_teardown_witness :
  recorders recording_one_chunk !! 0%nat
    = Some (mkRecorder Capturing 0 "audio/webm;codecs=opus" 128000 500 None) /\
  audioChunksRef recording_one_chunk = [webm 8000] /\
  let h' := step chrome default_props (RecorderError 0) recording_one_chunk in
  streamRef h' = None /\ audioChunksRef h' = [] /\ consumer_calls h' = [].
Proof.
  split; [reflexivity|]. split; [reflexivity|].
  pose proof (encoder_error_teardown chrome default_props 0
                (mkRecorder Capturing 0 "audio/webm;codecs=opus" 128000 500 None)
                recording_one_chunk eq_refl eq_refl) as H.
  cbv zeta in H. destruct H as (Hs & _ & _ & _ & _ & _ & _ & Hc & Hk & _).
  cbv zeta. split; [exact Hs|]. split; [exact Hc|]. rewrite Hk. reflexivity.
Defined.

(** *** Properties kept by every handler *)

Section Stable.

Context (I : Hook -> Prop).

Lemma stable_ret {A} (a : A) : stable I (mret a).
Proof. intros h Hh. exact Hh. Qed.

Lemma stable_bind {A B} (m : M A) (k : A -> M B) :
  stable I m -> (forall a, stable I (k a)) -> stable I (m ≫= k).
Proof.
  intros Hm Hk h Hh. unfold mbind, M_bind.
  specialize (Hm h Hh). destruct (m h) as [[a|e] h']; cbn in *.
  - now apply Hk.
  - exact Hm.
Qed.

Lemma stable_gets {A} (f : Hook -> A) : stable I (gets f).
Proof. intros h Hh. exact Hh. Qed.

Lemma stable_throw {A} (e : Error) : stable I (throw (A:=A) e).
Proof. intros h Hh. exact Hh. Qed.

Lemma stable_modify (f : Hook -> Hook) :
  (forall h, I h -> I (f h)) -> stable I (modify f).
Proof. intros Hf h Hh. now apply Hf. Qed.

Lemma stable_emit (e : Effect) :
  (forall h, I h -> I (set_trace (e :: trace h) h)) -> stable I (emit e).
Proof. intros Hf. now apply stable_modify. Qed.

Lemma stable_try_catch {A} (m : M A) (handler : Error -> M A) :
  stable I m -> (forall e, stable I (handler e)) ->
  stable I (try_catch m handler).
Proof.
  intros Hm Hk h Hh. unfold try_catch.
  specialize (Hm h Hh). destruct (m h) as [[a|e] h']; cbn in *.
  - exact Hm.
  - now apply Hk.
Qed.

Lemma stable_detached (m : M unit) : stable I m -> stable I (detached m).
Proof. intros Hm h Hh. now apply Hm. Qed.

Lemma stable_when (b : bool) (m : M unit) : stable I m -> stable I (when b m).
Proof. intros Hm. destruct b; [exact Hm | apply stable_ret]. Qed.

End Stable.

(** Splits a [stable] goal along the structure of the handler; what is left
    are the field updates and the emitted effects. *)
Ltac stable_step :=
  lazymatch goal with
  | |- stable _ (mret _) => apply stable_ret
  | |- stable _ (_ ≫= _) => apply stable_bind; [|intros ?]
  | |- stable _ (gets _) => apply stable_gets
  | |- stable _ (throw _) => apply stable_throw
  | |- stable _ (try_catch _ _) => apply stable_try_catch; [|intros ?]
  | |- stable _ (detached _) => apply stable_detached
  | |- stable _ (when _ _) => apply stable_when
  | |- stable _ (match ?x with _ => _ end) => destruct x
  | |- stable _ (emit _) => apply stable_emit; intros ? ?
  | |- stable _ (modify _) => apply stable_modify; intros ? ?
  end.

Ltac unfold_handlers :=
  unfold handle, startListening, stopListening, startRecording, stopRecording,
    detectSilence, gate, silence_detected, voice_detected, silenceCallback, onstop, onstop_resume, onerror,
    ondataavailable, cleanup, clearSilenceTimeout, recorder_stop, newRecorder,
    acquire, getUserMedia, getSupportedMimeType, lookup_recorder,
    set_recorder_phase.

Ltac stable_split := repeat (progress unfold_handlers || stable_step).

Lemma isListening_handle plat props ev v :
  ev <> StartListening -> ev <> StopListening ->
  stable (fun h => isListening h = v) (handle plat props ev).
Proof.
  intros H1 H2. destruct ev; try congruence; clear H1 H2.
  all: stable_split; cbn; assumption.
Qed.

(** No handler but the gate's silent branch schedules a timeout. *)
Lemma setTimeout_startRecording plat n :
  stable (fun h => count_effect is_setTimeout h = n) (startRecording plat).
Proof. stable_split; cbn; assumption. Qed.

Lemma smoothing_handle plat props ev :
  stable smoothing_is_default (handle plat props ev).
Proof.
  unfold smoothing_is_default.
  destruct ev; stable_split; cbn; try assumption.
  all: intros ? [= <-] || intros ? [=]; reflexivity.
Qed.

Lemma smoothing_reachable plat h :
  reachable plat h -> smoothing_is_default h.
Proof.
  induction 1 as [|props ev h _ IH].
  - intros a [=].
  - now apply smoothing_handle.
Qed.

(** *** Recording and listening *)

(** C9, as stated, fails: one direct [startRecording] on the fresh hook is a
    reachable state that records without listening. *)
Lemma recording_without_listening :
  reachable chrome (step chrome default_props StartRecording initial) /\
  isRecording (step chrome default_props StartRecording initial) = true /\
  isListening (step chrome default_props StartRecording initial) = false.
Proof.
  split; [|split; reflexivity].
  apply reach_step, reach_initial.
Qed.

Lemma detectSilence_not_listening plat props dataArray h :
  isListening h = false ->
  detectSilence plat props dataArray h = (Ok tt, h).
Proof.
  intros Hl. unfold detectSilence, gets, mbind, M_bind. cbv beta.
  rewrite Hl, orb_true_r. reflexivity.
Qed.

Lemma isRecording_off_handle plat props ev :
  ev <> StartRecording -> (forall d, ev <> Tick d) ->
  stable (fun h => isRecording h = false) (handle plat props ev).
Proof.
  intros H1 H2. destruct ev; try congruence; try (now destruct (H2 dataArray)).
  all: clear H1 H2; stable_split; cbn; (assumption || reflexivity).
Qed.

(** C9, amended: it is the gate that never records without listening.
    [isRecording] is turned on only by a direct [startRecording] or by a
    monitoring frame, and a frame does so only while the hook is listening,
    before and after it: a frame changes nothing while [isListening] is
    false and no frame changes [isListening]. *)
Theorem gate_records_only_while_listening plat props ev h :
  isRecording h = false ->
  isRecording (step plat props ev h) = true ->
  ev = StartRecording \/
  exists dataArray,
    ev = Tick dataArray /\
    isListening h = true /\
    isListening (step plat props ev h) = true /\
    forall h0, isListening h0 = false -> step plat props ev h0 = h0.
Proof.
  intros Hoff Hon.
  assert (Hother : ev <> StartRecording -> (forall d, ev <> Tick d) -> False).
  { intros H1 H2.
    pose proof (isRecording_off_handle plat props ev H1 H2 h Hoff) as Hkeep.
    unfold step, exec in Hon. congruence. }
  destruct ev as [| | | |d| | | | | |];
    try (exfalso; apply Hother; [discriminate | intro; discriminate]).
  { now left. }
  right. exists d. split; [reflexivity|].
  assert (Hkeep : isListening (step plat props (Tick d) h) = isListening h).
  { apply (isListening_handle plat props (Tick d) (isListening h));
      [discriminate | discriminate | reflexivity]. }
  assert (Hidle : forall h0, isListening h0 = false ->
                             step plat props (Tick d) h0 = h0).
  { intros h0 Hl. unfold step, exec, handle.
    now rewrite detectSilence_not_listening. }
  rewrite Hkeep.
  destruct (isListening h) eqn:Hl; [auto|].
  rewrite (Hidle h Hl) in Hon. congruence.
Qed.

(** *** The smoothing constant *)

(** C5, evaluated: with the Coffee Shop preset (smoothing 0.92) the page
    hands its settings to the hook, the first [startListening] builds the
    analyser, and the analyser's smoothing constant is 0.85, not 0.92. *)
Theorem smoothing_setting_is_dropped :
  let props := Page.useAudioRecorder_props Page.moderate in
  analyserRef (step chrome props StartListening initial)
    = Some createAnalyser /\
  smoothingTimeConstant createAnalyser = 0.85%Q /\
  Page.vs_smoothingTimeConstant Page.moderate = 0.92%Q /\
  ~ (0.85 == 0.92)%Q.
Proof. repeat split. intros H. discriminate H. Qed.

(** *** Numbers and the loudness estimate *)

Lemma ltb_irrefl (x : number) : Num.ltb x x = false.
Proof.
  destruct x as [| | |x]; try reflexivity. cbn.
  destruct (Rlt_dec x x) as [H|_]; [|reflexivity].
  now apply Rlt_irrefl in H.
Qed.

Lemma ltb_geb (x t : number) :
  x <> Num.NaN -> t <> Num.NaN -> Num.ltb x t = negb (Num.geb x t).
Proof.
  intros Hx Ht. destruct x as [| | |x], t as [| | |t]; try congruence;
    try reflexivity.
  cbn. destruct (Rlt_dec x t), (Rge_dec x t); try reflexivity; lra.
Qed.

Lemma ln10_pos : (0 < ln 10)%R.
Proof. rewrite <- ln_1. apply ln_increasing; lra. Qed.

Lemma decibels_zero : decibels 0 = Num.NegInf.
Proof.
  unfold decibels, Num.log10.
  destruct (Rlt_dec 0 (0 / 255)) as [H|_]; [lra|].
  destruct (Req_dec_T (0 / 255) 0) as [_|H]; [reflexivity | lra].
Qed.

Lemma decibels_pos (avg : R) :
  (0 < avg)%R -> decibels avg = Num.Fin (20 * (ln (avg / 255) / ln 10)).
Proof.
  intros Hpos. unfold decibels, Num.log10.
  destruct (Rlt_dec 0 (avg / 255)) as [_|H]; [reflexivity|].
  exfalso. apply H. apply Rdiv_lt_0_compat; lra.
Qed.

Lemma decibels_le_0 (avg : R) :
  (0 < avg <= 255)%R -> (20 * (ln (avg / 255) / ln 10) <= 0)%R.
Proof.
  intros [Hpos Hle].
  assert (Hln : (ln (avg / 255) <= 0)%R).
  { assert (Hq : (0 < avg / 255)%R) by (apply Rdiv_lt_0_compat; lra).
    destruct (Req_dec_T (avg / 255) 1) as [->|Hne]; [rewrite ln_1; lra|].
    rewrite <- ln_1. apply Rlt_le, ln_increasing; lra. }
  pose proof ln10_pos as H10.
  assert (Hq : (ln (avg / 255) / ln 10 <= 0)%R).
  { unfold Rdiv. rewrite <- (Rmult_0_l (/ ln 10)).
    apply Rmult_le_compat_r; [|exact Hln].
    apply Rlt_le, Rinv_0_lt_compat, H10. }
  lra.
Qed.

Lemma fold_left_add_bounds (rest : list Z) (a : Z) :
  Forall (fun b => (0 <= b <= 255)%Z) rest ->
  (a <= fold_left Z.add rest a <= a + 255 * Z.of_nat (length rest))%Z.
Proof.
  intros Hall. revert a. induction Hall as [|b rest Hb _ IH]; intros a; cbn.
  - lia.
  - specialize (IH (a + b)%Z). lia.
Qed.

Lemma reduce_add_bounds (dataArray : list Z) :
  Forall (fun b => (0 <= b <= 255)%Z) dataArray ->
  dataArray <> [] ->
  exists sum, reduce_add dataArray = Some sum /\
    (0 <= sum <= 255 * Z.of_nat (length dataArray))%Z.
Proof.
  intros Hall Hne. destruct dataArray as [|a rest]; [congruence|].
  apply Forall_cons in Hall as [Ha Hrest].
  exists (fold_left Z.add rest a). split; [reflexivity|].
  pose proof (fold_left_add_bounds rest a Hrest) as Hb.
  cbn [length]. lia.
Qed.

Lemma average_bounds (sum : Z) (len : nat) :
  (0 < len)%nat ->
  (0 < sum <= 255 * Z.of_nat len)%Z ->
  (0 < average sum len <= 255)%R.
Proof.
  intros Hlen [Hpos Hle]. unfold average.
  assert (Hl : (0 < INR len)%R) by (apply lt_0_INR; lia).
  split.
  - apply Rdiv_lt_0_compat; [apply IZR_lt; lia | exact Hl].
  - apply (Rmult_le_reg_r (INR len)); [exact Hl|].
    unfold Rdiv. rewrite Rmult_assoc, Rinv_l, Rmult_1_r by lra.
    rewrite INR_IZR_INZ, <- mult_IZR. apply IZR_le. lia.
Qed.

Lemma average_zero (len : nat) : average 0 len = 0%R.
Proof. unfold average. lra. Qed.

Lemma byte_frame_replicate (b : Z) :
  (0 <= b <= 255)%Z -> byte_frame createAnalyser (replicate 1024 b).
Proof.
  intros Hb. split.
  - rewrite length_replicate. reflexivity.
  - now apply Forall_replicate.
Qed.

Lemma loudness_of_sum (dataArray : list Z) (sum : Z) (len : Z) :
  reduce_add dataArray = Some sum ->
  Z.of_nat (length dataArray) = len ->
  loudness dataArray = Some (decibels (IZR sum / IZR len)).
Proof.
  intros Hs Hl. unfold loudness. rewrite Hs. unfold average.
  now rewrite INR_IZR_INZ, Hl.
Qed.

Lemma loudness_silent : loudness silent_frame = Some Num.NegInf.
Proof.
  rewrite (loudness_of_sum silent_frame 0 1024) by (vm_compute; reflexivity).
  replace (0 / 1024)%R with 0%R by lra. now rewrite decibels_zero.
Qed.

Lemma loudness_loud : loudness loud_frame = Some (Num.Fin 0).
Proof.
  rewrite (loudness_of_sum loud_frame 261120 1024) by (vm_compute; reflexivity).
  rewrite decibels_pos by lra.
  replace (261120 / 1024 / 255)%R with 1%R by lra.
  rewrite ln_1. do 2 f_equal. lra.
Qed.

Lemma loudness_tenth : loudness tenth_frame = Some (Num.Fin (-20)).
Proof.
  rewrite (loudness_of_sum tenth_frame 26112 1024) by (vm_compute; reflexivity).
  rewrite decibels_pos by lra.
  replace (26112 / 1024 / 255)%R with (/ 10)%R by lra.
  rewrite ln_Rinv by lra. do 2 f_equal.
  pose proof ln10_pos. field. lra.
Qed.

(** C4, as stated, fails: for the frame with every bin at 0 the estimate is
    [-Infinity]; it is not clamped to -90 and is no value of [-90, 0]. *)
Lemma silent_frame_is_not_clamped :
  byte_frame createAnalyser silent_frame /\
  loudness silent_frame = Some Num.NegInf /\
  forall x : R, loudness silent_frame <> Some (Num.Fin x).
Proof.
  split; [apply byte_frame_replicate; lia|].
  split; [exact loudness_silent|].
  intros x. rewrite loudness_silent. discriminate.
Qed.

(** C4, amended: for every frame of 1024 unsigned bytes the estimate is
    [20 * log10(mean / 255)] with no clamp. When the mean is 0 it is
    [-Infinity], which is below every finite threshold; otherwise it is a
    finite value, at most 0. It is never NaN. *)
Theorem loudness_is_unclamped_logarithm (dataArray : list Z) :
  byte_frame createAnalyser dataArray ->
  exists sum : Z,
    reduce_add dataArray = Some sum /\
    (0 <= sum)%Z /\
    loudness dataArray = Some (decibels (average sum (length dataArray))) /\
    (sum = 0%Z ->
     loudness dataArray = Some Num.NegInf /\
     forall t : R, Num.ltb Num.NegInf (Num.Fin t) = true) /\
    ((0 < sum)%Z ->
     exists x : R,
       loudness dataArray = Some (Num.Fin x) /\
       x = (20 * (ln (average sum (length dataArray) / 255) / ln 10))%R /\
       (x <= 0)%R).
Proof.
  intros [Hlen Hall].
  assert (Hne : dataArray <> []).
  { intros ->. discriminate Hlen. }
  assert (Hpos : (0 < length dataArray)%nat).
  { destruct dataArray; [congruence | cbn; lia]. }
  destruct (reduce_add_bounds dataArray Hall Hne) as (sum & Hs & H0 & Hmax).
  exists sum. split; [exact Hs|]. split; [exact H0|].
  assert (Hl : loudness dataArray
               = Some (decibels (average sum (length dataArray)))).
  { unfold loudness. now rewrite Hs. }
  split; [exact Hl|]. split.
  - intros ->. rewrite Hl, average_zero, decibels_zero. split; reflexivity.
  - intros Hsum.
    pose proof (average_bounds sum (length dataArray) Hpos (conj Hsum Hmax))
      as Hb.
    eexists. split; [|split; [reflexivity|]].
    + rewrite Hl. now rewrite decibels_pos by apply Hb.
    + now apply decibels_le_0.
Qed.

Lemma loudness_is_unclamped_logarithm_witness :
  byte_frame createAnalyser loud_frame /\
  exists sum : Z,
    reduce_add loud_frame = Some sum /\
    (0 <= sum)%Z /\
    loudness loud_frame = Some (decibels (average sum (length loud_frame))).
Proof.
  assert (Hb : byte_frame createAnalyser loud_frame)
    by (apply byte_frame_replicate; lia).
  split; [exact Hb|].
  destruct (loudness_is_unclamped_logarithm loud_frame Hb)
    as (sum & Hs & H0 & Hl & _).
  exists sum. auto.
Defined.

(** *** The gate on one frame *)

Lemma detectSilence_gate plat props dataArray dB h :
  is_Some (analyserRef h) ->
  isListening h = true ->
  loudness dataArray = Some dB ->
  detectSilence plat props dataArray h = gate plat props dB h.
Proof.
  intros [a Ha] Hl Hd. unfold detectSilence, gets, mbind, M_bind. cbv beta.
  rewrite Ha, Hl, Hd. reflexivity.
Qed.

Lemma detectSilence_no_analyser plat props dataArray h :
  analyserRef h = None ->
  detectSilence plat props dataArray h = (Ok tt, h).
Proof.
  intros Ha. unfold detectSilence, gets, mbind, M_bind. cbv beta.
  rewrite Ha. reflexivity.
Qed.

Lemma gate_voice plat props dB h :
  Num.ltb dB (silenceThreshold props) = false ->
  gate plat props dB h = voice_detected plat h.
Proof. intros Hv. unfold gate. now rewrite Hv. Qed.

Lemma gate_silence plat props dB h :
  Num.ltb dB (silenceThreshold props) = true ->
  gate plat props dB h = silence_detected props h.
Proof. intros Hv. unfold gate. now rewrite Hv. Qed.

Lemma voice_detected_no_timeout plat n :
  stable (fun h => count_effect is_setTimeout h = n) (voice_detected plat).
Proof. stable_split; cbn; assumption. Qed.

Lemma voice_detected_keeps_no_timer plat :
  stable (fun h => silenceTimeoutRef h = None) (voice_detected plat).
Proof. stable_split; cbn; (assumption || reflexivity). Qed.

Lemma tick_at_threshold plat props dataArray (I : Hook -> Prop) :
  loudness dataArray = Some (silenceThreshold props) ->
  stable I (voice_detected plat) ->
  stable I (handle plat props (Tick dataArray)).
Proof.
  intros Hd Hv h Hh. cbn [handle].
  destruct (analyserRef h) as [a|] eqn:Ha;
    [|now rewrite detectSilence_no_analyser].
  destruct (isListening h) eqn:Hl;
    [|now rewrite detectSilence_not_listening].
  rewrite (detectSilence_gate plat props dataArray (silenceThreshold props))
    by (rewrite ?Ha; eauto).
  rewrite gate_voice by apply ltb_irrefl.
  now apply Hv.
Qed.

Lemma ticks_cons plat props d frames h :
  ticks plat props (d :: frames) h
  = ticks plat props frames (step plat props (Tick d) h).
Proof. reflexivity. Qed.

(** *** The gate as a state machine *)

Lemma step_Tick_voice plat props dataArray dB h :
  is_Some (analyserRef h) ->
  isListening h = true ->
  loudness dataArray = Some dB ->
  Num.ltb dB (silenceThreshold props) = false ->
  step plat props (Tick dataArray) h = exec (voice_detected plat) h.
Proof.
  intros Ha Hl Hd Hv. unfold step, exec, handle.
  now rewrite (detectSilence_gate plat props dataArray dB), gate_voice.
Qed.

Lemma step_Tick_silence plat props dataArray dB h :
  is_Some (analyserRef h) ->
  isListening h = true ->
  loudness dataArray = Some dB ->
  Num.ltb dB (silenceThreshold props) = true ->
  step plat props (Tick dataArray) h = exec (silence_detected props) h.
Proof.
  intros Ha Hl Hd Hv. unfold step, exec, handle.
  now rewrite (detectSilence_gate plat props dataArray dB), gate_silence.
Qed.

Lemma startRecording_ok plat h sid mimeType :
  isProcessingRef h = false ->
  isRecording h = false ->
  session_missing h = false ->
  streamRef h = Some sid ->
  List.find (isTypeSupported plat) types = Some mimeType ->
  startRecording plat h
  = (Ok tt,
     set_isProcessingRef false
       (set_isRecording true
          (set_mediaRecorder (Some (length (recorders h)))
             (set_trace (ERecorderStart (length (recorders h)) :: trace h)
                (set_recorders
                   (recorders h ++
                    [mkRecorder Capturing sid mimeType 128000 500
                                (mediaRecorder h)])
                   (set_isProcessingRef true h)))))).
Proof.
  intros Hb Hr Hm Hs Hf.
  destruct h as [mr isrec lis chunks busy s a t ctx recs n aw tr].
  cbn in Hb, Hr, Hs. subst busy isrec s.
  unfold session_missing in Hm. cbn in Hm.
  destruct ctx as [c|]; [|discriminate Hm].
  destruct a as [an|]; [|discriminate Hm]. clear Hm.
  lazy -[List.find types app length] in Hf |- *. rewrite Hf. reflexivity.
Qed.

Lemma voice_detected_armed plat h :
  isRecording h = false ->
  isListening h = true ->
  exec (voice_detected plat) h
  = exec (startRecording plat) (exec clearSilenceTimeout h).
Proof.
  intros Hr Hl.
  destruct h as [mr isrec lis chunks busy s a t ctx recs n aw tr].
  cbn in Hr, Hl. subst isrec lis. destruct t; reflexivity.
Qed.

Lemma voice_detected_recording plat h :
  isRecording h = true ->
  exec (voice_detected plat) h = exec clearSilenceTimeout h.
Proof.
  intros Hr.
  destruct h as [mr isrec lis chunks busy s a t ctx recs n aw tr].
  cbn in Hr. subst isrec. destruct t; reflexivity.
Qed.

Lemma silence_detected_arms props h :
  isRecording h = true ->
  silenceTimeoutRef h = None ->
  exec (silence_detected props) h
  = set_trace (ESetTimeout (silenceTimeout props) :: trace h)
      (set_silenceTimeoutRef
         (Some (mkTimeout (silenceTimeout props) true true)) h).
Proof.
  intros Hr Ht.
  destruct h as [mr isrec lis chunks busy s a t ctx recs n aw tr].
  cbn in Hr, Ht. subst isrec t. reflexivity.
Qed.

Lemma silence_detected_armed_already props h :
  is_Some (silenceTimeoutRef h) ->
  exec (silence_detected props) h = h.
Proof.
  intros [tm Ht].
  destruct h as [mr isrec lis chunks busy s a t ctx recs n aw tr].
  cbn in Ht. subst t. reflexivity.
Qed.

Lemma silence_detected_not_recording props h :
  isRecording h = false ->
  exec (silence_detected props) h = h.
Proof.
  intros Hr.
  destruct h as [mr isrec lis chunks busy s a t ctx recs n aw tr].
  cbn in Hr. subst isrec. destruct t; reflexivity.
Qed.

Lemma step_TimerFired_pending plat props tm h :
  silenceTimeoutRef h = Some tm ->
  tm_pending tm = true ->
  tm_isRecording tm = true ->
  step plat props TimerFired h
  = exec stopRecording
      (set_silenceTimeoutRef (Some (mkTimeout (tm_delay tm) false true)) h).
Proof.
  intros Ht Hp Hr.
  unfold step, exec, handle, silenceCallback, gets, modify, mbind, M_bind.
  cbv beta. rewrite Ht, Hp, Hr. reflexivity.
Qed.

Lemma onstop_flags rid rec p h :
  isRecording (exec (set_recorder_phase rid p;; onstop rid rec) h) = false /\
  isListening (exec (set_recorder_phase rid p;; onstop rid rec) h)
  = isListening h.
Proof.
  destruct h as [mr isrec lis chunks busy s a t ctx recs n aw tr].
  destruct chunks, t; split; reflexivity.
Qed.

Lemma clearSilenceTimeout_fields h :
  let h0 := exec clearSilenceTimeout h in
  silenceTimeoutRef h0 = None /\
  isRecording h0 = isRecording h /\
  isListening h0 = isListening h /\
  isProcessingRef h0 = isProcessingRef h /\
  session_missing h0 = session_missing h /\
  streamRef h0 = streamRef h /\
  mediaRecorder h0 = mediaRecorder h /\
  recorders h0 = recorders h /\
  count_effect is_recorderStart h0 = count_effect is_recorderStart h.
Proof.
  destruct h as [mr isrec lis chunks busy s a t ctx recs n aw tr].
  destruct t; repeat split; reflexivity.
Qed.

(** *** The comparison at the threshold *)

Lemma geb_refl (x : number) : x <> Num.NaN -> Num.geb x x = true.
Proof.
  destruct x as [| | |x]; intros Hx; try reflexivity; [congruence|].
  cbn. destruct (Rge_dec x x) as [_|Hn]; [reflexivity | exfalso; apply Hn; lra].
Qed.

Lemma startRecording_keeps_no_timer plat :
  stable (fun h => silenceTimeoutRef h = None) (startRecording plat).
Proof. stable_split; cbn; (assumption || reflexivity). Qed.

(** The voice branch leaves no timer, whatever it starts. *)
Lemma voice_detected_clears plat h :
  isListening h = true ->
  silenceTimeoutRef (exec (voice_detected plat) h) = None.
Proof.
  intros Hl. destruct (clearSilenceTimeout_fields h) as (Ht & _).
  cbv zeta in Ht. destruct (isRecording h) eqn:Hr.
  - now rewrite voice_detected_recording.
  - rewrite voice_detected_armed by assumption.
    now apply startRecording_keeps_no_timer.
Qed.

Lemma voice_detected_starts plat h :
  isListening h = true ->
  isRecording h = false ->
  isProcessingRef h = false ->
  session_missing h = false ->
  is_Some (List.find (isTypeSupported plat) types) ->
  isRecording (exec (voice_detected plat) h) = true /\
  count_effect is_recorderStart (exec (voice_detected plat) h)
  = S (count_effect is_recorderStart h).
Proof.
  intros Hl Hr Hb Hm [mimeType Hf].
  destruct (clearSilenceTimeout_fields h)
    as (_ & Hr0 & Hl0 & Hb0 & Hm0 & Hs0 & _ & _ & Hcount0).
  cbv zeta in Hr0, Hl0, Hb0, Hm0, Hs0, Hcount0.
  rewrite voice_detected_armed by assumption.
  set (h0 := exec clearSilenceTimeout h) in *.
  assert (Hsid : is_Some (streamRef h0)).
  { rewrite Hs0. unfold session_missing in Hm.
    destruct (streamRef h); [eauto | discriminate Hm]. }
  destruct Hsid as [sid Hsid]. unfold exec.
  rewrite (startRecording_ok plat h0 sid mimeType) by congruence.
  cbn [snd]. rewrite <- Hcount0. split; reflexivity.
Qed.

(** C3: the gate compares with [<] for silence and takes every other
    reading, that is [>=] (neither side being NaN), for voice. [x < x] is
    false for every number, so at the threshold the gate runs its voice
    branch. On a frame the gate evaluates (listening, analyser present) with
    reading [dB]:
    - entering speech: a hook that is not recording, with nothing in flight,
      its session and a supported type, starts a recording exactly when
      [dB >= threshold];
    - leaving speech: a recording hook stays recording; with
      [dB < threshold] a countdown is pending afterwards, scheduled by this
      frame when none was; with [dB >= threshold] no countdown is pending
      afterwards and none was scheduled;
    - a reading equal to the threshold is voice, for every threshold: it
      starts the recording of a hook that is not recording, and leaves no
      countdown;
    - over any sequence of frames that read exactly the threshold, from any
      state, no countdown is ever scheduled, none appears, and one that was
      pending is cancelled by the first frame. *)
Theorem threshold_reading_is_voice plat props :
  (forall x : number, Num.ltb x x = false) /\
  (forall h, gate plat props (silenceThreshold props) h = voice_detected plat h) /\
  (forall h dataArray dB,
     is_Some (analyserRef h) -> isListening h = true ->
     loudness dataArray = Some dB ->
     dB <> Num.NaN -> silenceThreshold props <> Num.NaN ->
     let h' := step plat props (Tick dataArray) h in
     Num.ltb dB (silenceThreshold props)
     = negb (Num.geb dB (silenceThreshold props)) /\
     (isRecording h = false -> isProcessingRef h = false ->
      session_missing h = false ->
      is_Some (List.find (isTypeSupported plat) types) ->
      isRecording h' = Num.geb dB (silenceThreshold props) /\
      count_effect is_recorderStart h'
      = ((if Num.geb dB (silenceThreshold props) then 1 else 0)
         + count_effect is_recorderStart h)%nat) /\
     (isRecording h = true ->
      isRecording h' = true /\
      (Num.ltb dB (silenceThreshold props) = true ->
       is_Some (silenceTimeoutRef h') /\
       (silenceTimeoutRef h = None ->
        silenceTimeoutRef h'
        = Some (mkTimeout (silenceTimeout props) true true) /\
        count_effect is_setTimeout h'
        = S (count_effect is_setTimeout h))) /\
      (Num.geb dB (silenceThreshold props) = true ->
       silenceTimeoutRef h' = None /\
       count_effect is_setTimeout h' = count_effect is_setTimeout h))) /\
  (forall h dataArray,
     is_Some (analyserRef h) -> isListening h = true ->
     loudness dataArray = Some (silenceThreshold props) ->
     let h' := step plat props (Tick dataArray) h in
     silenceTimeoutRef h' = None /\
     count_effect is_setTimeout h' = count_effect is_setTimeout h /\
     (isRecording h = true -> isRecording h' = true) /\
     (isRecording h = false -> isProcessingRef h = false ->
      session_missing h = false ->
      is_Some (List.find (isTypeSupported plat) types) ->
      isRecording h' = true /\
      count_effect is_recorderStart h'
      = S (count_effect is_recorderStart h))) /\
  forall (frames : list (list Z)) (h : Hook),
    Forall (fun d => loudness d = Some (silenceThreshold props)) frames ->
    let h' := ticks plat props frames h in
    count_effect is_setTimeout h' = count_effect is_setTimeout h /\
    (silenceTimeoutRef h = None -> silenceTimeoutRef h' = None) /\
    (is_Some (analyserRef h) -> isListening h = true -> frames <> [] ->
     silenceTimeoutRef h' = None).
Proof.
  assert (Hseq : forall (frames : list (list Z)) (h : Hook),
    Forall (fun d => loudness d = Some (silenceThreshold props)) frames ->
    count_effect is_setTimeout (ticks plat props frames h)
    = count_effect is_setTimeout h /\
    (silenceTimeoutRef h = None ->
     silenceTimeoutRef (ticks plat props frames h) = None)).
  { intros frames h Hall. revert h.
    induction Hall as [|d frames Hd _ IH]; intros h.
    - split; [reflexivity | trivial].
    - destruct (IH (step plat props (Tick d) h)) as [IHc IHt].
      rewrite ticks_cons. split.
      + rewrite IHc.
        apply (tick_at_threshold plat props d _ Hd
                 (voice_detected_no_timeout plat _)).
        reflexivity.
      + intros Hn. apply IHt.
        now apply (tick_at_threshold plat props d _ Hd
                     (voice_detected_keeps_no_timer plat)). }
  split; [exact ltb_irrefl|].
  split; [intros h; apply gate_voice, ltb_irrefl|].
  split; [|split].
  - intros h dataArray dB Ha Hl Hd HdB Hthr h'.
    pose proof (ltb_geb dB (silenceThreshold props) HdB Hthr) as Hcmp.
    split; [exact Hcmp|]. split.
    + intros Hr Hb Hm Hf.
      destruct (Num.geb dB (silenceThreshold props)) eqn:Hge;
        cbn [negb] in Hcmp; subst h'.
      * rewrite (step_Tick_voice plat props dataArray dB) by assumption.
        now apply voice_detected_starts.
      * rewrite (step_Tick_silence plat props dataArray dB) by assumption.
        rewrite silence_detected_not_recording by assumption.
        now split.
    + intros Hr. split; [|split].
      * subst h'.
        destruct (Num.ltb dB (silenceThreshold props)) eqn:Hlt.
        -- rewrite (step_Tick_silence plat props dataArray dB) by assumption.
           destruct (silenceTimeoutRef h) as [tm|] eqn:Ht.
           ++ rewrite silence_detected_armed_already by (rewrite Ht; eauto).
              exact Hr.
           ++ now rewrite silence_detected_arms.
        -- rewrite (step_Tick_voice plat props dataArray dB) by assumption.
           rewrite voice_detected_recording by assumption.
           destruct (clearSilenceTimeout_fields h) as (_ & Hr0 & _).
           cbv zeta in Hr0. congruence.
      * intros Hlt. subst h'.
        rewrite (step_Tick_silence plat props dataArray dB) by assumption.
        destruct (silenceTimeoutRef h) as [tm|] eqn:Ht.
        -- rewrite silence_detected_armed_already by (rewrite Ht; eauto).
           split; [rewrite Ht; eauto | discriminate].
        -- rewrite silence_detected_arms by assumption.
           split; [cbn; eauto|]. intros _. split; reflexivity.
      * intros Hge. rewrite Hge in Hcmp. cbn [negb] in Hcmp. subst h'.
        rewrite (step_Tick_voice plat props dataArray dB) by assumption.
        split; [now apply voice_detected_clears|].
        now apply voice_detected_no_timeout.
  - intros h dataArray Ha Hl Hd h'.
    assert (Hv : h' = exec (voice_detected plat) h).
    { subst h'.
      apply (step_Tick_voice plat props dataArray (silenceThreshold props));
        auto using ltb_irrefl. }
    rewrite Hv. split; [now apply voice_detected_clears|].
    split; [now apply voice_detected_no_timeout|]. split.
    + intros Hr. rewrite voice_detected_recording by assumption.
      destruct (clearSilenceTimeout_fields h) as (_ & Hr0 & _).
      cbv zeta in Hr0. congruence.
    + intros Hr Hb Hm Hf. now apply voice_detected_starts.
  - intros frames h Hall h'. subst h'.
    destruct (Hseq frames h Hall) as [Hc Ht].
    split; [exact Hc|]. split; [exact Ht|].
    intros Ha Hl Hne. destruct Hall as [|d frames Hd Hall]; [congruence|].
    rewrite ticks_cons.
    apply (Hseq frames _ Hall).
    rewrite (step_Tick_voice plat props d (silenceThreshold props))
      by auto using ltb_irrefl.
    now apply voice_detected_clears.
Qed.

Lemma threshold_reading_is_voice_witness :
  loudness tenth_frame = Some (Num.Fin (-20)) /\
  loudness silent_frame = Some Num.NegInf /\
  isRecording listening = false /\
  isRecording
    (step chrome (mkProps (Num.Fin (-20)) 800) (Tick tenth_frame) listening)
  = true /\
  step chrome (mkProps (Num.Fin (-20)) 800) (Tick silent_frame) listening
  = listening /\
  count_effect is_setTimeout
    (ticks chrome (mkProps (Num.Fin (-20)) 800) [tenth_frame; tenth_frame]
       listening) = 0%nat.
Proof.
  destruct (threshold_reading_is_voice chrome (mkProps (Num.Fin (-20)) 800))
    as (_ & _ & _ & Hat & Hseq).
  assert (Ha : is_Some (analyserRef listening)) by (vm_compute; eauto).
  assert (Hl : isListening listening = true) by (vm_compute; reflexivity).
  split; [exact loudness_tenth|]. split; [exact loudness_silent|].
  split; [vm_compute; reflexivity|]. split; [|split].
  - destruct (Hat listening tenth_frame Ha Hl loudness_tenth)
      as (_ & _ & _ & Hstart).
    apply Hstart; vm_compute; eauto.
  - rewrite (step_Tick_silence chrome _ silent_frame Num.NegInf)
      by (auto using loudness_silent).
    apply silence_detected_not_recording. vm_compute. reflexivity.
  - assert (Hall : Forall (fun d => loudness d = Some (Num.Fin (-20)))
                          [tenth_frame; tenth_frame]).
    { repeat constructor; exact loudness_tenth. }
    destruct (Hseq [tenth_frame; tenth_frame] listening Hall) as (Hc & _).
    cbv zeta in Hc. rewrite Hc. reflexivity.
Defined.

(** *** One utterance, frame by frame *)

Lemma default_threshold_loud :
  Num.ltb (Num.Fin 0) (silenceThreshold default_props) = false.
Proof.
  cbn. destruct (Rlt_dec 0 (-50)) as [H|_]; [lra | reflexivity].
Qed.

Lemma default_threshold_silent :
  Num.ltb Num.NegInf (silenceThreshold default_props) = true.
Proof. reflexivity. Qed.

Lemma tick_loud_default h :
  is_Some (analyserRef h) ->
  isListening h = true ->
  step chrome default_props (Tick loud_frame) h = exec (voice_detected chrome) h.
Proof.
  intros Ha Hl.
  apply (step_Tick_voice chrome default_props loud_frame (Num.Fin 0));
    auto using loudness_loud, default_threshold_loud.
Qed.

Lemma tick_silent_default h :
  is_Some (analyserRef h) ->
  isListening h = true ->
  step chrome default_props (Tick silent_frame) h
  = exec (silence_detected default_props) h.
Proof.
  intros Ha Hl.
  apply (step_Tick_silence chrome default_props silent_frame Num.NegInf);
    auto using loudness_silent, default_threshold_silent.
Qed.

Lemma run_nil plat h : run plat [] h = h.
Proof. reflexivity. Qed.

Lemma run_cons plat props ev evs h :
  run plat ((props, ev) :: evs) h = run plat evs (step plat props ev h).
Proof. reflexivity. Qed.

Lemma speaking_step :
  step chrome default_props (Tick loud_frame) listening = speaking.
Proof. apply tick_loud_default; vm_compute; eauto. Qed.

Lemma pausing_step :
  step chrome default_props (Tick silent_frame) speaking_chunk = pausing.
Proof. apply tick_silent_default; vm_compute; eauto. Qed.

Lemma utterance_run :
  run chrome (with_defaults utterance) initial = consumer_busy.
Proof.
  unfold utterance, with_defaults. cbn [map].
  rewrite run_cons. fold listening.
  rewrite run_cons, speaking_step.
  rewrite run_cons. fold speaking_chunk.
  rewrite run_cons, pausing_step.
  rewrite !run_cons, run_nil. unfold consumer_busy, finalizing. reflexivity.
Qed.

(** C2, as stated, fails in its first part: after one utterance, while the
    segment is with the consumer, the hook is listening and not recording
    (Armed), and a frame at 0 dB (above the threshold of -50) leaves it
    Armed: no recorder is started. *)
Lemma armed_voice_frame_without_recording :
  reachable chrome consumer_busy /\
  recordingState consumer_busy = Armed /\
  loudness loud_frame = Some (Num.Fin 0) /\
  Num.geb (Num.Fin 0) (silenceThreshold default_props) = true /\
  recordingState (step chrome default_props (Tick loud_frame) consumer_busy)
    = Armed /\
  count_effect is_recorderStart
    (step chrome default_props (Tick loud_frame) consumer_busy)
    = count_effect is_recorderStart consumer_busy.
Proof.
  split. { rewrite <- utterance_run. apply reachable_run, reach_initial. }
  split; [vm_compute; reflexivity|].
  split; [exact loudness_loud|].
  split. { cbn. destruct (Rge_dec 0 (-50)) as [_|H]; [reflexivity | lra]. }
  rewrite (tick_loud_default consumer_busy) by (vm_compute; eauto).
  split; vm_compute; reflexivity.
Qed.

(** C2, amended. On a frame that the gate evaluates (listening, analyser
    present) with reading [dB]:
    - Armed and [dB >= threshold]: the gate cancels any timer and calls
      [startRecording]; the hook becomes Recording, with a fresh recorder
      started, provided no start, stop or consumer hand-off is in flight
      ([isProcessingRef] false), the session's stream, context and analyser
      exist and the platform supports one of the candidate types;
    - Recording and [dB < threshold]: a timeout of [silenceTimeout] ms is
      scheduled if none is set, and nothing changes if one is set;
    - Recording and [dB >= threshold]: the timer is cancelled and the state
      stays Recording;
    - when the timer scheduled by a silent frame fires, the recorder is asked
      to stop and the state is still Recording; it becomes Armed when the
      recorder's stop event is delivered. *)
Theorem hysteresis_gate plat props dataArray dB h :
  is_Some (analyserRef h) ->
  isListening h = true ->
  loudness dataArray = Some dB ->
  let h' := step plat props (Tick dataArray) h in
  (recordingState h = Armed ->
   Num.ltb dB (silenceThreshold props) = false ->
   h' = exec (startRecording plat) (exec clearSilenceTimeout h) /\
   (isProcessingRef h = false ->
    session_missing h = false ->
    forall sid mimeType,
      streamRef h = Some sid ->
      List.find (isTypeSupported plat) types = Some mimeType ->
      recordingState h' = Recording /\
      mediaRecorder h' = Some (length (recorders h)) /\
      recorders h'
      = recorders h ++
        [mkRecorder Capturing sid mimeType 128000 500 (mediaRecorder h)] /\
      count_effect is_recorderStart h'
      = S (count_effect is_recorderStart h))) /\
  (recordingState h = Recording ->
   Num.ltb dB (silenceThreshold props) = true ->
   (silenceTimeoutRef h = None ->
    h' = set_trace (ESetTimeout (silenceTimeout props) :: trace h)
           (set_silenceTimeoutRef
              (Some (mkTimeout (silenceTimeout props) true true)) h)) /\
   (is_Some (silenceTimeoutRef h) -> h' = h)) /\
  (recordingState h = Recording ->
   Num.ltb dB (silenceThreshold props) = false ->
   h' = exec clearSilenceTimeout h /\
   silenceTimeoutRef h' = None /\
   recordingState h' = Recording) /\
  (recordingState h = Recording ->
   Num.ltb dB (silenceThreshold props) = true ->
   silenceTimeoutRef h = None ->
   isProcessingRef h = false ->
   forall rid,
     recorder_active h = Some rid ->
     let h1 := step plat props TimerFired h' in
     let h2 := step plat props (RecorderStopped rid) h1 in
     trace h1 = ERecorderStop rid :: trace h' /\
     recordingState h1 = Recording /\
     recordingState h2 = Armed).
Proof.
  intros Ha Hl Hd h'.
  assert (Hstate : forall st, recordingState h = st ->
            isRecording h = match st with Recording => true | _ => false end).
  { intros st <-. unfold recordingState. rewrite Hl.
    now destruct (isRecording h). }
  split; [|split; [|split]].
  - intros Hs Hv. apply Hstate in Hs.
    assert (E : h' = exec (startRecording plat) (exec clearSilenceTimeout h)).
    { subst h'. rewrite (step_Tick_voice plat props dataArray dB) by assumption.
      now apply voice_detected_armed. }
    split; [exact E|].
    intros Hb Hm sid mimeType Hsid Hf.
    destruct (clearSilenceTimeout_fields h)
      as (_ & Hr0 & Hl0 & Hb0 & Hm0 & Hs0 & Hmr0 & Hrecs0 & Hcount0).
    rewrite E. cbv zeta in Hr0, Hl0, Hb0, Hm0, Hs0, Hmr0, Hrecs0, Hcount0.
    set (h0 := exec clearSilenceTimeout h) in *.
    unfold exec.
    rewrite (startRecording_ok plat h0 sid mimeType) by congruence.
    cbn [snd]. rewrite <- Hrecs0, <- Hmr0, <- Hcount0.
    repeat split.
  - intros Hs Hv. apply Hstate in Hs.
    assert (E : h' = exec (silence_detected props) h).
    { subst h'. now rewrite (step_Tick_silence plat props dataArray dB). }
    split.
    + intros Ht. rewrite E. now apply silence_detected_arms.
    + intros Ht. rewrite E. now apply silence_detected_armed_already.
  - intros Hs Hv. apply Hstate in Hs.
    assert (E : h' = exec clearSilenceTimeout h).
    { subst h'. rewrite (step_Tick_voice plat props dataArray dB) by assumption.
      now apply voice_detected_recording. }
    destruct (clearSilenceTimeout_fields h) as (Ht0 & Hr0 & Hl0 & _).
    split; [exact E|]. rewrite E. split; [exact Ht0|].
    unfold recordingState. now rewrite Hr0, Hs.
  - intros Hs Hv Ht Hb rid Hact h1 h2. apply Hstate in Hs.
    assert (E : h' = set_trace (ESetTimeout (silenceTimeout props) :: trace h)
                       (set_silenceTimeoutRef
                          (Some (mkTimeout (silenceTimeout props) true true)) h)).
    { subst h'. rewrite (step_Tick_silence plat props dataArray dB) by assumption.
      now apply silence_detected_arms. }
    destruct (lookup_recorder_active _ _ Hact) as (Hm & r & Hr & Hp).
    assert (Hlt : rid < length (recorders h)) by (eapply lookup_lt_Some; eauto).
    set (hf := set_silenceTimeoutRef
                 (Some (mkTimeout (silenceTimeout props) false true)) h').
    assert (E1 : h1 = set_trace (ERecorderStop rid :: trace hf)
                   (set_recorders
                      (<[rid := set_phase Finalizing r]> (recorders hf))
                      (set_isProcessingRef true hf))).
    { subst h1.
      rewrite (step_TimerFired_pending plat props
                 (mkTimeout (silenceTimeout props) true true) h')
        by (rewrite ?E; reflexivity).
      cbn [tm_delay]. fold hf. unfold exec.
      rewrite (stopRecording_active hf rid r); [reflexivity | | | |];
        try (subst hf; rewrite E); assumption. }
    assert (Hr1 : recorders h1 !! rid = Some (set_phase Finalizing r)).
    { rewrite E1. subst hf. rewrite E. cbn. now apply list_lookup_insert_eq. }
    assert (E2 : h2 = exec (set_recorder_phase rid Finished;;
                            onstop rid (set_phase Finalizing r)) h1).
    { subst h2. unfold step, exec.
      now rewrite (handle_RecorderStopped _ _ _ _ _ Hr1). }
    split; [now rewrite E1|]. split.
    + rewrite E1. subst hf. rewrite E. unfold recordingState. cbn.
      now rewrite Hs.
    + destruct (onstop_flags rid (set_phase Finalizing r) Finished h1)
        as [Hrec Hlis].
      unfold recordingState. rewrite E2, Hrec, Hlis.
      rewrite E1. subst hf. rewrite E. cbn. now rewrite Hl.
Qed.

Lemma hysteresis_gate_witness :
  (is_Some (analyserRef listening) /\
   isListening listening = true /\
   loudness loud_frame = Some (Num.Fin 0) /\
   recordingState listening = Armed /\
   recordingState (step chrome default_props (Tick loud_frame) listening)
     = Recording) /\
  (is_Some (analyserRef speaking_chunk) /\
   isListening speaking_chunk = true /\
   loudness silent_frame = Some Num.NegInf /\
   recordingState speaking_chunk = Recording /\
   recordingState
     (step chrome default_props (RecorderStopped 0)
        (step chrome default_props TimerFired
           (step chrome default_props (Tick silent_frame) speaking_chunk)))
     = Armed).
Proof.
  split.
  - assert (Ha : is_Some (analyserRef listening)) by (vm_compute; eauto).
    assert (Hl : isListening listening = true) by (vm_compute; reflexivity).
    assert (Hs : recordingState listening = Armed)
      by (vm_compute; reflexivity).
    split; [exact Ha|]. split; [exact Hl|]. split; [exact loudness_loud|].
    split; [exact Hs|].
    destruct (hysteresis_gate chrome default_props loud_frame (Num.Fin 0)
                listening Ha Hl loudness_loud) as (Harmed & _).
    destruct (Harmed Hs default_threshold_loud) as (_ & Hstart).
    assert (Hb : isProcessingRef listening = false)
      by (vm_compute; reflexivity).
    assert (Hm : session_missing listening = false)
      by (vm_compute; reflexivity).
    assert (Hsid : streamRef listening = Some 0%nat)
      by (vm_compute; reflexivity).
    assert (Hf : List.find (isTypeSupported chrome) types
                 = Some "audio/webm;codecs=opus"%string)
      by (vm_compute; reflexivity).
    exact (proj1 (Hstart Hb Hm 0%nat _ Hsid Hf)).
  - assert (Ha : is_Some (analyserRef speaking_chunk))
      by (vm_compute; eauto).
    assert (Hl : isListening speaking_chunk = true)
      by (vm_compute; reflexivity).
    assert (Hs : recordingState speaking_chunk = Recording)
      by (vm_compute; reflexivity).
    split; [exact Ha|]. split; [exact Hl|]. split; [exact loudness_silent|].
    split; [exact Hs|].
    destruct (hysteresis_gate chrome default_props silent_frame Num.NegInf
                speaking_chunk Ha Hl loudness_silent) as (_ & _ & _ & Hfire).
    assert (Ht : silenceTimeoutRef speaking_chunk = None)
      by (vm_compute; reflexivity).
    assert (Hb : isProcessingRef speaking_chunk = false)
      by (vm_compute; reflexivity).
    assert (Hact : recorder_active speaking_chunk = Some 0%nat)
      by (vm_compute; reflexivity).
    exact (proj2 (proj2 (Hfire Hs default_threshold_silent Ht Hb 0%nat Hact))).
Defined.

Lemma gate_records_only_while_listening_witness :
  isRecording listening = false /\
  isRecording (step chrome default_props (Tick loud_frame) listening) = true /\
  isListening listening = true.
Proof.
  assert (Hoff : isRecording listening = false) by (vm_compute; reflexivity).
  assert (Hon : isRecording (step chrome default_props (Tick loud_frame)
                               listening) = true).
  { rewrite speaking_step. vm_compute. reflexivity. }
  split; [exact Hoff|]. split; [exact Hon|].
  destruct (gate_records_only_while_listening chrome default_props
              (Tick loud_frame) listening Hoff Hon) as [H|(d & _ & Hl & _)].
  - discriminate H.
  - exact Hl.
Defined.

(** *** Stopping and resuming the session *)

Lemma stopListening_eq h sid c :
  streamRef h = Some sid ->
  audioContextRef h = Some c ->
  stopListening h = (Ok tt, suspend_session sid c (finalize_recording h)).
Proof.
  intros Hs Hc.
  destruct h as [mr isrec lis chunks busy s a t ctx recs n aw tr].
  cbn in Hs, Hc. subst s ctx.
  destruct mr as [rid|];
    [destruct (recs !! rid) as [[[] st mt bits ts cl]|] eqn:E|];
    destruct isrec, t.
  all: try (lazy in E; lazy; repeat (rewrite E; lazy)).
  all: lazy; reflexivity.
Qed.

Lemma same_session_trans h1 h2 h3 :
  same_session h1 h2 -> same_session h2 h3 -> same_session h1 h3.
Proof.
  unfold same_session. intros (A1 & A2 & A3 & A4 & A5) (B1 & B2 & B3 & B4 & B5).
  repeat split; congruence.
Qed.

Lemma finalize_recording_fields h :
  let h0 := finalize_recording h in
  same_session h h0 /\
  audioContextRef h0 = audioContextRef h /\
  silenceTimeoutRef h0 = silenceTimeoutRef h /\
  (isRecording h = true ->
   forall rid, recorder_active h = Some rid ->
               trace h0 = ERecorderStop rid :: trace h).
Proof.
  unfold finalize_recording.
  destruct (recorder_active h) as [rid|] eqn:Ha.
  - destruct (lookup_recorder_active _ _ Ha) as (_ & r & Hr & Hp).
    destruct (isRecording h) eqn:Hrec.
    + unfold exec. rewrite (recorder_stop_capturing rid r h Hr Hp). cbn [snd].
      repeat split. intros _ rid' [= <-]. reflexivity.
    + repeat split. discriminate.
  - repeat split. discriminate.
Qed.

Lemma suspend_session_fields sid c h :
  let h1 := suspend_session sid c h in
  same_session h h1 /\
  isListening h1 = false /\
  silenceTimeoutRef h1 = None /\
  audioContextRef h1 = Some (suspend c) /\
  ESuspendContext ∈ trace h1 /\
  (forall e, e ∈ trace h -> e ∈ trace h1).
Proof.
  destruct h as [mr isrec lis chunks busy s a t ctx recs n aw tr].
  destruct t; lazy -[elem_of suspend]; repeat split; try reflexivity.
  all: try intros e He; set_solver.
Qed.








(** What [stopListening] calls a recording in progress is the recorder in
    [mediaRecorder] under [isRecording]. A recorder started while the
    consumer still held the previous segment loses both when that
    consumer's promise settles ([cleanup(false)]), and [stopListening]
    then leaves it capturing. *)
Lemma stopListening_misses_orphan_recorder :
  reachable chrome orphaned /\
  isListening orphaned = true /\
  (exists rec, recorders orphaned !! 1%nat = Some rec /\
               rec_phase rec = Capturing) /\
  let h1 := step chrome default_props StopListening orphaned in
  isListening h1 = false /\
  (exists rec, recorders h1 !! 1%nat = Some rec /\
               rec_phase rec = Capturing) /\
  count_effect is_recorderStop h1 = count_effect is_recorderStop orphaned.
Proof.
  split.
  { unfold orphaned. constructor.
    rewrite <- (tick_loud_default restarted) by (vm_compute; eauto).
    constructor. unfold restarted. do 3 constructor.
    unfold speaking_chunk. constructor.
    rewrite <- speaking_step. constructor. unfold listening.
    constructor. constructor. }
  split; [vm_compute; reflexivity|].
  split; [eexists; split; vm_compute; reflexivity|].
  cbv zeta. split; [vm_compute; reflexivity|].
  split; [eexists; split; vm_compute; reflexivity|].
  vm_compute. reflexivity.
Qed.

(** *** The session's resources come and go together *)

Lemma session_whole_acquire plat : stable session_whole (acquire plat).
Proof.
  intros h Hh.
  destruct h as [mr isrec lis chunks busy s a t ctx recs n aw tr].
  unfold acquire, getUserMedia, gets, modify, emit, throw, mbind, M_bind,
    mret, M_ret. cbv beta. cbn [requests].
  destruct (permission plat n).
  - left. reflexivity.
  - exact Hh.
Qed.

Lemma session_whole_cleanup captured full : stable session_whole (cleanup captured full).
Proof.
  intros h Hh.
  destruct h as [mr isrec lis chunks busy s a t ctx recs n aw tr].
  destruct full.
  - right.
    destruct captured as [cap|]; [destruct (recs !! cap) eqn:E|];
      destruct t, ctx, s.
    all: try (lazy in E; lazy; rewrite E).
    all: lazy; repeat split; reflexivity.
  - destruct t; exact Hh.
Qed.

Ltac session_step :=
  lazymatch goal with
  | |- stable _ (acquire _) => apply session_whole_acquire
  | |- stable _ (cleanup _ _) => apply session_whole_cleanup
  | |- _ => stable_step
  end.

Ltac session_split :=
  repeat (progress unfold handle, startRecording, stopRecording,
            detectSilence, gate, silence_detected, voice_detected,
            silenceCallback, onstop, onstop_resume, onerror, ondataavailable,
            clearSilenceTimeout, recorder_stop, newRecorder,
            getSupportedMimeType, lookup_recorder, set_recorder_phase
          || session_step).

Lemma session_whole_startListening plat :
  stable session_whole (startListening plat).
Proof.
  intros h Hh. unfold startListening.
  destruct (session_missing h) eqn:Hm.
  - destruct h as [mr isrec lis chunks busy s a t ctx recs n aw tr].
    unfold gets, mbind, M_bind at 1. cbv beta. cbn [mediaRecorder].
    unfold try_catch, mbind, M_bind at 1, gets. cbv beta. rewrite Hm.
    assert (Hs' : stable session_whole
                    (try_catch (acquire plat;; modify (set_isListening true))
                       (fun error => cleanup mr true;; throw error))).
    { repeat session_step; cbn; assumption. }
    exact (Hs' _ Hh).
  - destruct h as [mr isrec lis chunks busy s a t ctx recs n aw tr].
    unfold session_missing in Hm. cbn in Hm.
    destruct s, ctx as [[]|], a; try discriminate Hm.
    all: left; reflexivity.
Qed.

Lemma session_whole_stopListening : stable session_whole stopListening.
Proof.
  intros h Hh.
  destruct h as [mr isrec lis chunks busy s a t ctx recs n aw tr].
  destruct Hh as [Hm|(Hs & Hc & Ha)].
  - unfold session_missing in Hm. cbn in Hm.
    destruct s as [sid|], ctx as [c|], a as [an|]; try discriminate Hm.
    rewrite (stopListening_eq _ sid c) by reflexivity. cbn [snd].
    destruct (suspend_session_fields sid c
                (finalize_recording
                   (mkHook mr isrec lis chunks busy (Some sid) (Some an) t
                      (Some c) recs n aw tr)))
      as ((S1 & S2 & _) & _ & _ & C1 & _).
    destruct (finalize_recording_fields
                (mkHook mr isrec lis chunks busy (Some sid) (Some an) t
                   (Some c) recs n aw tr))
      as ((F1 & F2 & _) & _).
    cbv zeta in S1, S2, C1, F1, F2. left. unfold session_missing.
    rewrite S1, S2, C1, F1, F2. reflexivity.
  - cbn in Hs, Hc, Ha. subst s ctx a. right.
    destruct mr as [rid|];
      [destruct (recs !! rid) as [[[] st mt bits ts cl]|] eqn:E|];
      destruct isrec, t.
    all: try (lazy in E; lazy; repeat (rewrite E; lazy)).
    all: lazy; repeat split; reflexivity.
Qed.

Lemma session_whole_handle plat props ev :
  stable session_whole (handle plat props ev).
Proof.
  destruct ev.
  - apply session_whole_startListening.
  - apply session_whole_stopListening.
  - session_split; cbn; assumption.
  - session_split; cbn; assumption.
  - session_split; cbn; assumption.
  - session_split; cbn; assumption.
  - session_split; cbn; assumption.
  - session_split; cbn; assumption.
  - session_split; cbn; assumption.
  - session_split; cbn; assumption.
  - intros h Hh.
    destruct h as [mr isrec lis chunks busy s a t ctx recs n aw tr].
    destruct ctx as [[]|]; try exact Hh.
    destruct Hh as [Hm|(Hs & Hc & Ha)]; [|discriminate Hc].
    left. exact Hm.
Qed.

(** In every reachable state the stream, the context and the analyser are
    all present or all absent: the [TypeError] branches of [startRecording]
    and [stopListening] are never taken. *)
Lemma session_whole_reachable plat h : reachable plat h -> session_whole h.
Proof.
  induction 1 as [|props ev h _ IH].
  - right. repeat split; reflexivity.
  - now apply session_whole_handle.
Qed.

(* ------------------------------------------------------------------ *)
(** ** Further properties of the hook *)

(** *** Choosing the recorder's type *)

Lemma find_first {A} (f : A -> bool) (l : list A) (x : A) :
  List.find f l = Some x ->
  f x = true /\
  exists before after,
    l = before ++ x :: after /\ Forall (fun y => f y = false) before.
Proof.
  induction l as [|y l IH]; cbn; [discriminate|].
  destruct (f y) eqn:Hy.
  - intros [= <-]. split; [exact Hy|]. exists [], l. split; [reflexivity|].
    constructor.
  - intros Hf. destruct (IH Hf) as (Hx & before & after & -> & Hall).
    split; [exact Hx|]. exists (y :: before), after. split; [reflexivity|].
    now constructor.
Qed.

Lemma find_none_all {A} (f : A -> bool) (l : list A) :
  List.find f l = None -> Forall (fun y => f y = false) l.
Proof.
  induction l as [|y l IH]; cbn; [constructor|].
  destruct (f y) eqn:Hy; [discriminate|]. intros Hf. constructor; auto.
Qed.

(** X1: [getSupportedMimeType] never touches the hook. It returns the first
    candidate of the priority list that the platform supports (every
    candidate before it is unsupported) and throws 'No supported audio MIME
    type found' exactly when the platform supports none of the six. *)
Theorem getSupportedMimeType_first_supported plat h :
  match getSupportedMimeType plat h with
  | (Ok ty, h') =>
      h' = h /\ isTypeSupported plat ty = true /\
      exists before after,
        types = before ++ ty :: after /\
        Forall (fun t => isTypeSupported plat t = false) before
  | (Throw e, h') =>
      h' = h /\ e = NoSupportedMimeType /\
      Forall (fun t => isTypeSupported plat t = false) types
  end.
Proof.
  unfold getSupportedMimeType.
  destruct (List.find (isTypeSupported plat) types) as [ty|] eqn:Hf.
  - destruct (find_first _ _ _ Hf) as (Hty & Hsplit).
    cbn. auto.
  - cbn. split; [reflexivity|]. split; [reflexivity|].
    now apply find_none_all.
Qed.

(** *** Failures of the two start operations *)

Lemma cleanup_run captured full h :
  cleanup captured full h = (Ok tt, exec (cleanup captured full) h).
Proof.
  destruct h as [mr isrec lis chunks busy s a t ctx recs n aw tr].
  destruct full;
    [destruct captured as [cap|]; [destruct (recs !! cap) eqn:E|];
     destruct t, ctx, s
    |destruct t].
  all: try (lazy in E; lazy; rewrite E).
  all: lazy; reflexivity.
Qed.

Lemma cleanup_full_torn_down captured h :
  torn_down (exec (cleanup captured true) h) /\
  recorders (exec (cleanup captured true) h) = recorders h /\
  isListening (exec (cleanup captured true) h) = isListening h.
Proof.
  destruct h as [mr isrec lis chunks busy s a t ctx recs n aw tr].
  unfold torn_down.
  destruct captured as [cap|]; [destruct (recs !! cap) eqn:E|];
    destruct t, ctx, s.
  all: try (lazy in E; lazy; rewrite E).
  all: lazy; repeat split; reflexivity.
Qed.

(** X2: [startRecording] throws in two cases only, and not when it returns
    at its guard: the microphone is refused while the session has to be
    acquired, or no candidate type is supported. Whenever it throws, no
    recorder was created and the hook is fully torn down (not recording, no
    stream, context or analyser, also when a healthy session existed
    before), with [isListening] left as it was. *)
Theorem startRecording_failure plat h :
  thrown (startRecording plat) h
  = (if isProcessingRef h || isRecording h then None
     else if session_missing h && negb (permission plat (requests h))
          then Some NotAllowedError
     else match List.find (isTypeSupported plat) types with
          | None => Some NoSupportedMimeType
          | Some _ => None
          end) /\
  (thrown (startRecording plat) h <> None ->
   torn_down (exec (startRecording plat) h) /\
   recorders (exec (startRecording plat) h) = recorders h /\
   isListening (exec (startRecording plat) h) = isListening h).
Proof.
  destruct plat as [sup perm].
  destruct h as [mr isrec lis chunks busy s a t ctx recs n aw tr].
  unfold thrown, exec.
  destruct busy, isrec; try (split; [reflexivity | intros H; now destruct H]).
  destruct (perm n) eqn:Hp; destruct (List.find sup types) as [ty|] eqn:Hf.
  all: destruct s, ctx, a.
  all: lazy -[List.find types cleanup exec]; rewrite ?Hp;
    lazy -[List.find types cleanup exec].
  all: rewrite ?Hf; lazy -[List.find types cleanup exec].
  all: rewrite ?cleanup_run; lazy -[List.find types cleanup exec].
  all: split; [reflexivity|].
  all: try (intros H; now destruct H).
  all: intros _.
  all: match goal with
       | |- context [exec (cleanup ?c true) ?h0] =>
           apply (cleanup_full_torn_down c h0)
       end.
Qed.


(** *** From chunks to the segment *)

Lemma step_DataAvailable_live plat props rid rec b h :
  recorders h !! rid = Some rec ->
  rec_phase rec <> Finished ->
  step plat props (DataAvailable rid b) h
  = if (0 <? size b)%N then set_audioChunksRef (audioChunksRef h ++ [b]) h
    else h.
Proof.
  intros Hr Hp. unfold step, exec, handle, lookup_recorder, gets, mbind, M_bind.
  rewrite Hr. unfold ondataavailable.
  destruct (rec_phase rec); try congruence; now destruct (0 <? size b)%N.
Qed.

Lemma deliver_chunks_cons plat props rid b chunks h :
  deliver_chunks plat props rid (b :: chunks) h
  = deliver_chunks plat props rid chunks
      (step plat props (DataAvailable rid b) h).
Proof. reflexivity. Qed.

Lemma deliver_chunks_buffer plat props rid rec chunks h :
  recorders h !! rid = Some rec ->
  rec_phase rec <> Finished ->
  deliver_chunks plat props rid chunks h
  = set_audioChunksRef
      (audioChunksRef h ++ List.filter (fun b => (0 <? size b)%N) chunks) h.
Proof.
  intros Hr Hp. revert h Hr.
  induction chunks as [|b chunks IH]; intros h Hr.
  - cbn. rewrite app_nil_r. now destruct h.
  - rewrite deliver_chunks_cons.
    rewrite (step_DataAvailable_live plat props rid rec b h Hr Hp).
    cbn [List.filter]. destruct (0 <? size b)%N.
    + rewrite IH by (destruct h; exact Hr).
      destruct h; cbn. now rewrite <- app_assoc.
    + now apply IH.
Qed.

Lemma total_size_filter chunks :
  total_size (List.filter (fun b => (0 <? size b)%N) chunks) = total_size chunks.
Proof.
  unfold total_size. induction chunks as [|b chunks IH]; [reflexivity|].
  cbn. destruct (0 <? size b)%N eqn:Hb; cbn; rewrite IH; [reflexivity|].
  apply N.ltb_ge in Hb. lia.
Qed.

Lemma filter_nonempty_length chunks :
  (0 <? length (List.filter (fun b => (0 <? size b)%N) chunks))%nat
  = (0 <? total_size chunks)%N.
Proof.
  unfold total_size. induction chunks as [|b chunks IH]; [reflexivity|].
  cbn [List.filter map fold_right]. destruct (0 <? size b)%N eqn:Hb.
  - apply N.ltb_lt in Hb. cbn [length]. symmetry.
    transitivity true; [apply N.ltb_lt; lia | reflexivity].
  - apply N.ltb_ge in Hb. rewrite IH.
    replace (size b) with 0%N by lia. reflexivity.
Qed.

(** X4: the segment handed to the consumer is the concatenation of the
    chunks the recorder delivered. Starting from an empty buffer, after any
    sequence of data events of a live recorder and its stop event, the
    consumer has been called once more, with a blob whose size is the total
    number of bytes delivered and whose type is the recorder's [mimeType],
    or not at all when no byte was delivered. *)
Theorem segment_is_sum_of_chunks plat props rid rec chunks h :
  recorders h !! rid = Some rec ->
  rec_phase rec <> Finished ->
  audioChunksRef h = [] ->
  let h1 := deliver_chunks plat props rid chunks h in
  let h2 := step plat props (RecorderStopped rid) h1 in
  consumer_calls h2
  = (if (0 <? total_size chunks)%N
     then [mkBlob (total_size chunks) (rec_mimeType rec)] else [])
    ++ consumer_calls h.
Proof.
  intros Hr Hp Hc h1 h2.
  assert (E1 : h1 = set_audioChunksRef
                      (List.filter (fun b => (0 <? size b)%N) chunks) h).
  { subst h1. rewrite (deliver_chunks_buffer plat props rid rec) by assumption.
    now rewrite Hc. }
  assert (Hr1 : recorders h1 !! rid = Some rec) by (now rewrite E1).
  subst h2. unfold step. unfold exec at 1.
  rewrite (handle_RecorderStopped _ _ _ _ _ Hr1 Hp).
  etransitivity; [apply consumer_calls_onstop|].
  rewrite E1. cbn [audioChunksRef set_audioChunksRef].
  rewrite filter_nonempty_length. unfold Blob_new.
  fold (total_size (List.filter (fun b => (0 <? size b)%N) chunks)).
  rewrite total_size_filter. reflexivity.
Qed.

Lemma segment_is_sum_of_chunks_witness :
  recorders speaking !! 0%nat
    = Some (mkRecorder Capturing 0 "audio/webm;codecs=opus" 128000 500 None) /\
  audioChunksRef speaking = [] /\
  consumer_calls
    (step chrome default_props (RecorderStopped 0)
       (deliver_chunks chrome default_props 0
          [webm 8000; webm 0; webm 8000; webm 4000] speaking))
  = [webm 20000].
Proof.
  assert (Hr : recorders speaking !! 0%nat
               = Some (mkRecorder Capturing 0 "audio/webm;codecs=opus"
                                  128000 500 None))
    by (vm_compute; reflexivity).
  assert (Hc : audioChunksRef speaking = []) by (vm_compute; reflexivity).
  split; [exact Hr|]. split; [exact Hc|].
  pose proof (segment_is_sum_of_chunks chrome default_props 0 _
                [webm 8000; webm 0; webm 8000; webm 4000] speaking
                Hr ltac:(discriminate) Hc) as H.
  cbv zeta in H. rewrite H. vm_compute. reflexivity.
Defined.

(** *** One recording cycle, from the stop request to the reset *)

Lemma handle_ConsumerSettled plat props rid rec h :
  recorders h !! rid = Some rec ->
  rid ∈ awaiting h ->
  handle plat props (ConsumerSettled rid) h
  = (modify (fun h => set_awaiting (list_difference (awaiting h) [rid]) h);;
     onstop_resume rec) h.
Proof.
  intros Hr Hw. unfold handle, lookup_recorder, gets, mbind, M_bind. cbv beta.
  rewrite Hr, (bool_decide_eq_true_2 _ Hw). reflexivity.
Qed.

Lemma startRecording_busy plat h :
  isProcessingRef h || isRecording h = true ->
  startRecording plat h = (Ok tt, h).
Proof.
  intros Hb. unfold startRecording, gets, mbind, M_bind. cbv beta.
  now rewrite Hb.
Qed.

Lemma onstop_with_chunks rid rec p h :
  audioChunksRef h <> [] ->
  exec (set_recorder_phase rid p;; onstop rid rec) h
  = set_awaiting (rid :: awaiting h)
      (set_trace (EConsumer (Blob_new (audioChunksRef h) (rec_mimeType rec))
                  :: trace h)
         (set_isRecording false
            (set_recorders (alter (set_phase p) rid (recorders h)) h))).
Proof.
  intros Hne.
  destruct h as [mr isrec lis chunks busy s a t ctx recs n aw tr].
  cbn in Hne. destruct chunks; [congruence | reflexivity].
Qed.

Lemma onstop_resume_fields rec h :
  let h' := exec (onstop_resume rec) h in
  audioChunksRef h' = [] /\ isRecording h' = false /\
  mediaRecorder h' = None /\ isProcessingRef h' = false /\
  silenceTimeoutRef h' = None /\
  same_session h h' /\ audioContextRef h' = audioContextRef h /\
  isListening h' = isListening h /\ consumer_calls h' = consumer_calls h /\
  awaiting h' = awaiting h.
Proof.
  destruct h as [mr isrec lis chunks busy s a t ctx recs n aw tr].
  destruct t; lazy; repeat split; reflexivity.
Qed.

(** X5: one recording cycle. With a recorder capturing, a non-empty buffer
    and no request in flight, [stopRecording], the recorder's stop event and
    the settling of the consumer's promise call the consumer exactly once,
    with the whole buffer. While the consumer is running [startRecording]
    does nothing. Afterwards the buffer is empty, the hook is neither
    recording nor processing, it holds no recorder and no timer, and it has
    kept its session and its listening flag. *)
Theorem recording_cycle plat props h rid :
  recorder_active h = Some rid ->
  isProcessingRef h = false ->
  audioChunksRef h <> [] ->
  let h1 := step plat props StopRecording h in
  let h2 := step plat props (RecorderStopped rid) h1 in
  let h3 := step plat props (ConsumerSettled rid) h2 in
  (forall r, recorders h !! rid = Some r ->
     consumer_calls h3
     = Blob_new (audioChunksRef h) (rec_mimeType r) :: consumer_calls h) /\
  step plat props StartRecording h2 = h2 /\
  audioChunksRef h3 = [] /\
  isRecording h3 = false /\
  isProcessingRef h3 = false /\
  mediaRecorder h3 = None /\
  silenceTimeoutRef h3 = None /\
  same_session h h3 /\
  isListening h3 = isListening h.
Proof.
  intros Ha Hb Hne h1 h2 h3.
  destruct (lookup_recorder_active _ _ Ha) as (Hm & r & Hr & Hp).
  assert (Hlt : rid < length (recorders h)) by (eapply lookup_lt_Some; eauto).
  assert (E1 : h1 = set_trace (ERecorderStop rid :: trace h)
                 (set_recorders (<[rid := set_phase Finalizing r]> (recorders h))
                    (set_isProcessingRef true h))).
  { subst h1. unfold step, exec, handle.
    now rewrite (stopRecording_active h rid r). }
  assert (Hr1 : recorders h1 !! rid = Some (set_phase Finalizing r)).
  { rewrite E1. cbn. now apply list_lookup_insert_eq. }
  assert (Hc1 : audioChunksRef h1 = audioChunksRef h) by (now rewrite E1).
  assert (E2 : h2 = exec (set_recorder_phase rid Finished;;
                          onstop rid (set_phase Finalizing r)) h1).
  { subst h2. unfold step, exec.
    now rewrite (handle_RecorderStopped _ _ _ _ _ Hr1). }
  rewrite onstop_with_chunks in E2 by congruence.
  assert (Hr2 : recorders h2 !! rid
                = Some (set_phase Finished (set_phase Finalizing r))).
  { rewrite E2. cbn. now rewrite list_lookup_alter_eq, Hr1. }
  assert (Hw2 : rid ∈ awaiting h2) by (rewrite E2; cbn; set_solver).
  assert (Hb2 : isProcessingRef h2 = true) by (rewrite E2, E1; reflexivity).
  set (h2' := set_awaiting (list_difference (awaiting h2) [rid]) h2).
  assert (E3 : h3 = exec (onstop_resume
                            (set_phase Finished (set_phase Finalizing r))) h2').
  { subst h3. unfold step, exec.
    now rewrite (handle_ConsumerSettled _ _ _ _ _ Hr2 Hw2). }
  destruct (onstop_resume_fields
              (set_phase Finished (set_phase Finalizing r)) h2')
    as (F1 & F2 & F3 & F4 & F5 & F6 & F7 & F8 & F9 & _).
  cbv zeta in F1, F2, F3, F4, F5, F6, F7, F8, F9.
  rewrite <- E3 in F1, F2, F3, F4, F5, F6, F7, F8, F9.
  split.
  { intros r' Hr'. rewrite Hr in Hr'. injection Hr' as <-.
    rewrite F9. subst h2'. rewrite E2, Hc1, E1. reflexivity. }
  split.
  { unfold step, exec, handle. rewrite startRecording_busy; [reflexivity|].
    now rewrite Hb2. }
  repeat (split; [assumption|]).
  split.
  - eapply same_session_trans; [|exact F6].
    subst h2'. rewrite E2, E1. repeat split.
  - rewrite F8. subst h2'. rewrite E2, E1. reflexivity.
Qed.

Lemma recording_cycle_witness :
  recorder_active recording_two_chunks = Some 0%nat /\
  isProcessingRef recording_two_chunks = false /\
  audioChunksRef recording_two_chunks <> [] /\
  let h3 := step chrome default_props (ConsumerSettled 0)
              (step chrome default_props (RecorderStopped 0)
                 (step chrome default_props StopRecording
                    recording_two_chunks)) in
  audioChunksRef h3 = [] /\ isProcessingRef h3 = false.
Proof.
  assert (Ha : recorder_active recording_two_chunks = Some 0%nat)
    by (vm_compute; reflexivity).
  assert (Hb : isProcessingRef recording_two_chunks = false)
    by (vm_compute; reflexivity).
  assert (Hne : audioChunksRef recording_two_chunks <> [])
    by (vm_compute; discriminate).
  split; [exact Ha|]. split; [exact Hb|]. split; [exact Hne|].
  destruct (recording_cycle chrome default_props recording_two_chunks 0
              Ha Hb Hne) as (_ & _ & Hc & _ & Hp & _).
  cbv zeta. split; [exact Hc | exact Hp].
Defined.

(** *** [stopRecording] leaves the session alone *)

Lemma cleanup_partial_fields captured h :
  let h' := exec (cleanup captured false) h in
  same_session h h' /\ audioContextRef h' = audioContextRef h /\
  isListening h' = isListening h /\ consumer_calls h' = consumer_calls h /\
  recorders h' = recorders h.
Proof.
  destruct h as [mr isrec lis chunks busy s a t ctx recs n aw tr].
  destruct t; lazy; repeat split; reflexivity.
Qed.

(** X6: in every state [stopRecording] returns normally, releases nothing
    (same stream, context and analyser, no track stopped, no context
    closed, no permission requested), does not call the consumer and leaves
    [isListening] as it was: its full-cleanup branch is never taken. *)
Theorem stopRecording_keeps_session h :
  thrown stopRecording h = None /\
  same_session h (exec stopRecording h) /\
  audioContextRef (exec stopRecording h) = audioContextRef h /\
  isListening (exec stopRecording h) = isListening h /\
  consumer_calls (exec stopRecording h) = consumer_calls h.
Proof.
  unfold thrown, exec.
  destruct (isProcessingRef h) eqn:Hb.
  { rewrite (stopRecording_busy h Hb). repeat split. }
  destruct (recorder_active h) as [rid|] eqn:Ha.
  - destruct (lookup_recorder_active _ _ Ha) as (_ & r & Hr & Hp).
    rewrite (stopRecording_active h rid r) by assumption.
    repeat split.
  - rewrite (stopRecording_inactive h Ha Hb), cleanup_run. cbn [fst snd].
    destruct (cleanup_partial_fields (mediaRecorder h) h)
      as (F1 & F2 & F3 & F4 & _).
    auto.
Qed.

(** *** Runs of frames *)

Lemma step_Tick_unchanged_when_silent plat props d dB h :
  loudness d = Some dB ->
  Num.ltb dB (silenceThreshold props) = true ->
  isRecording h = false \/ is_Some (silenceTimeoutRef h) ->
  step plat props (Tick d) h = h.
Proof.
  intros Hd Hv Hcase. unfold step, exec, handle.
  destruct (analyserRef h) as [a|] eqn:Ha;
    [|now rewrite detectSilence_no_analyser].
  destruct (isListening h) eqn:Hl;
    [|now rewrite detectSilence_not_listening].
  rewrite (detectSilence_gate plat props d dB) by (rewrite ?Ha; eauto).
  rewrite gate_silence by assumption.
  destruct Hcase as [Hr|Ht].
  - now apply silence_detected_not_recording.
  - now apply silence_detected_armed_already.
Qed.

(** X7: silence does nothing to a hook that is not recording. Over any
    sequence of frames whose reading is below the threshold, a hook with
    [isRecording] false is left exactly as it was: no timer is scheduled,
    no recorder is started or stopped. *)
Theorem silence_leaves_idle_hook plat props frames h :
  isRecording h = false ->
  Forall (silent_under props) frames ->
  ticks plat props frames h = h.
Proof.
  intros Hr Hall. induction Hall as [|d frames (dB & Hd & Hv) _ IH].
  - reflexivity.
  - rewrite ticks_cons.
    rewrite (step_Tick_unchanged_when_silent plat props d dB) by auto.
    exact IH.
Qed.

Lemma silence_leaves_idle_hook_witness :
  isRecording listening = false /\
  Forall (silent_under default_props) [silent_frame; silent_frame] /\
  ticks chrome default_props [silent_frame; silent_frame] listening = listening.
Proof.
  assert (Hr : isRecording listening = false) by (vm_compute; reflexivity).
  assert (Hs : silent_under default_props silent_frame).
  { exists Num.NegInf. split; [exact loudness_silent | reflexivity]. }
  assert (Hall : Forall (silent_under default_props)
                        [silent_frame; silent_frame])
    by (repeat constructor; exact Hs).
  split; [exact Hr|]. split; [exact Hall|].
  exact (silence_leaves_idle_hook chrome default_props _ listening Hr Hall).
Defined.

(** X8: the countdown is started by the first silent frame and not
    restarted by the following ones. From a recording hook that is
    listening, has its analyser and has no timer, a run of silent frames
    leaves the state the first of them produced: one timeout scheduled,
    with the [silenceTimeout] of that frame's props. *)
Theorem countdown_started_once plat props d frames h :
  is_Some (analyserRef h) ->
  isListening h = true ->
  isRecording h = true ->
  silenceTimeoutRef h = None ->
  silent_under props d ->
  Forall (silent_under props) frames ->
  ticks plat props (d :: frames) h
  = set_trace (ESetTimeout (silenceTimeout props) :: trace h)
      (set_silenceTimeoutRef
         (Some (mkTimeout (silenceTimeout props) true true)) h).
Proof.
  intros Ha Hl Hr Ht (dB & Hd & Hv) Hall. rewrite ticks_cons.
  rewrite (step_Tick_silence plat props d dB) by assumption.
  rewrite silence_detected_arms by assumption.
  set (h1 := set_trace _ _).
  assert (Ht1 : is_Some (silenceTimeoutRef h1)) by (subst h1; cbn; eauto).
  clearbody h1. induction Hall as [|d' frames (dB' & Hd' & Hv') _ IH].
  - reflexivity.
  - rewrite ticks_cons.
    rewrite (step_Tick_unchanged_when_silent plat props d' dB') by auto.
    exact IH.
Qed.

Lemma countdown_started_once_witness :
  is_Some (analyserRef speaking_chunk) /\
  isRecording speaking_chunk = true /\
  silenceTimeoutRef speaking_chunk = None /\
  count_effect is_setTimeout
    (ticks chrome default_props [silent_frame; silent_frame; silent_frame]
       speaking_chunk) = 1%nat.
Proof.
  assert (Ha : is_Some (analyserRef speaking_chunk)) by (vm_compute; eauto).
  assert (Hl : isListening speaking_chunk = true) by (vm_compute; reflexivity).
  assert (Hr : isRecording speaking_chunk = true) by (vm_compute; reflexivity).
  assert (Ht : silenceTimeoutRef speaking_chunk = None)
    by (vm_compute; reflexivity).
  assert (Hs : silent_under default_props silent_frame).
  { exists Num.NegInf. split; [exact loudness_silent | reflexivity]. }
  split; [exact Ha|]. split; [exact Hr|]. split; [exact Ht|].
  rewrite (countdown_started_once chrome default_props silent_frame
             [silent_frame; silent_frame] speaking_chunk Ha Hl Hr Ht Hs)
    by (repeat constructor; exact Hs).
  vm_compute. reflexivity.
Defined.

(** X9: speech that resumes before the timeout keeps the recording going.
    On a hook that is listening and recording, with its analyser and a
    recorder capturing, a frame at or above the threshold clears the timer,
    and a timeout that fires afterwards changes nothing: the recorder is
    still capturing, no stop was requested, the hook is still recording. *)
Theorem voice_cancels_countdown plat props d dB h rid :
  is_Some (analyserRef h) ->
  isListening h = true ->
  isRecording h = true ->
  recorder_active h = Some rid ->
  loudness d = Some dB ->
  Num.ltb dB (silenceThreshold props) = false ->
  let h1 := step plat props (Tick d) h in
  let h2 := step plat props TimerFired h1 in
  silenceTimeoutRef h1 = None /\
  h2 = h1 /\
  isRecording h2 = true /\
  recorder_active h2 = Some rid /\
  count_effect is_recorderStop h2 = count_effect is_recorderStop h.
Proof.
  intros Ha Hl Hr Hact Hd Hv h1 h2.
  assert (E1 : h1 = exec clearSilenceTimeout h).
  { subst h1. rewrite (step_Tick_voice plat props d dB) by assumption.
    now apply voice_detected_recording. }
  assert (Ht1 : silenceTimeoutRef h1 = None).
  { rewrite E1. apply clearSilenceTimeout_fields. }
  assert (E2 : h2 = h1).
  { subst h2. unfold step, exec, handle, gets, mbind, M_bind. cbv beta.
    now rewrite Ht1. }
  split; [exact Ht1|]. split; [exact E2|]. rewrite E2, E1.
  destruct h as [mr isrec lis chunks busy s a t ctx recs n aw tr].
  cbn in Hr. subst isrec. destruct t; repeat split; exact Hact.
Qed.

Lemma voice_cancels_countdown_witness :
  is_Some (analyserRef pausing) /\
  isRecording pausing = true /\
  is_Some (silenceTimeoutRef pausing) /\
  recorder_active pausing = Some 0%nat /\
  let h2 := step chrome default_props TimerFired
              (step chrome default_props (Tick loud_frame) pausing) in
  isRecording h2 = true /\ recorder_active h2 = Some 0%nat.
Proof.
  assert (Ha : is_Some (analyserRef pausing)) by (vm_compute; eauto).
  assert (Hl : isListening pausing = true) by (vm_compute; reflexivity).
  assert (Hr : isRecording pausing = true) by (vm_compute; reflexivity).
  assert (Hact : recorder_active pausing = Some 0%nat)
    by (vm_compute; reflexivity).
  split; [exact Ha|]. split; [exact Hr|].
  split; [vm_compute; eauto|]. split; [exact Hact|].
  destruct (voice_cancels_countdown chrome default_props loud_frame
              (Num.Fin 0) pausing 0 Ha Hl Hr Hact loudness_loud
              default_threshold_loud) as (_ & _ & H1 & H2 & _).
  cbv zeta. split; [exact H1 | exact H2].
Defined.

(** *** What every reachable state satisfies *)

Lemma Blob_new_positive chunks ty :
  chunks <> [] ->
  Forall (fun b => (0 < size b)%N) chunks ->
  (0 < size (Blob_new chunks ty))%N.
Proof.
  intros Hne Hall. destruct Hall as [|b chunks Hb _]; [congruence|].
  unfold Blob_new. cbn. lia.
Qed.

Lemma chunks_nonempty_ondataavailable data :
  stable chunks_nonempty (ondataavailable data).
Proof.
  intros h [Hc Hk]. unfold ondataavailable.
  destruct (0 <? size data)%N eqn:Hd; [|now split].
  apply N.ltb_lt in Hd. split; [|exact Hk].
  destruct h; cbn in *. apply Forall_app. split; [exact Hc|].
  now repeat constructor.
Qed.

Lemma chunks_nonempty_cleanup captured full :
  stable chunks_nonempty (cleanup captured full).
Proof.
  intros h [Hc Hk]. split.
  - destruct full.
    + destruct (cleanup_full_torn_down captured h)
        as ((_ & _ & _ & _ & _ & _ & _ & E) & _).
      unfold exec in E. rewrite E. constructor.
    + destruct h as [mr isrec lis chunks busy s a t ctx recs n aw tr].
      destruct t; constructor.
  - revert Hk. generalize (fun b : Blob => (0 < size b)%N). intros P Hk.
    revert h Hc Hk. clear.
    assert (Hs : stable (fun h => Forall P (consumer_calls h))
                   (cleanup captured full)).
    { stable_split; unfold consumer_calls in *; cbn; assumption. }
    intros h _ Hk. exact (Hs h Hk).
Qed.

Lemma chunks_nonempty_onstop rid rec :
  stable chunks_nonempty (onstop rid rec).
Proof.
  intros h [H1 H2].
  destruct h as [mr isrec lis chunks busy s a t ctx recs n aw tr].
  cbn in H1. unfold consumer_calls in H2. cbn in H2.
  destruct chunks as [|b chunks].
  - exact (chunks_nonempty_cleanup (rec_cleanup rec) false
             (mkHook mr false lis [] busy s a t ctx recs n aw tr)
             (conj H1 H2)).
  - split; [exact H1|].
    unfold consumer_calls. cbn. constructor; [|exact H2].
    apply Blob_new_positive; [discriminate | exact H1].
Qed.

Ltac chunks_step :=
  lazymatch goal with
  | |- stable _ (ondataavailable _) => apply chunks_nonempty_ondataavailable
  | |- stable _ (onstop _ _) => apply chunks_nonempty_onstop
  | |- stable _ (cleanup _ _) => apply chunks_nonempty_cleanup
  | |- _ => stable_step
  end.

Ltac chunks_split :=
  repeat (progress unfold handle, startListening, stopListening,
            startRecording, stopRecording, detectSilence, gate,
            silence_detected, voice_detected, silenceCallback, onstop_resume,
            onerror, clearSilenceTimeout, recorder_stop, newRecorder, acquire,
            getUserMedia, getSupportedMimeType, lookup_recorder,
            set_recorder_phase
          || chunks_step).

Lemma chunks_nonempty_handle plat props ev :
  stable chunks_nonempty (handle plat props ev).
Proof.
  destruct ev; chunks_split.
  all: unfold chunks_nonempty, consumer_calls in *; cbn; try assumption.
  all: intuition constructor.
Qed.

Lemma chunks_nonempty_reach plat h : reachable plat h -> chunks_nonempty h.
Proof.
  induction 1 as [|props ev h _ IH].
  - split; constructor.
  - now apply chunks_nonempty_handle.
Qed.

(** X10: in every reachable state no buffered chunk is empty, and every
    blob the consumer was ever called with has a positive size: the
    callback never receives an empty segment. *)
Theorem consumer_never_gets_empty_segment plat h :
  reachable plat h ->
  Forall (fun b => (0 < size b)%N) (audioChunksRef h) /\
  forall b, b ∈ consumer_calls h -> (0 < size b)%N.
Proof.
  intros Hr. destruct (chunks_nonempty_reach plat h Hr) as [Hc Hk].
  split; [exact Hc|]. intros b Hb.
  rewrite Forall_forall in Hk. exact (Hk b Hb).
Qed.

Lemma consumer_never_gets_empty_segment_witness :
  reachable chrome consumer_busy /\
  consumer_calls consumer_busy = [webm 20000] /\
  (0 < size (webm 20000))%N.
Proof.
  assert (Hr : reachable chrome consumer_busy).
  { rewrite <- utterance_run. apply reachable_run, reach_initial. }
  assert (Hc : consumer_calls consumer_busy = [webm 20000])
    by (vm_compute; reflexivity).
  split; [exact Hr|]. split; [exact Hc|].
  destruct (consumer_never_gets_empty_segment chrome consumer_busy Hr)
    as [_ Hk].
  apply Hk. rewrite Hc. set_solver.
Defined.

Lemma analyser_is_built_handle plat props ev :
  stable analyser_is_built (handle plat props ev).
Proof.
  unfold analyser_is_built.
  destruct ev; stable_split; cbn; try assumption.
  all: intros ? [= <-] || intros ? [=]; reflexivity.
Qed.

(** X11: the analyser is configured once and never again. In every
    reachable state, whatever the props of the events were, the analyser
    (when there is one) has fftSize 2048, hence 1024 bins, the floor -90,
    the ceiling -10 and the smoothing constant 0.85. *)
Theorem analyser_configuration_is_fixed plat h a :
  reachable plat h ->
  analyserRef h = Some a ->
  a = createAnalyser /\ frequencyBinCount a = 1024%Z /\
  minDecibels a = (-90)%Z /\ maxDecibels a = (-10)%Z /\
  (smoothingTimeConstant a == 0.85)%Q.
Proof.
  intros Hr Ha.
  assert (Hb : analyser_is_built h).
  { clear a Ha. induction Hr as [|props ev h _ IH].
    - intros a [=].
    - now apply analyser_is_built_handle. }
  rewrite (Hb a Ha). repeat split; reflexivity.
Qed.

Lemma analyser_configuration_is_fixed_witness :
  reachable chrome consumer_busy /\
  analyserRef consumer_busy = Some createAnalyser /\
  frequencyBinCount createAnalyser = 1024%Z.
Proof.
  assert (Hr : reachable chrome consumer_busy).
  { rewrite <- utterance_run. apply reachable_run, reach_initial. }
  assert (Ha : analyserRef consumer_busy = Some createAnalyser)
    by (vm_compute; reflexivity).
  split; [exact Hr|]. split; [exact Ha|].
  exact (proj1 (proj2 (analyser_configuration_is_fixed chrome consumer_busy
                         createAnalyser Hr Ha))).
Defined.

(** X12: in every reachable state the stream, the audio context and the
    analyser are all present or all absent, and therefore [stopListening]
    returns normally: the stream it reconnects to the context is there
    whenever the context is. *)
Theorem session_resources_come_together plat h :
  reachable plat h ->
  (is_Some (streamRef h) <-> is_Some (audioContextRef h)) /\
  (is_Some (streamRef h) <-> is_Some (analyserRef h)) /\
  thrown stopListening h = None.
Proof.
  intros Hr. pose proof (session_whole_reachable plat h Hr) as Hw.
  assert (Hiff : (is_Some (streamRef h) <-> is_Some (audioContextRef h)) /\
                 (is_Some (streamRef h) <-> is_Some (analyserRef h))).
  { destruct Hw as [Hm|(-> & -> & ->)].
    - unfold session_missing in Hm.
      destruct (streamRef h), (audioContextRef h), (analyserRef h);
        try discriminate Hm.
      split; split; eauto.
    - split; split; intros [? [=]]. }
  destruct Hiff as [H1 H2]. split; [exact H1|]. split; [exact H2|].
  destruct (audioContextRef h) as [c|] eqn:Hc.
  - destruct (proj2 H1 (ltac:(eauto))) as [sid Hs].
    unfold thrown. now rewrite (stopListening_eq h sid c).
  - destruct h as [mr isrec lis chunks busy s a t ctx recs n aw tr].
    cbn in Hc. subst ctx. unfold thrown.
    destruct mr as [rid|];
      [destruct (recs !! rid) as [[[] st mt bits ts cl]|] eqn:E|];
      destruct isrec, t.
    all: try (lazy in E; lazy; repeat (rewrite E; lazy)).
    all: lazy; reflexivity.
Qed.

Lemma session_resources_come_together_witness :
  reachable chrome consumer_busy /\
  thrown stopListening consumer_busy = None.
Proof.
  assert (Hr : reachable chrome consumer_busy).
  { rewrite <- utterance_run. apply reachable_run, reach_initial. }
  split; [exact Hr|].
  exact (proj2 (proj2 (session_resources_come_together chrome consumer_busy Hr))).
Defined.

(** *** No stream is left behind *)

Lemma cleanup_trace captured full h :
  let h' := exec (cleanup captured full) h in
  requests h' = requests h /\
  (forall e, e ∈ trace h -> e ∈ trace h') /\
  (if full
   then streamRef h' = None /\
        forall sid, streamRef h = Some sid -> EStopTracks sid ∈ trace h'
   else streamRef h' = streamRef h /\
        audioContextRef h' = audioContextRef h /\
        analyserRef h' = analyserRef h).
Proof.
  destruct h as [mr isrec lis chunks busy s a t ctx recs n aw tr].
  destruct full;
    [destruct captured as [cap|]; [destruct (recs !! cap) eqn:E|];
     destruct t, ctx, s
    |destruct t].
  all: try (lazy in E; lazy -[elem_of]; rewrite E).
  all: lazy -[elem_of]; repeat split; try reflexivity.
  all: try (intros sid [= <-]); try (intros ? [=]); try intros e He.
  all: set_solver.
Qed.

Lemma leak_inv_cleanup plat captured full :
  stable (leak_inv plat) (cleanup captured full).
Proof.
  intros h (H1 & H2 & H3).
  destruct (cleanup_trace captured full h) as (Hreq & Hsub & Hfull).
  cbv zeta in Hreq, Hsub, Hfull. unfold exec in Hreq, Hsub, Hfull.
  unfold leak_inv, no_stream_leaked, session_missing in *.
  rewrite Hreq. destruct full.
  - destruct Hfull as [Hs Hstop]. rewrite Hs.
    split; [reflexivity|]. split; [discriminate|].
    intros sid Hlt Hp. right.
    destruct (H3 sid Hlt Hp) as [Hcur|Hold]; auto.
  - destruct Hfull as (-> & -> & ->).
    split; [exact H1|]. split; [exact H2|].
    intros sid Hlt Hp. destruct (H3 sid Hlt Hp); auto.
Qed.

Lemma leak_inv_acquire plat h :
  leak_inv plat h ->
  session_missing h = true ->
  leak_inv plat (snd (acquire plat h)).
Proof.
  intros (H1 & H2 & H3) Hm. specialize (H1 Hm).
  destruct h as [mr isrec lis chunks busy s a t ctx recs n aw tr].
  cbn in H1. subst s.
  unfold acquire, getUserMedia, gets, modify, emit, throw, mbind, M_bind,
    mret, M_ret. cbv beta. cbn [requests].
  unfold leak_inv, no_stream_leaked in *. cbn in H3.
  destruct (permission plat n) eqn:Hp; cbn.
  - split; [discriminate|]. split; [intros sid [= <-]; lia|].
    intros sid Hlt Hg. destruct (decide (sid = n)) as [->|Hne]; [now left|].
    right. destruct (H3 sid ltac:(lia) Hg) as [[=]|Hold]. set_solver.
  - split; [reflexivity|]. split; [discriminate|].
    intros sid Hlt Hg. destruct (decide (sid = n)) as [->|Hne]; [congruence|].
    right. destruct (H3 sid ltac:(lia) Hg) as [[=]|Hold]. set_solver.
Qed.

Lemma leak_inv_acquire_then plat {A} (rest : M A) :
  stable (leak_inv plat) rest ->
  stable (leak_inv plat)
    (gets (session_missing) ≫= fun missing =>
       when missing (acquire plat) ≫= fun _ => rest).
Proof.
  intros Hrest h Hh. unfold gets, mbind, M_bind at 1. cbv beta.
  destruct (session_missing h) eqn:Hm; cbn [when].
  - pose proof (leak_inv_acquire plat h Hh Hm) as Ha.
    unfold mbind, M_bind. destruct (acquire plat h) as [[[]|e] h1]; cbn in *.
    + now apply Hrest.
    + exact Ha.
  - unfold mbind, M_bind, mret, M_ret. now apply Hrest.
Qed.

Lemma leak_inv_acquire_else plat {A} (other : M unit) (rest : M A) :
  stable (leak_inv plat) other ->
  stable (leak_inv plat) rest ->
  stable (leak_inv plat)
    (gets (session_missing) ≫= fun missing =>
       (if missing : bool then acquire plat else other) ≫= fun _ => rest).
Proof.
  intros Hother Hrest h Hh. unfold gets, mbind, M_bind at 1. cbv beta.
  destruct (session_missing h) eqn:Hm.
  - pose proof (leak_inv_acquire plat h Hh Hm) as Ha.
    unfold mbind, M_bind. destruct (acquire plat h) as [[[]|e] h1]; cbn in *.
    + now apply Hrest.
    + exact Ha.
  - now apply stable_bind.
Qed.

Ltac leak_step :=
  lazymatch goal with
  | |- stable _ (cleanup _ _) => apply leak_inv_cleanup
  | |- stable _ (gets session_missing ≫= _) =>
      first [apply leak_inv_acquire_then | apply leak_inv_acquire_else]
  | |- _ => stable_step
  end.

Ltac leak_split :=
  repeat (progress unfold handle, startListening, stopListening,
            startRecording, stopRecording, detectSilence, gate,
            silence_detected, voice_detected, silenceCallback, onstop,
            onstop_resume, onerror, ondataavailable, clearSilenceTimeout,
            recorder_stop, newRecorder, getSupportedMimeType,
            lookup_recorder, set_recorder_phase
          || leak_step).

Ltac leak_leaf :=
  match goal with
  | H : leak_inv _ ?h |- _ =>
      destruct H as (H1 & H2 & H3);
      unfold leak_inv, no_stream_leaked, session_missing in *; cbn in *;
      split; [|split; [exact H2|]];
      [ destruct (streamRef h), (audioContextRef h), (analyserRef h);
        cbn in *; auto
      | intros sid Hlt Hp; destruct (H3 sid Hlt Hp); [now left | right];
        set_solver ]
  end.

Lemma leak_inv_handle plat props ev :
  stable (leak_inv plat) (handle plat props ev).
Proof.
  destruct ev; leak_split; try leak_leaf.
Qed.

(** *** Start calls that wait for their stream *)

(** A start call run in one step is its beginning followed at once by its
    settlement: [handle] is the run of [async_step] in which nothing comes
    between the two. *)
Lemma start_call_splits plat props ev caller h :
  begins ev h = Some caller ->
  handle plat props ev h = (begin caller ≫= settle plat) h.
Proof.
  intros Hb.
  destruct h as [mr isrec lis chunks busy s a t ctx recs n aw tr].
  destruct ev; try discriminate Hb; cbn in Hb.
  - destruct (session_missing _) eqn:Hm; [|discriminate Hb].
    injection Hb as <-.
    unfold handle, startListening, begin, settle, acquire, getUserMedia,
      session_setup, try_catch, gets, modify, emit, throw, mbind, M_bind,
      mret, M_ret.
    cbv beta. rewrite Hm. cbn.
    destruct (permission plat n); reflexivity.
  - destruct busy; [discriminate Hb|]. destruct isrec; [discriminate Hb|].
    cbn in Hb.
    destruct (session_missing _) eqn:Hm; [|discriminate Hb].
    injection Hb as <-.
    unfold handle, startRecording, begin, settle, startRecording_tail, acquire,
      getUserMedia, session_setup, try_catch, when, gets, modify, emit, throw,
      mbind, M_bind, mret, M_ret.
    cbv beta. cbn [isProcessingRef isRecording orb mediaRecorder].
    change (session_missing
              (set_isProcessingRef true
                 (mkHook mr false lis chunks false s a t ctx recs n aw tr)))
      with (session_missing
              (mkHook mr false lis chunks false s a t ctx recs n aw tr)).
    rewrite Hm. cbn -[getSupportedMimeType newRecorder cleanup].
    destruct (permission plat n); reflexivity.
Qed.

Lemma begin_waiting plat ev caller h :
  session_whole h -> leak_inv plat h ->
  begins ev h = Some caller ->
  exists h',
    begin caller h
    = (Ok (mkAcquisition (requests h) caller (mediaRecorder h)), h') /\
    waiting_for plat (requests h) h'.
Proof.
  intros Hw (_ & _ & Hleak) Hb.
  assert (Hm : session_missing h = true).
  { destruct ev; try discriminate Hb; cbn in Hb.
    - destruct (session_missing h); [reflexivity | discriminate Hb].
    - destruct (isProcessingRef h || isRecording h); [discriminate Hb|].
      destruct (session_missing h); [reflexivity | discriminate Hb]. }
  destruct Hw as [Hw|(Hs & Hc & Ha)]; [congruence|].
  destruct h as [mr isrec lis chunks busy s a t ctx recs n aw tr].
  cbn in Hs, Hc, Ha, Hleak |- *. subst s ctx a.
  destruct caller; eexists; (split; [reflexivity|]).
  all: repeat split; cbn.
  all: intros sid Hlt Hp; destruct (Hleak sid Hlt Hp) as [[=]|Hold].
  all: set_solver.
Qed.

Ltac waiting_leaf :=
  match goal with
  | H : waiting_for _ _ ?h |- _ =>
      destruct H as (H1 & H2 & H3 & H4 & H5);
      unfold waiting_for; cbn in *;
      repeat split;
      try assumption; try reflexivity;
      try (intros sid Hlt Hp; specialize (H5 sid Hlt Hp); set_solver)
  end.

(** What does not start a session keeps a waiting hook waiting. *)
Lemma waiting_step plat props ev n h :
  waiting_for plat n h ->
  begins ev h = None ->
  waiting_for plat n (step plat props ev h).
Proof.
  intros Hw Hb. pose proof Hw as (Hs & Hc & Ha & Hn & Hold).
  assert (Hm : session_missing h = true).
  { unfold session_missing. now rewrite Hs. }
  unfold step, exec. destruct ev.
  - cbn in Hb. rewrite Hm in Hb. discriminate Hb.
  - destruct h as [mr isrec lis chunks busy s a t ctx recs k aw tr].
    cbn in Hs, Hc, Ha, Hn, Hold. subst s ctx a k.
    destruct mr as [rid|];
      [destruct (recs !! rid) as [[[] st mt bits ts cl]|] eqn:E|];
      destruct isrec, t.
    all: try (lazy in E; lazy -[elem_of]; repeat (rewrite E; lazy -[elem_of])).
    all: lazy -[elem_of]; repeat split; try reflexivity.
    all: intros sid Hlt Hp; specialize (Hold sid Hlt Hp); set_solver.
  - cbn in Hb. rewrite Hm in Hb.
    destruct (isProcessingRef h || isRecording h) eqn:Hbusy;
      [|discriminate Hb].
    cbn [handle]. now rewrite startRecording_busy.
  - revert h Hw Hb Hs Hc Ha Hn Hold Hm.
    assert (Hst : stable (waiting_for plat n) (handle plat props StopRecording)).
    { stable_split; waiting_leaf. }
    intros h Hw _ _ _ _ _ _ _. now apply Hst.
  - cbn [handle]. now rewrite detectSilence_no_analyser.
  - revert h Hw Hb Hs Hc Ha Hn Hold Hm.
    assert (Hst : stable (waiting_for plat n) (handle plat props TimerFired)).
    { stable_split; waiting_leaf. }
    intros h Hw _ _ _ _ _ _ _. now apply Hst.
  - revert h Hw Hb Hs Hc Ha Hn Hold Hm.
    assert (Hst : stable (waiting_for plat n)
                    (handle plat props (DataAvailable rid data))).
    { stable_split; waiting_leaf. }
    intros h Hw _ _ _ _ _ _ _. now apply Hst.
  - revert h Hw Hb Hs Hc Ha Hn Hold Hm.
    assert (Hst : stable (waiting_for plat n)
                    (handle plat props (RecorderStopped rid))).
    { stable_split; waiting_leaf. }
    intros h Hw _ _ _ _ _ _ _. now apply Hst.
  - revert h Hw Hb Hs Hc Ha Hn Hold Hm.
    assert (Hst : stable (waiting_for plat n)
                    (handle plat props (ConsumerSettled rid))).
    { stable_split; waiting_leaf. }
    intros h Hw _ _ _ _ _ _ _. now apply Hst.
  - revert h Hw Hb Hs Hc Ha Hn Hold Hm.
    assert (Hst : stable (waiting_for plat n)
                    (handle plat props (RecorderError rid))).
    { stable_split; waiting_leaf. }
    intros h Hw _ _ _ _ _ _ _. now apply Hst.
  - cbn [handle]. unfold gets, mbind, M_bind. cbv beta. rewrite Hc. exact Hw.
Qed.

Lemma waiting_refused plat n h :
  waiting_for plat n h -> permission plat n = false ->
  session_whole h /\ leak_inv plat h.
Proof.
  intros (Hs & Hc & Ha & Hn & Hold) Hp.
  split; [right; auto|].
  unfold leak_inv, no_stream_leaked. rewrite Hs, Hn.
  split; [reflexivity|]. split; [discriminate|].
  intros sid Hlt Hg. right. apply Hold; [|exact Hg].
  destruct (decide (sid = n)) as [->|Hne]; [congruence | lia].
Qed.

Lemma waiting_granted plat n h :
  waiting_for plat n h -> permission plat n = true ->
  session_setup n h = (Ok tt, exec (session_setup n) h) /\
  session_whole (exec (session_setup n) h) /\
  leak_inv plat (exec (session_setup n) h).
Proof.
  intros (Hs & Hc & Ha & Hn & Hold) Hp.
  destruct h as [mr isrec lis chunks busy s a t ctx recs k aw tr].
  cbn in Hs, Hc, Ha, Hn, Hold. subst s ctx a k.
  split; [reflexivity|]. split; [left; reflexivity|].
  unfold leak_inv, no_stream_leaked. lazy -[elem_of lt].
  split; [discriminate|]. split; [intros sid [= <-]; lia|].
  intros sid Hlt Hg. destruct (decide (sid = n)) as [->|Hne]; [now left|].
  right. specialize (Hold sid ltac:(lia) Hg). set_solver.
Qed.

Lemma session_whole_tail plat captured :
  stable session_whole (startRecording_tail plat captured).
Proof. unfold startRecording_tail. session_split; cbn; assumption. Qed.

Lemma leak_inv_tail plat captured :
  stable (leak_inv plat) (startRecording_tail plat captured).
Proof. unfold startRecording_tail. leak_split; try leak_leaf. Qed.

(** The settlement of the only waiting call restores the invariants of a
    hook on which nobody waits. *)
Lemma settle_waiting plat a h :
  waiting_for plat (acq_request a) h ->
  session_whole (exec (settle plat a) h) /\
  leak_inv plat (exec (settle plat a) h).
Proof.
  intros Hw. destruct a as [n caller captured]. cbn [acq_request] in Hw.
  assert (Hrest : forall I : Hook -> Prop,
            (forall c full, stable I (cleanup c full)) ->
            stable I (startRecording_tail plat captured) ->
            (forall h, I h -> I (set_isListening true h)) ->
            stable I
              (try_catch
                 match caller with
                 | ByStartListening => modify (set_isListening true)
                 | ByStartRecording => startRecording_tail plat captured
                 end
                 (fun error => cleanup captured true;; throw error))).
  { intros I Hclean Htail Hlis. apply stable_try_catch.
    - destruct caller; [now apply stable_modify | exact Htail].
    - intros e. apply stable_bind; [apply Hclean | intros; apply stable_throw]. }
  assert (Hlw : forall h, session_whole h -> session_whole (set_isListening true h)).
  { intros h0 Hh0. exact Hh0. }
  assert (Hll : forall h, leak_inv plat h -> leak_inv plat (set_isListening true h)).
  { intros h0 Hh0. exact Hh0. }
  unfold exec, settle. cbn [acq_request acq_caller acq_cleanup].
  destruct (permission plat n) eqn:Hp.
  - destruct (waiting_granted plat n h Hw Hp) as (Heq & Hwhole & Hleak).
    unfold try_catch, mbind, M_bind at 1. rewrite Heq.
    split.
    + exact (Hrest session_whole (session_whole_cleanup)
               (session_whole_tail plat captured) Hlw _ Hwhole).
    + exact (Hrest (leak_inv plat) (leak_inv_cleanup plat)
               (leak_inv_tail plat captured) Hll _ Hleak).
  - destruct (waiting_refused plat n h Hw Hp) as (Hwhole & Hleak).
    unfold try_catch, mbind, M_bind at 1, throw. cbv beta iota.
    split.
    + assert (Hst : stable session_whole
                      (cleanup captured true;; throw (A:=unit) NotAllowedError)).
      { apply stable_bind; [apply session_whole_cleanup|].
        intros; apply stable_throw. }
      exact (Hst _ Hwhole).
    + assert (Hst : stable (leak_inv plat)
                      (cleanup captured true;; throw (A:=unit) NotAllowedError)).
      { apply stable_bind; [apply leak_inv_cleanup|].
        intros; apply stable_throw. }
      exact (Hst _ Hleak).
Qed.

Lemma serial_inv_holds plat s : serial plat s -> serial_inv plat s.
Proof.
  induction 1 as [|props ev s _ IH Hone|k s _ IH].
  - split; [right; repeat split|].
    split; [reflexivity|]. split; [discriminate|].
    intros sid Hlt. cbn in Hlt. lia.
  - destruct s as [h p]. unfold serial_inv in IH |- *. cbn in *.
    destruct (begins ev h) as [caller|] eqn:Hb.
    + rewrite (Hone ltac:(eauto)) in IH |- *. destruct IH as [Hw Hl].
      destruct (begin_waiting plat ev caller h Hw Hl Hb) as (h' & -> & Hw').
      exact Hw'.
    + cbn. destruct p as [|a [|b p]]; [|now apply waiting_step|exact IH].
      destruct IH as [Hw Hl]. split.
      * now apply session_whole_handle.
      * now apply leak_inv_handle.
  - destruct s as [h p]. unfold serial_inv in IH |- *. cbn in *.
    destruct p as [|a [|b p]]; [now destruct k| |destruct IH].
    destruct k as [|k]; cbn; [|exact IH].
    now apply settle_waiting.
Qed.

Lemma serial_inv_accounted plat s :
  serial_inv plat s -> streams_accounted plat s.
Proof.
  destruct s as [h p]. unfold serial_inv, streams_accounted. cbn.
  destruct p as [|a [|b p]]; [| |contradiction].
  - intros (_ & _ & Hin & Hall). split.
    + intros sid Hs. split; [now apply Hin | set_solver].
    + intros sid Hlt Hp _. now apply Hall.
  - intros (Hs & _ & _ & Hn & Hold). rewrite Hs, Hn. split; [discriminate|].
    intros sid Hlt Hp Hnot. right. apply Hold; [|exact Hp].
    assert (sid <> acq_request a) by set_solver. lia.
Qed.

(** With its session in place a start of recording asks for no stream, and
    so does a monitoring frame in any state whose session is whole. *)
Lemma startRecording_present plat h :
  session_missing h = false ->
  requests (exec (startRecording plat) h) = requests h.
Proof.
  destruct plat as [sup perm].
  destruct h as [mr isrec lis chunks busy s a t ctx recs n aw tr].
  unfold session_missing. cbn. intros Hm.
  destruct s as [sid|], ctx as [c|], a as [an|]; try discriminate Hm.
  unfold exec. destruct busy, isrec; try reflexivity.
  destruct (List.find sup types) as [ty|] eqn:Hf.
  all: lazy -[List.find types cleanup exec]; rewrite ?Hf;
    lazy -[List.find types cleanup exec].
  - reflexivity.
  - rewrite cleanup_run. cbn [snd].
    match goal with
    | |- context [exec (cleanup ?c true) ?h0] =>
        exact (proj1 (cleanup_trace c true h0))
    end.
Qed.

Lemma requests_clearSilenceTimeout n :
  stable (fun h => requests h = n) clearSilenceTimeout.
Proof. stable_split; cbn; assumption. Qed.

Lemma requests_silence_detected props n :
  stable (fun h => requests h = n) (silence_detected props).
Proof. stable_split; cbn; assumption. Qed.

Lemma tick_makes_no_request plat props dataArray h :
  session_whole h ->
  requests (step plat props (Tick dataArray) h) = requests h.
Proof.
  intros Hw. unfold step, exec. cbn [handle].
  destruct (analyserRef h) as [a|] eqn:Ha;
    [|now rewrite detectSilence_no_analyser].
  assert (Hm : session_missing h = false).
  { destruct Hw as [Hm|(_ & _ & Hn)]; [exact Hm | congruence]. }
  destruct (isListening h) eqn:Hl;
    [|now rewrite detectSilence_not_listening].
  destruct (loudness dataArray) as [dB|] eqn:Hd.
  2:{ unfold detectSilence, gets, mbind, M_bind. cbv beta.
      now rewrite Ha, Hl, Hd. }
  rewrite (detectSilence_gate plat props dataArray dB)
    by (rewrite ?Ha; eauto).
  unfold gate. destruct (Num.ltb dB (silenceThreshold props)).
  - now apply (requests_silence_detected props (requests h)).
  - fold (exec (voice_detected plat) h).
    destruct (clearSilenceTimeout_fields h) as (_ & _ & _ & _ & Hm0 & _).
    cbv zeta in Hm0.
    pose proof (requests_clearSilenceTimeout (requests h) h eq_refl) as Hr0.
    fold (exec clearSilenceTimeout h) in Hr0.
    destruct (isRecording h) eqn:Hr.
    + now rewrite voice_detected_recording.
    + rewrite voice_detected_armed by assumption.
      rewrite startRecording_present by congruence. exact Hr0.
Qed.

Lemma begin_returns caller h :
  exists a h', begin caller h = (Ok a, h').
Proof. destruct caller; eexists; eexists; reflexivity. Qed.

(** Every state [handle] reaches is reached by a serial run, each start
    call being answered before the next event. *)
Lemma reachable_serial plat h :
  reachable plat h -> serial plat (mkAsync h []).
Proof.
  induction 1 as [|props ev h _ IH]; [apply serial_initial|].
  destruct (begins ev h) as [caller|] eqn:Hb.
  - destruct (begin_returns caller h) as (a & h' & Hbegin).
    assert (E : mkAsync (step plat props ev h) []
                = async_step plat (Settles 0)
                    (async_step plat (Deliver props ev) (mkAsync h []))).
    { cbn [async_step hook pending]. rewrite Hb, Hbegin.
      cbn [hook pending app lookup list_lookup delete list_delete].
      unfold step, exec. rewrite (start_call_splits plat props ev caller h Hb).
      unfold mbind, M_bind at 1. now rewrite Hbegin. }
    rewrite E. apply serial_settles, serial_deliver; [exact IH | reflexivity].
  - assert (E : mkAsync (step plat props ev h) []
                = async_step plat (Deliver props ev) (mkAsync h [])).
    { cbn [async_step hook pending]. now rewrite Hb. }
    rewrite E. apply serial_deliver; [exact IH | reflexivity].
Qed.

(** The session is whole in every state, serial or not, so that a frame
    never reaches [getUserMedia]: the only calls that wait are the start
    calls [begins] names. *)
Lemma async_session_whole plat s :
  async_reachable plat s -> session_whole (hook s).
Proof.
  induction 1 as [|e s _ IH]; [right; repeat split|].
  destruct s as [h p]. cbn in IH. destruct e as [props ev|k]; cbn.
  - destruct (begins ev h) as [caller|] eqn:Hb.
    + destruct (begin_returns caller h) as (a & h' & Hbegin).
      pose proof Hbegin as Hh'. rewrite Hbegin. cbn.
      assert (Hst : stable session_whole (begin caller)).
      { unfold begin. destruct caller; stable_split; cbn; assumption. }
      specialize (Hst h IH). now rewrite Hh' in Hst.
    + cbn. now apply session_whole_handle.
  - destruct (p !! k) as [a|]; [cbn | exact IH].
    destruct a as [n caller captured]. unfold exec, settle.
    cbn [acq_request acq_caller acq_cleanup].
    assert (Hst : stable session_whole
              (try_catch
                 match caller with
                 | ByStartListening => modify (set_isListening true)
                 | ByStartRecording => startRecording_tail plat captured
                 end
                 (fun error => cleanup captured true;; throw error))).
    { apply stable_try_catch.
      - destruct caller; [|apply session_whole_tail].
        apply stable_modify. intros h0 Hh0. exact Hh0.
      - intros e. apply stable_bind; [apply session_whole_cleanup|].
        intros; apply stable_throw. }
    destruct (permission plat n).
    + unfold try_catch, mbind, M_bind at 1.
      change (session_setup n h) with (Ok tt, exec (session_setup n) h).
      apply Hst. left.
      destruct h as [mr isrec lis chunks busy s a t ctx recs m aw tr].
      reflexivity.
    + unfold try_catch, mbind, M_bind at 1, throw. cbv beta iota.
      assert (Hst' : stable session_whole
                       (cleanup captured true;; throw (A:=unit) NotAllowedError)).
      { apply stable_bind; [apply session_whole_cleanup|].
        intros; apply stable_throw. }
      exact (Hst' _ IH).
Qed.

Lemma frame_makes_no_request plat props dataArray s :
  async_reachable plat s ->
  requests (hook (async_step plat (Deliver props (Tick dataArray)) s))
  = requests (hook s).
Proof.
  intros Hr. cbn. apply tick_makes_no_request.
  exact (async_session_whole plat s Hr).
Qed.

Lemma serial_async_reachable plat s : serial plat s -> async_reachable plat s.
Proof. induction 1; now constructor. Qed.

(** X13: no microphone stream is left behind as long as start calls do not
    overlap. In every state reached by events among which no start call
    reaches its [await getUserMedia] while another one is waiting there,
    each stream whose request has been answered is either the one held in
    [streamRef] or has had its tracks stopped, and the stream held is one
    the platform handed out. Events of any other kind come between a
    request and its answer freely. *)
Theorem no_stream_is_leaked plat s :
  serial plat s -> streams_accounted plat s.
Proof.
  intros Hs. now apply serial_inv_accounted, serial_inv_holds.
Qed.

Lemma no_stream_is_leaked_witness :
  serial chrome (async_run chrome serial_session async_initial) /\
  streams_accounted chrome (async_run chrome serial_session async_initial).
Proof.
  assert (Hs : serial chrome (async_run chrome serial_session async_initial)).
  { unfold serial_session, async_run. cbn [fold_left].
    apply serial_deliver; [|intros _; vm_compute; reflexivity].
    apply serial_deliver; [|intros [c Hc]; vm_compute in Hc; discriminate Hc].
    apply serial_settles.
    apply serial_deliver; [|intros _; reflexivity].
    apply serial_initial. }
  split; [exact Hs|].
  exact (no_stream_is_leaked chrome _ Hs).
Defined.

(** X27: overlapping start calls leak a stream. On a hook without a session
    and with nobody waiting, two [startListening] calls made before the
    first request is answered each get a stream when the microphone is
    granted; the second answer overwrites [streamRef], and the stream of
    the first is neither held nor stopped, while nobody waits any more. *)
Theorem overlapping_starts_leak_a_stream plat props h :
  session_missing h = true ->
  permission plat (requests h) = true ->
  permission plat (S (requests h)) = true ->
  (EStopTracks (requests h) ∉ trace h) ->
  let s :=
    async_run plat
      [Deliver props StartListening; Deliver props StartListening;
       Settles 0; Settles 0]
      (mkAsync h []) in
  pending s = [] /\
  isListening (hook s) = true /\
  streamRef (hook s) = Some (S (requests h)) /\
  (EStopTracks (requests h) ∉ trace (hook s)) /\
  ~ streams_accounted plat s.
Proof.
  intros Hm Hp0 Hp1 Hnot.
  destruct h as [mr isrec lis chunks busy s a t ctx recs n aw tr].
  cbn [requests trace] in Hp0, Hp1, Hnot.
  unfold session_missing in Hm. cbn in Hm.
  assert (Hfinal : EStopTracks n ∉
                     EConnectSource (S n) :: EConnectSource n
                     :: EGetUserMedia :: EGetUserMedia :: tr).
  { rewrite !not_elem_of_cons. repeat split; (discriminate || exact Hnot). }
  cbv zeta. unfold async_run. cbn [fold_left].
  destruct s as [sid0|], ctx as [c0|], a as [a0|]; try discriminate Hm.
  all: lazy -[elem_of permission streams_accounted not]; rewrite Hp0.
  all: lazy -[elem_of permission streams_accounted not]; rewrite Hp1.
  all: lazy -[elem_of permission streams_accounted not].
  all: repeat split; try exact Hfinal.
  all: intros (_ & Hall); cbn -[elem_of] in Hall.
  all: destruct (Hall n ltac:(lia) Hp0 ltac:(set_solver)) as [[= Heq]|Hin];
    [lia | contradiction].
Qed.

Lemma overlapping_starts_leak_a_stream_witness :
  let s := async_run chrome overlapping_starts async_initial in
  async_reachable chrome s /\
  pending s = [] /\
  streamRef (hook s) = Some 1%nat /\
  (EStopTracks 0%nat ∉ trace (hook s)) /\
  ~ streams_accounted chrome s.
Proof.
  intros s.
  assert (Hr : async_reachable chrome s).
  { subst s. unfold overlapping_starts, async_run. cbn [fold_left].
    do 4 constructor. constructor. }
  destruct (overlapping_starts_leak_a_stream chrome default_props initial)
    as (Hp & _ & Hs & Hn & Hleak);
    [reflexivity | reflexivity | reflexivity | cbn; set_solver |].
  split; [exact Hr|]. split; [exact Hp|]. split; [exact Hs|].
  split; [exact Hn | exact Hleak].
Defined.

(* ------------------------------------------------------------------ *)
(** ** The translation route *)

(** *** [withRetry] *)

(** Everything about one call of [withRetry] with enough fuel: it ends, it
    waits the doubling delays from [retryCount] on, it ends as the last
    attempt settled, every earlier attempt was rejected with a retryable
    error, and a rejection ends it only when it is not retryable or the
    budget is used up. *)
Lemma withRetry_fuel_spec {T} (operation : nat -> Route.Settled T) fuel :
  forall called retryCount,
  (Route.MAX_RETRIES - retryCount <= fuel)%nat ->
  let r := Route.withRetry_fuel fuel operation called retryCount in
  Route.outcome r = Some (operation (called + Route.retries r)%nat) /\
  (Route.retries r <= Route.MAX_RETRIES - retryCount)%nat /\
  Route.delays r =
    map Route.retry_delay (seq retryCount (Route.retries r)) /\
  (forall j, (j < Route.retries r)%nat ->
     exists error, operation (called + j)%nat = Route.Rejected error /\
                   Route.retryable error = true) /\
  (forall error,
     operation (called + Route.retries r)%nat = Route.Rejected error ->
     Route.retryable error = false \/
     (Route.MAX_RETRIES <= retryCount + Route.retries r)%nat).
Proof.
  induction fuel as [|fuel IH]; intros called rc Hfuel; cbn zeta;
    cbn [Route.withRetry_fuel];
    destruct (operation called) as [v|e] eqn:Eop.
  1,3: cbn; rewrite Nat.add_0_r, Eop;
       repeat split; try lia; try easy; intros j Hj; lia.
  - destruct (Route.MAX_RETRIES <=? rc)%nat eqn:Emax.
    2:{ apply Nat.leb_gt in Emax. lia. }
    apply Nat.leb_le in Emax.
    cbn. rewrite Nat.add_0_r, Eop. repeat split; try lia; try easy.
    all: try (intros j Hj; lia).
    all: try (intros _ _; right; lia).
  - destruct (Route.MAX_RETRIES <=? rc)%nat eqn:Emax.
    { apply Nat.leb_le in Emax.
      cbn. rewrite Nat.add_0_r, Eop. repeat split; try lia; try easy.
      all: try (intros j Hj; lia).
      all: try (intros _ _; right; lia). }
    apply Nat.leb_gt in Emax.
    destruct (Route.retryable e) eqn:Eretry.
    2:{ cbn. rewrite Nat.add_0_r, Eop. repeat split; try lia; try easy.
        all: try (intros j Hj; lia).
        all: try (intros e' [= <-]; now left). }
    destruct (IH (S called) (S rc) ltac:(lia)) as (Ho & Hb & Hd & Hj & Hl).
    set (r := Route.withRetry_fuel fuel operation (S called) (S rc)) in *.
    unfold Route.retries in *. cbn [Route.outcome Route.delays length].
    replace (called + S (length (Route.delays r)))%nat
      with (S called + length (Route.delays r))%nat by lia.
    repeat split.
    + exact Ho.
    + lia.
    + cbn [seq map]. f_equal. exact Hd.
    + intros [|j] Hlt.
      * exists e. now rewrite Nat.add_0_r.
      * replace (called + S j)%nat with (S called + j)%nat by lia.
        apply Hj. lia.
    + intros e' He'. destruct (Hl e' He'); [now left | right; lia].
Qed.

Lemma withRetry_spec {T} (operation : nat -> Route.Settled T) retryCount :
  let r := Route.withRetry operation retryCount in
  Route.outcome r = Some (operation (Route.retries r)) /\
  (Route.retries r <= Route.MAX_RETRIES - retryCount)%nat /\
  Route.delays r =
    map Route.retry_delay (seq retryCount (Route.retries r)) /\
  (forall j, (j < Route.retries r)%nat ->
     exists error, operation j = Route.Rejected error /\
                   Route.retryable error = true) /\
  (forall error,
     operation (Route.retries r) = Route.Rejected error ->
     Route.retryable error = false \/
     (Route.MAX_RETRIES <= retryCount + Route.retries r)%nat).
Proof.
  exact (withRetry_fuel_spec operation (Route.MAX_RETRIES - retryCount)
           0%nat retryCount (Nat.le_refl _)).
Qed.

Lemma retry_delay_sum n :
  (n <= 3)%nat ->
  (fold_right Z.add 0%Z (map Route.retry_delay (seq 0 n)) <= 7000)%Z.
Proof.
  intros Hn.
  destruct n as [|[|[|[|n]]]]; try lia; vm_compute; discriminate.
Qed.

(** X14: [withRetry] always ends, after at most [MAX_RETRIES - retryCount]
    waits; the waits are the doubling delays 1000 * 2^k for the consecutive
    counts k from [retryCount] on; called as the handler calls it (from 0),
    it never waits more than 7000 ms in all. *)
Theorem withRetry_ends_within_budget {T}
    (operation : nat -> Route.Settled T) retryCount :
  Route.outcome (Route.withRetry operation retryCount) <> None /\
  (Route.retries (Route.withRetry operation retryCount)
     <= Route.MAX_RETRIES - retryCount)%nat /\
  Route.delays (Route.withRetry operation retryCount) =
    map Route.retry_delay
        (seq retryCount
             (Route.retries (Route.withRetry operation retryCount))) /\
  (Route.waited (Route.withRetry operation 0) <= 7000)%Z.
Proof.
  destruct (withRetry_spec operation retryCount) as (Ho & Hb & Hd & _).
  destruct (withRetry_spec operation 0) as (_ & Hb0 & Hd0 & _).
  repeat split.
  - now rewrite Ho.
  - exact Hb.
  - exact Hd.
  - unfold Route.waited. rewrite Hd0. apply retry_delay_sum.
    unfold Route.MAX_RETRIES in Hb0. lia.
Qed.

(** X15: the result of [withRetry] is the settlement of its last attempt:
    the value it resolved with, or the error it was rejected with (never an
    earlier one). Every attempt before the last was rejected with an error
    the retry condition accepts, and a rejected last attempt means that its
    error is not one to retry or that the retry count has reached
    [MAX_RETRIES]. *)
Theorem withRetry_settles_as_last_attempt {T}
    (operation : nat -> Route.Settled T) retryCount :
  let r := Route.withRetry operation retryCount in
  Route.outcome r = Some (operation (Route.retries r)) /\
  (forall j, (j < Route.retries r)%nat ->
     exists error, operation j = Route.Rejected error /\
                   Route.retryable error = true) /\
  (forall error,
     operation (Route.retries r) = Route.Rejected error ->
     Route.retryable error = false \/
     (Route.MAX_RETRIES <= retryCount + Route.retries r)%nat).
Proof.
  destruct (withRetry_spec operation retryCount) as (Ho & _ & _ & Hj & Hl).
  cbn zeta. repeat split; assumption.
Qed.

(** X16: transient failures are hidden from the caller. When the first [k]
    attempts (k at most [MAX_RETRIES]) fail with retryable errors and the
    next one succeeds, [withRetry] returns the value of that attempt, after
    the first [k] doubling delays. *)
Theorem withRetry_hides_transient_failures {T}
    (operation : nat -> Route.Settled T) k value :
  (k <= Route.MAX_RETRIES)%nat ->
  (forall j, (j < k)%nat ->
     exists error, operation j = Route.Rejected error /\
                   Route.retryable error = true) ->
  operation k = Route.Resolved value ->
  Route.outcome (Route.withRetry operation 0) = Some (Route.Resolved value) /\
  Route.delays (Route.withRetry operation 0) =
    map Route.retry_delay (seq 0 k).
Proof.
  intros Hk Hfail Hok.
  destruct (withRetry_spec operation 0) as (Ho & Hb & Hd & Hj & Hl).
  cbn zeta in *.
  set (r := Route.withRetry operation 0) in *.
  assert (Hn : Route.retries r = k).
  { destruct (Nat.lt_trichotomy (Route.retries r) k) as [Hlt|[Heq|Hgt]].
    - destruct (Hfail _ Hlt) as (e & He & Hre).
      destruct (Hl e He) as [Hno|Hmax]; [congruence | lia].
    - exact Heq.
    - destruct (Hj _ Hgt) as (e & He & _). congruence. }
  rewrite Hn in *. split; [now rewrite Ho, Hok | exact Hd].
Qed.

Lemma withRetry_hides_transient_failures_witness :
  let operation := fun n =>
    match n with
    | O => Route.Rejected (Route.ErrorObject "network error"%string None)
    | S O => Route.Rejected (Route.OtherObject None (Some 503%Z))
    | _ => Route.Resolved 7%nat
    end in
  Route.outcome (Route.withRetry operation 0) = Some (Route.Resolved 7%nat) /\
  Route.delays (Route.withRetry operation 0) = [1000%Z; 2000%Z].
Proof.
  intros operation.
  apply (withRetry_hides_transient_failures operation 2 7%nat).
  - unfold Route.MAX_RETRIES. lia.
  - intros [|[|j]] Hj; [eexists; split; reflexivity.. | lia].
  - reflexivity.
Defined.

Lemma includes_blocked_retryable m c :
  Js.includes "blocked" m = true ->
  Route.retryable (Route.ErrorObject m c) = true.
Proof.
  intros H. unfold Route.retryable, Route.message_includes. cbn [Route.message].
  now rewrite H.
Qed.

(** X17: the handler answers 403 only after the retries are used up. When
    the model call ends in the 403 response, [withRetry] made four attempts
    and waited 1000, 2000 and 4000 ms between them, and the response carries
    the message of the fourth error, which contains "blocked". *)
Theorem blocked_answer_comes_after_all_retries {T}
    (operation : nat -> Route.Settled T) text details :
  Route.model_call operation = Some (inr (403%Z, text, details)) ->
  Route.delays (Route.withRetry operation 0) = [1000; 2000; 4000]%Z /\
  exists c, operation 3%nat = Route.Rejected (Route.ErrorObject details c) /\
            Js.includes "blocked" details = true.
Proof.
  unfold Route.model_call. intros Hcall.
  destruct (withRetry_spec operation 0) as (Ho & Hb & Hd & _ & Hl).
  cbn zeta in *.
  set (r := Route.withRetry operation 0) in *.
  rewrite Ho in Hcall.
  destruct (operation (Route.retries r)) as [v|e] eqn:Eop; [discriminate|].
  injection Hcall as Hresp.
  destruct e as [m c|m c]; cbn in Hresp; [|discriminate].
  destruct (Js.includes "blocked" m) eqn:Eb.
  2:{ destruct (Js.includes "Failed to fetch" m); discriminate. }
  injection Hresp as _ ->.
  assert (Hn : Route.retries r = 3%nat).
  { destruct (Hl _ eq_refl) as [Hno|Hmax].
    - rewrite (includes_blocked_retryable _ _ Eb) in Hno. discriminate.
    - unfold Route.MAX_RETRIES in *. lia. }
  rewrite Hn in *. split; [exact Hd|]. now exists c.
Qed.

Lemma blocked_answer_comes_after_all_retries_witness :
  let operation := fun _ : nat =>
    @Route.Rejected nat
      (Route.ErrorObject "Request blocked by gateway"%string (Some 403%Z)) in
  Route.delays (Route.withRetry operation 0) = [1000; 2000; 4000]%Z /\
  exists c,
    operation 3%nat =
      Route.Rejected (Route.ErrorObject "Request blocked by gateway" c) /\
    Js.includes "blocked" "Request blocked by gateway" = true.
Proof.
  intros operation.
  apply (blocked_answer_comes_after_all_retries operation
           "Network connection is unstable. Please wait a moment and try again."%string).
  reflexivity.
Defined.

(** *** The stream of the response *)

Lemma string_app_assoc (a b c : string) :
  ((a ++ b) ++ c)%string = (a ++ (b ++ c))%string.
Proof. induction a as [|x a IH]; cbn; [reflexivity | now rewrite IH]. Qed.

Lemma string_app_nil_r (a : string) : (a ++ "")%string = a.
Proof. induction a as [|x a IH]; cbn; [reflexivity | now rewrite IH]. Qed.

Lemma includes_truthy x needle haystack :
  Js.includes (String x needle) haystack = true ->
  Js.truthy haystack = true.
Proof. destruct haystack; [discriminate | reflexivity]. Qed.

Lemma pump_loop_cons s item items p :
  Route.pump_loop s (item :: items) p =
  Route.pump_loop s items
    match fst item with
    | Some c => if Js.truthy c
                then Route.pump_content s c (snd item) p else p
    | None => p
    end.
Proof. reflexivity. Qed.

Lemma pump_loop_app s items1 items2 p :
  Route.pump_loop s (items1 ++ items2) p =
  Route.pump_loop s items2 (Route.pump_loop s items1 p).
Proof. apply fold_left_app. Qed.

Lemma pump_chunks s e items p :
  Route.pump s e (Route.chunks_of items) p =
  Route.pump_finish s e (Route.pump_loop s items p).
Proof.
  revert p. induction items as [|[c now] items IH]; intros p.
  - reflexivity.
  - rewrite pump_loop_cons. cbn. apply IH.
Qed.

Lemma pump_content_text s c now p :
  Route.accumulatedContent (Route.pump_content s c now p) =
    if Js.includes "<think>" c || Route.isThinkingPhase p
    then Route.accumulatedContent p
    else (Route.accumulatedContent p ++ c)%string.
Proof.
  unfold Route.pump_content.
  destruct (Route.no_first_chunk p), (Js.includes "<think>" c),
    (Route.isThinkingPhase p), (Js.includes "</think>" c); reflexivity.
Qed.

Lemma pump_content_phase s c now p :
  Route.isThinkingPhase (Route.pump_content s c now p) =
    Js.includes "<think>" c ||
    (Route.isThinkingPhase p && negb (Js.includes "</think>" c)).
Proof.
  unfold Route.pump_content.
  destruct (Route.no_first_chunk p), (Js.includes "<think>" c),
    (Route.isThinkingPhase p) eqn:E, (Js.includes "</think>" c);
    cbn; rewrite ?E; reflexivity.
Qed.

Lemma pump_content_enqueued s c now p :
  Route.enqueued (Route.pump_content s c now p) =
    (Route.enqueued p ++
     if Route.no_first_chunk p
     then [Route.FirstTokenLatency (now - s)] else [])%list.
Proof.
  unfold Route.pump_content.
  destruct (Route.no_first_chunk p), (Js.includes "<think>" c),
    (Route.isThinkingPhase p), (Js.includes "</think>" c);
    cbn; rewrite ?app_nil_r; reflexivity.
Qed.

Lemma pump_content_first s c now p :
  Route.firstChunkTime (Route.pump_content s c now p) =
    if Route.no_first_chunk p then Some now else Route.firstChunkTime p.
Proof.
  unfold Route.pump_content.
  destruct (Route.no_first_chunk p), (Js.includes "<think>" c),
    (Route.isThinkingPhase p), (Js.includes "</think>" c); reflexivity.
Qed.

(** Only first-token metrics are enqueued while the loop runs. *)
Lemma pump_loop_enqueued s items :
  forall p,
  forallb Route.is_first_token (Route.enqueued p) = true ->
  forallb Route.is_first_token
          (Route.enqueued (Route.pump_loop s items p)) = true.
Proof.
  induction items as [|[c now] items IH]; intros p Hp; [exact Hp|].
  rewrite pump_loop_cons. apply IH. cbn [fst snd].
  destruct c as [c|]; [|exact Hp].
  destruct (Js.truthy c); [|exact Hp].
  rewrite pump_content_enqueued, forallb_app, Hp.
  now destruct (Route.no_first_chunk p).
Qed.

Lemma filter_first_tokens l :
  forallb Route.is_first_token l = true -> List.filter Route.is_content l = [].
Proof.
  induction l as [|x l IH]; [reflexivity|]. cbn.
  destruct x; cbn; try discriminate. exact IH.
Qed.

Lemma pump_finish_content s e p :
  forallb Route.is_first_token (Route.enqueued p) = true ->
  List.filter Route.is_content (Route.pump_finish s e p) =
    if Js.truthy (Route.accumulatedContent p)
    then [Route.Content (Route.accumulatedContent p)] else [].
Proof.
  intros Hp. unfold Route.pump_finish.
  rewrite !List.filter_app, (filter_first_tokens _ Hp).
  now destruct (Js.truthy (Route.accumulatedContent p)).
Qed.

(** Outside the thinking phase and without an opening tag, the loop appends
    every content. *)
Lemma pump_loop_tag_free s items :
  forall p,
  Route.tag_free items -> Route.isThinkingPhase p = false ->
  Route.accumulatedContent (Route.pump_loop s items p) =
    (Route.accumulatedContent p ++ Route.concat_contents items)%string /\
  Route.isThinkingPhase (Route.pump_loop s items p) = false.
Proof.
  induction items as [|[c now] items IH]; intros p Hfree Hphase.
  - cbn. now rewrite string_app_nil_r.
  - apply Forall_cons_iff in Hfree as [Hc Hfree]. cbn [fst] in Hc.
    rewrite pump_loop_cons. cbn [fst snd Route.concat_contents fold_right].
    fold (Route.concat_contents items).
    destruct c as [c|]; [|now apply IH].
    destruct (Js.truthy c) eqn:Et.
    + destruct (IH (Route.pump_content s c now p) Hfree) as [Ha Hp].
      { rewrite pump_content_phase, Hc, Hphase. reflexivity. }
      rewrite Ha, Hp, pump_content_text, Hc, Hphase. cbn [orb].
      now rewrite string_app_assoc.
    + destruct c; [|discriminate]. now apply IH.
Qed.

(** Inside the thinking phase, until a chunk closes it, nothing is kept. *)
Lemma pump_loop_thinking s items :
  forall p,
  Forall (fun item => Route.closes item = false) items ->
  Route.isThinkingPhase p = true ->
  Route.accumulatedContent (Route.pump_loop s items p) =
    Route.accumulatedContent p /\
  Route.isThinkingPhase (Route.pump_loop s items p) = true.
Proof.
  induction items as [|[c now] items IH]; intros p Hmid Hphase.
  - now cbn.
  - apply Forall_cons_iff in Hmid as [Hc Hmid].
    unfold Route.closes in Hc. cbn [fst] in Hc.
    rewrite pump_loop_cons. cbn [fst snd].
    destruct c as [c|]; [|now apply IH].
    destruct (Js.truthy c); [|now apply IH].
    destruct (IH (Route.pump_content s c now p) Hmid) as [Ha Hp].
    { rewrite pump_content_phase, Hphase.
      destruct (Js.includes "<think>" c); [reflexivity|].
      cbn in Hc |- *. now rewrite Hc. }
    rewrite Ha, Hp, pump_content_text, Hphase, orb_true_r. now split.
Qed.

Lemma pump_loop_opens s item p :
  Route.opens item = true ->
  Route.accumulatedContent (Route.pump_loop s [item] p) =
    Route.accumulatedContent p /\
  Route.isThinkingPhase (Route.pump_loop s [item] p) = true.
Proof.
  destruct item as [[c|] now]; [|discriminate].
  unfold Route.opens. cbn [fst]. intros Ho.
  rewrite pump_loop_cons. cbn [fst snd Route.pump_loop fold_left].
  rewrite (includes_truthy _ _ _ Ho).
  now rewrite pump_content_text, pump_content_phase, Ho.
Qed.

Lemma pump_loop_closes s item p :
  Route.closes item = true -> Route.isThinkingPhase p = true ->
  Route.accumulatedContent (Route.pump_loop s [item] p) =
    Route.accumulatedContent p /\
  Route.isThinkingPhase (Route.pump_loop s [item] p) = false.
Proof.
  destruct item as [[c|] now]; [|discriminate].
  unfold Route.closes. cbn [fst]. intros Hc Hphase.
  apply andb_true_iff in Hc as [Hno Hclose].
  apply negb_true_iff in Hno.
  rewrite pump_loop_cons. cbn [fst snd Route.pump_loop fold_left].
  rewrite (includes_truthy _ _ _ Hclose).
  rewrite pump_content_text, pump_content_phase, Hno, Hclose, Hphase.
  now split.
Qed.

Lemma pump_envelope s e items :
  forall p,
  forallb Route.is_first_token (Route.enqueued p) = true ->
  exists firsts,
    forallb Route.is_first_token firsts = true /\
    if Route.throws items
    then exists message, Route.pump s e items p = firsts ++ [Route.ErrorEvent message]
    else exists text, Route.pump s e items p = firsts ++ Route.completion s e text.
Proof.
  induction items as [|[c now|m] items IH]; intros p Hp.
  - exists (Route.enqueued p). split; [exact Hp|].
    now exists (Route.accumulatedContent p).
  - cbn [Route.throws existsb orb Route.pump]. fold (Route.throws items).
    apply IH.
    destruct c as [c|]; [|exact Hp].
    destruct (Js.truthy c); [|exact Hp].
    rewrite pump_content_enqueued, forallb_app, Hp.
    now destruct (Route.no_first_chunk p).
  - exists (Route.enqueued p). split; [exact Hp|].
    cbn. eexists. reflexivity.
Qed.

(** X18: the shape of the response stream. Whatever the model's stream
    does, the events enqueued are first-token metrics followed by exactly
    one ending: when the iteration throws, a single error event and nothing
    else (no content, no total latency, no end marker); otherwise at most
    one content event, never with an empty text, then the total latency and
    the end marker. *)
Theorem response_stream_envelope s e items :
  exists firsts,
    forallb Route.is_first_token firsts = true /\
    if Route.throws items
    then exists message,
           Route.pump s e items Route.pump_initial =
             firsts ++ [Route.ErrorEvent message]
    else exists text,
           Route.pump s e items Route.pump_initial =
             firsts ++ (if Js.truthy text then [Route.Content text] else [])
                    ++ [Route.TotalLatency (e - s); Route.Done].
Proof.
  exact (pump_envelope s e items Route.pump_initial eq_refl).
Qed.

Lemma pump_loop_first_known s items :
  forall p t,
  Route.firstChunkTime p = Some t -> t <> 0%Z ->
  Route.enqueued (Route.pump_loop s items p) = Route.enqueued p.
Proof.
  induction items as [|[c now] items IH]; intros p t Ht Hne; [reflexivity|].
  rewrite pump_loop_cons. cbn [fst snd].
  assert (Hno : Route.no_first_chunk p = false).
  { unfold Route.no_first_chunk. rewrite Ht. now apply Z.eqb_neq. }
  destruct c as [c|]; [|now apply (IH p t)].
  destruct (Js.truthy c); [|now apply (IH p t)].
  rewrite (IH _ t).
  - now rewrite pump_content_enqueued, Hno, app_nil_r.
  - now rewrite pump_content_first, Hno.
  - exact Hne.
Qed.

Lemma pump_loop_first s items :
  forall p,
  Forall (fun item => snd item <> 0%Z) items ->
  Route.firstChunkTime p = None ->
  Route.enqueued (Route.pump_loop s items p) =
    Route.enqueued p ++
    match List.find Route.has_text items with
    | Some item => [Route.FirstTokenLatency (snd item - s)]
    | None => []
    end.
Proof.
  induction items as [|[c now] items IH]; intros p Hnow Hfirst.
  - cbn. now rewrite app_nil_r.
  - apply Forall_cons_iff in Hnow as [Hne Hnow]. cbn [snd] in Hne.
    rewrite pump_loop_cons.
    cbn [fst snd List.find]. unfold Route.has_text at 1. cbn [fst].
    assert (Hno : Route.no_first_chunk p = true).
    { unfold Route.no_first_chunk. now rewrite Hfirst. }
    destruct c as [c|]; [|now apply IH].
    destruct (Js.truthy c); [|now apply IH].
    rewrite (pump_loop_first_known s items _ now).
    + now rewrite pump_content_enqueued, Hno.
    + now rewrite pump_content_first, Hno.
    + exact Hne.
Qed.

(** X19: the first-token latency is reported once, for the first chunk
    that carries text. When no reading of the clock is 0, the loop enqueues
    one first-token metric, measured at the first chunk whose content is
    non-empty, and none when there is no such chunk. *)
Theorem first_token_latency_once s items :
  Forall (fun item => snd item <> 0%Z) items ->
  Route.enqueued (Route.pump_loop s items Route.pump_initial) =
    match List.find Route.has_text items with
    | Some item => [Route.FirstTokenLatency (snd item - s)]
    | None => []
    end.
Proof.
  intros Hnow. now rewrite (pump_loop_first s items Route.pump_initial Hnow).
Qed.

Lemma first_token_latency_once_witness :
  Route.enqueued
    (Route.pump_loop 100
       [(None, 130%Z); (Some ""%string, 140%Z); (Some "Bon"%string, 150%Z);
        (Some "jour"%string, 160%Z)]
       Route.pump_initial) =
  [Route.FirstTokenLatency 50].
Proof.
  apply (first_token_latency_once 100
           [(None, 130%Z); (Some ""%string, 140%Z); (Some "Bon"%string, 150%Z);
            (Some "jour"%string, 160%Z)]).
  repeat constructor; cbn; lia.
Defined.

(** X20: a stream without the opening tag passes through whole. When no
    chunk contains [<think>], the response carries the concatenation of all
    chunk contents as its one content event (and no content event when that
    concatenation is empty). *)
Theorem untagged_stream_passes_through s e items :
  Route.tag_free items ->
  List.filter Route.is_content
    (Route.pump s e (Route.chunks_of items) Route.pump_initial) =
  if Js.truthy (Route.concat_contents items)
  then [Route.Content (Route.concat_contents items)] else [].
Proof.
  intros Hfree.
  rewrite pump_chunks, pump_finish_content
    by (now apply pump_loop_enqueued).
  now destruct (pump_loop_tag_free s items Route.pump_initial Hfree eq_refl)
    as [-> _].
Qed.

Lemma untagged_stream_passes_through_witness :
  List.filter Route.is_content
    (Route.pump 100 900
       (Route.chunks_of
          [(Some "Bon"%string, 150%Z); (None, 155%Z);
           (Some "jour</think>"%string, 160%Z)])
       Route.pump_initial) =
  [Route.Content "Bonjour</think>"].
Proof.
  apply (untagged_stream_passes_through 100 900
           [(Some "Bon"%string, 150%Z); (None, 155%Z);
            (Some "jour</think>"%string, 160%Z)]).
  repeat constructor.
Defined.

(** X21: the thinking phase is dropped. For a stream made of untagged
    chunks, a chunk with the opening tag, chunks none of which closes the
    phase, a closing chunk (it contains [</think>] and not [<think>]) and
    untagged chunks again, the content sent is the concatenation of the
    chunks before the opening one and after the closing one: the opening
    and closing chunks are dropped whole, with whatever text they carry
    around the tags. *)
Theorem thinking_phase_is_dropped s e before opening thinking closing after :
  Route.tag_free before ->
  Route.opens opening = true ->
  Forall (fun item => Route.closes item = false) thinking ->
  Route.closes closing = true ->
  Route.tag_free after ->
  List.filter Route.is_content
    (Route.pump s e
       (Route.chunks_of
          (before ++ opening :: thinking ++ closing :: after))
       Route.pump_initial) =
  if Js.truthy
       (Route.concat_contents before ++ Route.concat_contents after)
  then [Route.Content
          (Route.concat_contents before ++ Route.concat_contents after)]
  else [].
Proof.
  intros Hbefore Hopen Hthink Hclose Hafter.
  rewrite pump_chunks, pump_finish_content
    by (now apply pump_loop_enqueued).
  change (opening :: thinking ++ closing :: after)
    with ([opening] ++ thinking ++ [closing] ++ after).
  rewrite !pump_loop_app.
  destruct (pump_loop_tag_free s before Route.pump_initial Hbefore eq_refl)
    as [Ha1 Hp1].
  set (p1 := Route.pump_loop s before Route.pump_initial) in *.
  destruct (pump_loop_opens s opening p1 Hopen) as [Ha2 Hp2].
  set (p2 := Route.pump_loop s [opening] p1) in *.
  destruct (pump_loop_thinking s thinking p2 Hthink Hp2) as [Ha3 Hp3].
  set (p3 := Route.pump_loop s thinking p2) in *.
  destruct (pump_loop_closes s closing p3 Hclose Hp3) as [Ha4 Hp4].
  set (p4 := Route.pump_loop s [closing] p3) in *.
  destruct (pump_loop_tag_free s after p4 Hafter Hp4) as [Ha5 _].
  rewrite Ha5, Ha4, Ha3, Ha2, Ha1. reflexivity.
Qed.

Lemma thinking_phase_is_dropped_witness :
  List.filter Route.is_content
    (Route.pump 100 900
       (Route.chunks_of
          ([(Some "Sure. "%string, 150%Z)] ++
           (Some "so <think>the user"%string, 160%Z) ::
           [(Some " wants </think> maybe <think>"%string, 170%Z);
            (Some "a greeting"%string, 180%Z)] ++
           (Some "</think>Bon"%string, 190%Z) ::
           [(Some "jour"%string, 200%Z)]))
       Route.pump_initial) =
  [Route.Content "Sure. jour"].
Proof.
  apply (thinking_phase_is_dropped 100 900
           [(Some "Sure. "%string, 150%Z)]
           (Some "so <think>the user"%string, 160%Z)
           [(Some " wants </think> maybe <think>"%string, 170%Z);
            (Some "a greeting"%string, 180%Z)]
           (Some "</think>Bon"%string, 190%Z)
           [(Some "jour"%string, 200%Z)]).
  - repeat constructor.
  - reflexivity.
  - repeat constructor.
  - reflexivity.
  - repeat constructor.
Defined.

(** X22: a thinking phase that is not closed by a later chunk swallows the
    rest of the stream. After a chunk with the opening tag, when no later
    chunk closes the phase (also when the closing tag came in the opening
    chunk itself), only what came before the opening chunk is sent. *)
Theorem unclosed_thinking_swallows_the_rest s e before opening rest :
  Route.tag_free before ->
  Route.opens opening = true ->
  Forall (fun item => Route.closes item = false) rest ->
  List.filter Route.is_content
    (Route.pump s e (Route.chunks_of (before ++ opening :: rest))
       Route.pump_initial) =
  if Js.truthy (Route.concat_contents before)
  then [Route.Content (Route.concat_contents before)] else [].
Proof.
  intros Hbefore Hopen Hrest.
  rewrite pump_chunks, pump_finish_content
    by (now apply pump_loop_enqueued).
  change (opening :: rest) with ([opening] ++ rest).
  rewrite !pump_loop_app.
  destruct (pump_loop_tag_free s before Route.pump_initial Hbefore eq_refl)
    as [Ha1 Hp1].
  set (p1 := Route.pump_loop s before Route.pump_initial) in *.
  destruct (pump_loop_opens s opening p1 Hopen) as [Ha2 Hp2].
  set (p2 := Route.pump_loop s [opening] p1) in *.
  destruct (pump_loop_thinking s rest p2 Hrest Hp2) as [Ha3 _].
  rewrite Ha3, Ha2, Ha1. reflexivity.
Qed.

Lemma unclosed_thinking_swallows_the_rest_witness :
  List.filter Route.is_content
    (Route.pump 100 900
       (Route.chunks_of
          ([] ++ (Some "<think>a greeting</think>Bon"%string, 150%Z) ::
                 [(Some "jour"%string, 160%Z)]))
       Route.pump_initial) =
  [].
Proof.
  apply (unclosed_thinking_swallows_the_rest 100 900 []
           (Some "<think>a greeting</think>Bon"%string, 150%Z)
           [(Some "jour"%string, 160%Z)]).
  - constructor.
  - reflexivity.
  - repeat constructor.
Defined.

(* ------------------------------------------------------------------ *)
(** ** [processAudio], whole *)

Lemma partials_frame l :
  forall s,
  exists text,
    fold_left (fun s partialTranslation =>
                 Home.set_translatedText partialTranslation s) l s =
    Home.set_translatedText text s.
Proof.
  induction l as [|x l IH]; intros s.
  - exists (Home.translatedText s). now destruct s.
  - cbn [fold_left]. destruct (IH (Home.set_translatedText x s)) as [t Ht].
    exists t. rewrite Ht. reflexivity.
Qed.

(** The setup phase writes the transcription and, on success, the two
    languages with the end of the setup; nothing else. *)
Lemma setup_phase_frame world audioBlob s :
  let s' := snd (Home.setup_phase world audioBlob s) in
  Home.messages s' = Home.messages s /\
  Home.processingRef s' = Home.processingRef s /\
  Home.isProcessing s' = Home.isProcessing s /\
  Home.error s' = Home.error s /\
  Home.translatedText s' = Home.translatedText s /\
  ((Home.isInitialSetup s' = Home.isInitialSetup s /\
    Home.supportedLanguages s' = Home.supportedLanguages s) \/
   (Home.isInitialSetup s' = false /\
    length (Home.supportedLanguages s') = 2%nat)).
Proof.
  unfold Home.setup_phase.
  destruct (Home.speech world audioBlob None) as [[|] data|thrown]; cbn.
  - destruct (Home.language world (Home.sd_text data))
      as [[|] ldata|thrown]; cbn; repeat split; auto.
  - destruct (Home.ignorable (Home.sd_error data)); cbn; repeat split; auto.
  - repeat split; auto.
Qed.

(** The translation phase writes the transcription and the translation in
    progress, and appends at most the new message. *)
Lemma translation_phase_frame supportedLanguages world audioBlob s :
  let s' := snd (Home.translation_phase supportedLanguages world audioBlob s) in
  Home.processingRef s' = Home.processingRef s /\
  Home.isProcessing s' = Home.isProcessing s /\
  Home.error s' = Home.error s /\
  Home.isInitialSetup s' = Home.isInitialSetup s /\
  Home.supportedLanguages s' = Home.supportedLanguages s /\
  (Home.messages s' = Home.messages s \/
   exists data translation target,
     Home.speech world audioBlob (Some supportedLanguages) =
       Home.Response true data /\
     Home.result
       (Home.translate world (Home.sd_text data) supportedLanguages) =
       inl translation /\
     nth_error supportedLanguages 1 = Some target /\
     Home.messages s' =
       Home.messages s ++
       [Home.mkMessage (fst (Home.clock world)) (Home.sd_text data)
          translation (snd (Home.clock world)) (Home.sd_language data)
          (Home.code target)]).
Proof.
  unfold Home.translation_phase.
  destruct (Home.speech world audioBlob (Some supportedLanguages))
    as [[|] data|thrown] eqn:Es; cbn -[nth_error].
  - destruct (partials_frame
                (Home.partials
                   (Home.translate world (Home.sd_text data)
                      supportedLanguages))
                (Home.set_transcribedText (Home.sd_text data) s))
      as [text ->].
    destruct (Home.result _) as [translation|thrown] eqn:Er; cbn -[nth_error].
    + destruct (nth_error supportedLanguages 1) as [target|] eqn:En; cbn -[nth_error].
      * repeat split; auto. right. now exists data, translation, target.
      * repeat split; auto.
    + repeat split; auto.
  - destruct (Home.ignorable (Home.sd_error data)); cbn; repeat split; auto.
  - repeat split; auto.
Qed.

(** What the [catch] and the [finally] do to the fields they do not set. *)
Lemma processAudio_unfold (isInitialSetup : bool) supportedLanguages world
    audioBlob s :
  Home.processingRef s = false ->
  (15000 <= size audioBlob)%N ->
  exists (completion : Home.Completion) (s' : Home.State)
         (shown : option string),
    (completion, s') =
      (if isInitialSetup
       then Home.setup_phase world audioBlob
       else Home.translation_phase supportedLanguages world audioBlob)
        (Home.set_error None
           (Home.set_isProcessing true (Home.set_processingRef true s))) /\
    Home.processAudio isInitialSetup supportedLanguages world audioBlob s =
      Home.set_isProcessing false
        (Home.set_processingRef false (Home.set_error shown s')) /\
    (completion = Home.Normal -> shown = None).
Proof.
  intros Hfree Hsize. unfold Home.processAudio. rewrite Hfree.
  apply N.ltb_ge in Hsize. rewrite Hsize.
  set (s0 := Home.set_error None _).
  assert (Hs0 : Home.error s0 = None) by reflexivity.
  destruct isInitialSetup.
  - pose proof (setup_phase_frame world audioBlob s0) as (_ & _ & _ & He & _).
    destruct (Home.setup_phase world audioBlob s0) as [completion s'].
    cbn [snd] in He. rewrite Hs0 in He.
    destruct completion as [|[m|]].
    + exists Home.Normal, s', None. repeat split.
      destruct s'; cbn in *; now subst.
    + exists (Home.Threw (Home.ErrorObject m)), s', (Some m).
      repeat split. discriminate.
    + exists (Home.Threw Home.OtherValue), s',
        (Some "An unknown error occurred"%string).
      repeat split. discriminate.
  - pose proof (translation_phase_frame supportedLanguages world audioBlob s0)
      as (_ & _ & He & _).
    destruct (Home.translation_phase supportedLanguages world audioBlob s0)
      as [completion s'].
    cbn [snd] in He. rewrite Hs0 in He.
    destruct completion as [|[m|]].
    + exists Home.Normal, s', None. repeat split.
      destruct s'; cbn in *; now subst.
    + exists (Home.Threw (Home.ErrorObject m)), s', (Some m).
      repeat split. discriminate.
    + exists (Home.Threw Home.OtherValue), s',
        (Some "An unknown error occurred"%string).
      repeat split. discriminate.
Qed.

Lemma processAudio_keeps_idle (isInitialSetup : bool) supportedLanguages
    world audioBlob s :
  Home.idle s /\ Home.languages_chosen s ->
  Home.idle
    (Home.processAudio isInitialSetup supportedLanguages world audioBlob s) /\
  Home.languages_chosen
    (Home.processAudio isInitialSetup supportedLanguages world audioBlob s).
Proof.
  intros [[Hfree Hproc] Hlang].
  destruct (N.ltb_spec (size audioBlob) 15000) as [Hshort|Hsize].
  { unfold Home.processAudio. rewrite Hfree.
    apply N.ltb_lt in Hshort. rewrite Hshort. now repeat split. }
  destruct (processAudio_unfold isInitialSetup supportedLanguages world
              audioBlob s Hfree Hsize)
    as (completion & s' & shown & Hphase & -> & _).
  split; [now split|].
  unfold Home.languages_chosen in *. cbn.
  set (s0 := Home.set_error None _) in Hphase.
  destruct isInitialSetup.
  - pose proof (setup_phase_frame world audioBlob s0) as Hf.
    rewrite <- Hphase in Hf. cbn [snd] in Hf.
    destruct Hf as (_ & _ & _ & _ & _ & [[-> ->]|[_ Hlen]]).
    + exact Hlang.
    + intros _. exact Hlen.
  - pose proof (translation_phase_frame supportedLanguages world audioBlob s0)
      as Hf.
    rewrite <- Hphase in Hf. cbn [snd] in Hf.
    destruct Hf as (_ & _ & _ & -> & -> & _). exact Hlang.
Qed.

(** X23: the page never stays busy, and the setup never ends without two
    languages. After any sequence of [processAudio] calls that have settled,
    whatever the services answered or threw and whichever render each call
    came from, [processingRef] and [isProcessing] are false again, and
    [isInitialSetup] is false only with a list of exactly two languages. *)
Theorem page_is_idle_after_every_call calls :
  Home.idle (Home.run calls Home.initial) /\
  Home.languages_chosen (Home.run calls Home.initial).
Proof.
  unfold Home.run.
  assert (Hinit : Home.idle Home.initial /\ Home.languages_chosen Home.initial).
  { split; [now split|]. intros [=]. }
  revert Hinit. generalize Home.initial.
  induction calls as [|call calls IH]; intros s Hs; [exact Hs|].
  cbn [fold_left]. apply IH. now apply processAudio_keeps_idle.
Qed.

(** X24: one call appends at most one message, and only as a translation.
    After [processAudio] the list of messages is the old one, or the old one
    followed by one message; the latter only for a call created after the
    setup, whose transcription request succeeded and whose translation
    resolved, and the message carries that transcription, that translation
    and the code of the second language. *)
Theorem processAudio_appends_at_most_one_message (isInitialSetup : bool)
    supportedLanguages world audioBlob s :
  Home.messages
    (Home.processAudio isInitialSetup supportedLanguages world audioBlob s) =
    Home.messages s \/
  exists data translation target,
    isInitialSetup = false /\
    Home.speech world audioBlob (Some supportedLanguages) =
      Home.Response true data /\
    Home.result
      (Home.translate world (Home.sd_text data) supportedLanguages) =
      inl translation /\
    nth_error supportedLanguages 1 = Some target /\
    Home.messages
      (Home.processAudio isInitialSetup supportedLanguages world audioBlob s) =
      Home.messages s ++
      [Home.mkMessage (fst (Home.clock world)) (Home.sd_text data)
         translation (snd (Home.clock world)) (Home.sd_language data)
         (Home.code target)].
Proof.
  destruct (Home.processingRef s) eqn:Hfree.
  { left. unfold Home.processAudio. now rewrite Hfree. }
  destruct (N.ltb_spec (size audioBlob) 15000) as [Hshort|Hsize].
  { left. unfold Home.processAudio. rewrite Hfree.
    apply N.ltb_lt in Hshort. now rewrite Hshort. }
  destruct (processAudio_unfold isInitialSetup supportedLanguages world
              audioBlob s Hfree Hsize)
    as (completion & s' & shown & Hphase & -> & _).
  cbn. set (s0 := Home.set_error None _) in Hphase.
  change (Home.messages s) with (Home.messages s0).
  destruct isInitialSetup.
  - left. pose proof (setup_phase_frame world audioBlob s0) as Hf.
    rewrite <- Hphase in Hf. cbn [snd] in Hf. apply Hf.
  - pose proof (translation_phase_frame supportedLanguages world audioBlob s0)
      as Hf.
    rewrite <- Hphase in Hf. cbn [snd] in Hf.
    destruct Hf as (_ & _ & _ & _ & _ & [Hm|Hm]); [now left | right].
    destruct Hm as (data & translation & target & Hs & Hr & Hn & Hm).
    now exists data, translation, target.
Qed.

(** X25: a segment the speech service calls unusable changes nothing but
    the error shown. When the page is idle, the segment is long enough and
    [/api/speech] answers, in either phase, with a failure whose error is
    one of the three ignored ones, the state after the call is the state
    before with [error] cleared: no transcription, no message, no error
    text, and an error shown earlier is gone. *)
Theorem ignored_audio_only_clears_the_error (isInitialSetup : bool)
    supportedLanguages world audioBlob s data :
  Home.idle s ->
  (15000 <= size audioBlob)%N ->
  Home.speech world audioBlob
    (if isInitialSetup then None else Some supportedLanguages) =
    Home.Response false data ->
  Home.ignorable (Home.sd_error data) = true ->
  Home.processAudio isInitialSetup supportedLanguages world audioBlob s =
    Home.set_error None s.
Proof.
  intros [Hfree Hproc] Hsize Hspeech Hign.
  unfold Home.processAudio. rewrite Hfree.
  apply N.ltb_ge in Hsize. rewrite Hsize.
  destruct isInitialSetup.
  - unfold Home.setup_phase. rewrite Hspeech. cbn [negb]. rewrite Hign.
    destruct s; cbn in *; now subst.
  - unfold Home.translation_phase. rewrite Hspeech. cbn [negb]. rewrite Hign.
    destruct s; cbn in *; now subst.
Qed.

Lemma ignored_audio_only_clears_the_error_witness :
  Home.processAudio true [] Home.nothing_heard (webm 20000)
    (Home.set_error (Some "Failed to detect languages"%string) Home.initial) =
  Home.initial.
Proof.
  apply (ignored_audio_only_clears_the_error true [] Home.nothing_heard
           (webm 20000)
           (Home.set_error (Some "Failed to detect languages"%string)
              Home.initial)
           (Home.mkSpeechData (Some "No speech detected"%string) None
              ""%string ""%string)).
  - split; reflexivity.
  - vm_compute. discriminate.
  - reflexivity.
  - reflexivity.
Defined.

(* ------------------------------------------------------------------ *)
(** ** The validation of the request *)

Lemma trimStart_whitespace lead text :
  forallb Route.is_whitespace lead = true ->
  Route.trimStart (lead ++ text) = Route.trimStart text.
Proof.
  induction lead as [|x lead IH]; intros Hl; [reflexivity|].
  cbn in Hl. apply andb_true_iff in Hl as [Hx Hl].
  cbn [app Route.trimStart]. rewrite Hx. now apply IH.
Qed.

Lemma trimStart_app text trail :
  forallb Route.is_whitespace text = false ->
  Route.trimStart (text ++ trail) = Route.trimStart text ++ trail.
Proof.
  induction text as [|x text IH]; intros Ht; [discriminate|].
  cbn in Ht. cbn [app Route.trimStart].
  destruct (Route.is_whitespace x); [|reflexivity].
  now apply IH.
Qed.

Lemma trimStart_all text :
  forallb Route.is_whitespace text = true -> Route.trimStart text = [].
Proof.
  intros Ht. rewrite <- (app_nil_r text).
  now rewrite trimStart_whitespace.
Qed.

Lemma forallb_reversed {A} (f : A -> bool) l :
  forallb f (rev l) = forallb f l.
Proof.
  induction l as [|x l IH]; [reflexivity|].
  cbn [rev]. rewrite forallb_app, IH. cbn [forallb].
  rewrite andb_true_r. apply andb_comm.
Qed.

Lemma trim_whitespace lead text trail :
  forallb Route.is_whitespace lead = true ->
  forallb Route.is_whitespace trail = true ->
  Route.trim (lead ++ text ++ trail) = Route.trim text.
Proof.
  intros Hl Ht. unfold Route.trim. rewrite (trimStart_whitespace _ _ Hl).
  destruct (forallb Route.is_whitespace text) eqn:Hall.
  - rewrite (trimStart_all text Hall), (trimStart_all (text ++ trail));
      [reflexivity|].
    now rewrite forallb_app, Hall, Ht.
  - rewrite (trimStart_app _ _ Hall), rev_app_distr.
    rewrite trimStart_whitespace; [reflexivity|].
    now rewrite forallb_reversed.
Qed.

(** X26: the validation does not see white space around the text. For a
    non-empty text, adding white space or line breaks before and after it
    changes nothing in the verdict of [POST]'s checks: the length and the
    punctuation test are taken on the trimmed text. (The empty text differs:
    alone it is a missing field, padded it is a text too short.) *)
Theorem validation_ignores_surrounding_whitespace {L}
    lead text trail (languages : option (list L)) :
  forallb Route.is_whitespace lead = true ->
  forallb Route.is_whitespace trail = true ->
  text <> [] ->
  Route.validate (Some (lead ++ text ++ trail)) languages =
  Route.validate (Some text) languages.
Proof.
  intros Hl Ht Hne. unfold Route.validate.
  destruct text as [|x text]; [contradiction|].
  destruct (lead ++ (x :: text) ++ trail) as [|y padded] eqn:Epad.
  { now destruct lead. }
  destruct languages as [languages|]; [|reflexivity].
  destruct (length languages =? 2)%nat; [|reflexivity].
  cbn [negb]. rewrite <- Epad. now rewrite (trim_whitespace _ _ _ Hl Ht).
Qed.

Lemma validation_ignores_surrounding_whitespace_witness :
  Route.validate (Some ([32; 9] ++ [111; 107; 63] ++ [10])%N)
                 (Some [tt; tt]) =
  Route.Valid.
Proof.
  rewrite (validation_ignores_surrounding_whitespace
             [32; 9]%N [111; 107; 63]%N [10]%N (Some [tt; tt])).
  - reflexivity.
  - reflexivity.
  - reflexivity.
  - discriminate.
Defined.
